(** * Snooker rules engine: a shallow embedding of Game.js, BallManager.js,
      ScoreManager.js and the Ball / Table classes.

    Modelling conventions.

    - JavaScript numbers that carry table coordinates, pixel coordinates,
      velocities and forces are embedded as exact rationals [Q]; every
      constant of the source (44.5, 14.5, 5.0, 3.708, 0.85, ...) is a
      decimal and is kept literally.  Rounding of IEEE doubles is outside
      the model.
    - Scores, counters and player numbers are integers [Z].
    - [dist] of p5.js is the Euclidean distance.  A comparison of [dist]
      against a bound is embedded as an executable test on squared
      quantities ([distLt], [distLe], [distGt]); section [DistanceTests]
      proves each test equivalent to the comparison of the real square
      root.
    - The Matter.js world is represented by the flag [Body.inWorld] carried
      by each body: [World.add] sets it, [World.remove] clears it.
    - A [Ball] object that the source mutates in place is addressed by its
      index in [ballManager.balls].
    - The [time] string of an event (wall clock) and console / sound output
      are not represented. *)

From Stdlib Require Import QArith Qreals Reals Lra Lia ZArith Bool List String.
From Stdlib Require Import DecimalString Qminmax.
From Stdlib Require Lqa.
Import ListNotations.

Open Scope Q_scope.

(* ------------------------------------------------------------------ *)
(** ** Numbers and geometry *)

Definition Qltb (a b : Q) : bool := negb (Qle_bool b a).

Lemma Qltb_lt (a b : Q) : Qltb a b = true <-> a < b.
Proof.
  unfold Qltb. rewrite negb_true_iff. split; intro H.
  - apply Qnot_le_lt. intro Hle. apply Qle_bool_iff in Hle. congruence.
  - destruct (Qle_bool b a) eqn:E; [|reflexivity].
    apply Qle_bool_iff in E. exfalso. exact (Qlt_not_le _ _ H E).
Qed.

Lemma Qltb_ge (a b : Q) : Qltb a b = false <-> b <= a.
Proof.
  unfold Qltb. rewrite negb_false_iff. apply Qle_bool_iff.
Qed.

Record Vector : Type := mkVector { vx : Q; vy : Q }.

(** Squared Euclidean distance: the radicand of p5's [dist(x1,y1,x2,y2)]. *)
Definition distSq (x1 y1 x2 y2 : Q) : Q :=
  (x2 - x1) * (x2 - x1) + (y2 - y1) * (y2 - y1).

(** [dist(x1,y1,x2,y2) < m] *)
Definition distLt (x1 y1 x2 y2 m : Q) : bool :=
  Qltb 0 m && Qltb (distSq x1 y1 x2 y2) (m * m).

(** [dist(x1,y1,x2,y2) <= m] *)
Definition distLe (x1 y1 x2 y2 m : Q) : bool :=
  Qle_bool 0 m && Qle_bool (distSq x1 y1 x2 y2) (m * m).

(** [dist(x1,y1,x2,y2) > m] *)
Definition distGt (x1 y1 x2 y2 m : Q) : bool :=
  Qltb m 0 || Qltb (m * m) (distSq x1 y1 x2 y2).

(** The real-valued distance the tests above decide. *)
Definition dist (x1 y1 x2 y2 : Q) : R := sqrt (Q2R (distSq x1 y1 x2 y2)).

(* ------------------------------------------------------------------ *)
(** ** Colours *)

Inductive Colour : Type :=
  | white | red | yellow | green | brown | blue | pink | black.

Definition Colour_eqb (a b : Colour) : bool :=
  match a, b with
  | white, white | red, red | yellow, yellow | green, green
  | brown, brown | blue, blue | pink, pink | black, black => true
  | _, _ => false
  end.

Definition colorString (c : Colour) : string :=
  match c with
  | white => "white" | red => "red" | yellow => "yellow" | green => "green"
  | brown => "brown" | blue => "blue" | pink => "pink" | black => "black"
  end.

(** [c !== 'red' && c !== 'white'] *)
Definition isColoured (c : Colour) : bool :=
  negb (Colour_eqb c red) && negb (Colour_eqb c white).

(* ------------------------------------------------------------------ *)
(** ** Matter.js bodies (the part of them the game reads and writes) *)

Module Body.
Record t : Type := mk {
  position : Vector;
  velocity : Vector;
  force : Vector;
  label : string;
  isSensor : bool;
  inWorld : bool
}.

(** [Bodies.circle(x, y, r, {label, isSensor})] followed by [World.add]. *)
Definition circle (x y : Q) (lbl : string) (sensor : bool) : t :=
  mk (mkVector x y) (mkVector 0 0) (mkVector 0 0) lbl sensor true.

(** [World.remove(world, body)] *)
Definition remove (b : t) : t :=
  mk (position b) (velocity b) (force b) (label b) (isSensor b) false.

(** [Body.applyForce(body, body.position, f)]: the force accumulates; the
    application point is the centre, so no torque arises. *)
Definition applyForce (b : t) (f : Vector) : t :=
  mk (position b) (velocity b)
     (mkVector (vx (force b) + vx f) (vy (force b) + vy f))
     (label b) (isSensor b) (inWorld b).

(** [Body.setVelocity(body, v)] *)
Definition setVelocity (b : t) (v : Vector) : t :=
  mk (position b) v (force b) (label b) (isSensor b) (inWorld b).

Definition setSensor (b : t) (s : bool) : t :=
  mk (position b) (velocity b) (force b) (label b) s (inWorld b).

(** [Body.setPosition(body, p)] *)
Definition setPosition (b : t) (p : Vector) : t :=
  mk p (velocity b) (force b) (label b) (isSensor b) (inWorld b).
End Body.

(* ------------------------------------------------------------------ *)
(** ** Ball (Table.js, class Ball) *)

Module Ball.
Record t : Type := mk {
  id : string;
  colorName : Colour;
  scale : Q;
  offsetX : Q;
  offsetY : Q;
  radius : Q;
  isPotted : bool;
  body : Body.t
}.

(** [new Ball(x, y, colorName, id, scale, offsetX, offsetY, isSettingUp)] *)
Definition new (x y : Q) (c : Colour) (i : string)
           (sc ox oy : Q) (isSettingUp : bool) : t :=
  mk i c sc ox oy 2.472 false
     (Body.circle (ox + x * sc) (oy + y * sc) i isSettingUp).

(** getters [x] and [y]: position in game units *)
Definition x (b : t) : Q := (vx (Body.position (body b)) - offsetX b) / scale b.
Definition y (b : t) : Q := (vy (Body.position (body b)) - offsetY b) / scale b.

Definition setPotted (b : t) (p : bool) : t :=
  mk (id b) (colorName b) (scale b) (offsetX b) (offsetY b) (radius b) p (body b).

Definition setBody (b : t) (bd : Body.t) : t :=
  mk (id b) (colorName b) (scale b) (offsetX b) (offsetY b) (radius b)
     (isPotted b) bd.
End Ball.

(* ------------------------------------------------------------------ *)
(** ** BallManager (BallManager.js) *)

Module BallManager.
Record t : Type := mk {
  scale : Q;
  offsetX : Q;
  offsetY : Q;
  balls : list Ball.t;
  isSettingUp : bool
}.

Definition constructor (sc ox oy : Q) : t := mk sc ox oy [] false.

Definition setBalls (bm : t) (bs : list Ball.t) : t :=
  mk (scale bm) (offsetX bm) (offsetY bm) bs (isSettingUp bm).

Definition setIsSettingUp (bm : t) (s : bool) : t :=
  mk (scale bm) (offsetX bm) (offsetY bm) (balls bm) s.

(** [this.balls.find(ball => ball.id === 'cue')] *)
Definition getCueBall (bm : t) : option Ball.t :=
  find (fun b => String.eqb (Ball.id b) "cue") (balls bm).

(** [clearBalls]: every body leaves the world, the list is emptied. *)
Definition clearBalls (bm : t) : t := setBalls bm [].

Definition minDistance : Q := 5.0.

(** [isValidPosition(x, y)]: the loop returns false at the first ball
    whose centre is closer than [minDistance]. *)
Fixpoint isValidPositionIn (x y : Q) (bs : list Ball.t) : bool :=
  match bs with
  | [] => true
  | ball :: rest =>
      if distLt x y (Ball.x ball) (Ball.y ball) minDistance then false
      else isValidPositionIn x y rest
  end.

Definition isValidPosition (bm : t) (x y : Q) : bool :=
  isValidPositionIn x y (balls bm).

(** [addBall(x, y, colorName, id)] *)
Definition addBall (x y : Q) (c : Colour) (i : string) (bm : t) : t :=
  setBalls bm
    (balls bm ++ [Ball.new x y c i (scale bm) (offsetX bm) (offsetY bm)
                    (isSettingUp bm)]).

(** [addCueBall(x, y, enableCollisions = false)] *)
Definition addCueBall (x y : Q) (enableCollisions : bool) (bm : t) : t :=
  let bm1 :=
    match getCueBall bm with
    | Some _ =>
        setBalls bm
          (filter (fun b => negb (String.eqb (Ball.id b) "cue")) (balls bm))
    | None => bm
    end in
  setBalls bm1
    (balls bm1 ++ [Ball.new x y white "cue" (scale bm1) (offsetX bm1)
                     (offsetY bm1) (negb enableCollisions)]).

(** [addColoredBalls] *)
Definition redApexX : Q := 130.
Definition ballDiameter : Q := 4.944.
Definition pinkX : Q := redApexX - ballDiameter.

Definition addColoredBalls (bm : t) : t :=
  addBall 164 44.5 black "black"
    (addBall 44.5 55.625 yellow "yellow"
      (addBall 44.5 33.375 green "green"
        (addBall 44.5 44.5 brown "brown"
          (addBall 89 44.5 blue "blue"
            (addBall pinkX 44.5 pink "pink" bm))))).

(** [`red${i}`] *)
Definition redId (i : nat) : string :=
  ("red" ++ NilEmpty.string_of_uint (Nat.to_uint i))%string.

(** The cells of the red triangle in the order of the nested loops
    [for row in 0..4, for col in 0..row]. *)
Definition triangleCells : list (nat * nat) :=
  flat_map (fun row => map (fun col => (row, col)) (seq 0 (S row))) (seq 0 5).

Definition triangleSpacing : Q := 2.472 * 2.05.

Definition addTriangleRed (st : t * nat) (cell : nat * nat) : t * nat :=
  let '(bm, ballIndex) := st in
  let '(row, col) := cell in
  let r := inject_Z (Z.of_nat row) in
  let c := inject_Z (Z.of_nat col) in
  let x := 130 + r * triangleSpacing * 0.866 in
  let y := 44.5 + (c - r / 2) * triangleSpacing in
  (addBall x y red (redId ballIndex) bm, S ballIndex).

(** [setupStartingPositions(addCueBall = true)] up to the timer. *)
Definition setupStartingPositions (withCue : bool) (bm : t) : t :=
  let bm1 := setIsSettingUp (clearBalls bm) true in
  let bm2 := if withCue then addCueBall 30 44.5 false bm1 else bm1 in
  let bm3 := fst (fold_left addTriangleRed triangleCells (bm2, 0%nat)) in
  addColoredBalls bm3.

(** The [setTimeout] callback shared by the three layouts: velocities are
    zeroed and collisions re-enabled. *)
Definition settle (bm : t) : t :=
  setIsSettingUp
    (setBalls bm
       (map (fun b =>
               Ball.setBody b
                 (Body.setSensor
                    (Body.setVelocity (Ball.body b) (mkVector 0 0)) false))
            (balls bm)))
    false.

(** *** Random layouts.  [random(20,158)], [random(10,79)] are read from an
    oracle [rnd]: the k-th candidate point drawn is [rnd k]. *)

(** [while (!validPosition) { x = random(..); y = random(..); ... }]: the
    loop has no attempt cap; [fuel] bounds the iterations explored and
    [None] stands for a loop that has not finished within it. *)
Fixpoint drawUntilValid (fuel : nat) (rnd : nat -> Q * Q) (k : nat) (bm : t)
  : option (Q * Q * nat) :=
  match fuel with
  | O => None
  | S fuel' =>
      let '(x, y) := rnd k in
      if isValidPosition bm x y then Some (x, y, S k)
      else drawUntilValid fuel' rnd (S k) bm
  end.

Fixpoint addRandomReds (fuel : nat) (rnd : nat -> Q * Q) (ids : list nat)
         (k : nat) (bm : t) : option t :=
  match ids with
  | [] => Some bm
  | i :: rest =>
      match drawUntilValid fuel rnd k bm with
      | None => None
      | Some (x, y, k') =>
          addRandomReds fuel rnd rest k' (addBall x y red (redId i) bm)
      end
  end.

(** [setupRandomReds(addCueBall = true)] up to the timer. *)
Definition setupRandomReds (withCue : bool) (fuel : nat) (rnd : nat -> Q * Q)
           (bm : t) : option t :=
  let bm1 := setIsSettingUp (clearBalls bm) true in
  let bm2 := if withCue then addCueBall 30 44.5 false bm1 else bm1 in
  addRandomReds fuel rnd (seq 0 15) 0 (addColoredBalls bm2).

(** [while (!validPosition && attempts < 100) { ... attempts++ }] *)
Fixpoint drawCapped (attemptsLeft : nat) (rnd : nat -> Q * Q) (k : nat) (bm : t)
  : option (Q * Q) * nat :=
  match attemptsLeft with
  | O => (None, k)
  | S n =>
      let '(x, y) := rnd k in
      if isValidPosition bm x y then (Some (x, y), S k)
      else drawCapped n rnd (S k) bm
  end.

Definition ballsToAdd : list (Colour * string) :=
  [ (yellow, "yellow"%string); (green, "green"%string);
    (brown, "brown"%string); (blue, "blue"%string);
    (pink, "pink"%string); (black, "black"%string) ]
  ++ map (fun i => (red, redId i)) (seq 0 15).

Definition placeRandom (rnd : nat -> Q * Q) (st : t * nat)
           (ballInfo : Colour * string) : t * nat :=
  let '(bm, k) := st in
  match drawCapped 100 rnd k bm with
  | (Some (x, y), k') => (addBall x y (fst ballInfo) (snd ballInfo) bm, k')
  | (None, k') => (bm, k')
  end.

(** [setupRandomAll(addCueBall = true)] up to the timer. *)
Definition setupRandomAll (withCue : bool) (rnd : nat -> Q * Q) (bm : t) : t :=
  let bm1 := setIsSettingUp (clearBalls bm) true in
  let bm2 := if withCue then addCueBall 30 44.5 false bm1 else bm1 in
  fst (fold_left (placeRandom rnd) ballsToAdd (bm2, 0%nat)).
End BallManager.

(* ------------------------------------------------------------------ *)
(** ** ScoreManager (ScoreManager.js) *)

Inductive Event : Type :=
  | PotEvent (color : Colour) (points : Z) (player : Z)
  | FoulEvent (reason : string) (player : Z) (penaltyPoints : Z)
  | TurnChangeEvent (player : Z).

Module ScoreManager.
Open Scope Z_scope.

Record BallsPotted : Type := mkBallsPotted {
  bp_red : Z; bp_yellow : Z; bp_green : Z; bp_brown : Z;
  bp_blue : Z; bp_pink : Z; bp_black : Z; bp_total : Z
}.

Record Stats : Type := mkStats {
  totalShots : Z;
  successfulShots : Z;
  fouls : Z;
  highestBreak : Z;
  currentBreak : Z;
  ballsPotted : BallsPotted
}.

Record Shot : Type := mkShot {
  ballsHit : list Colour;
  shotBallsPotted : list Colour;
  cushionsHit : Z;
  isValid : bool
}.

Record t : Type := mk {
  player1Score : Z;
  player2Score : Z;
  currentPlayer : Z;
  stats : Stats;
  currentShot : Shot;
  recentEvents : list Event
}.

Definition maxRecentEvents : nat := 5.

Definition freshShot : Shot := mkShot [] [] 0 true.

Definition constructor : t :=
  mk 0 0 1
     (mkStats 0 0 0 0 0 (mkBallsPotted 0 0 0 0 0 0 0 0))
     freshShot [].

(** [ballValues[ballColor] || 0] *)
Definition ballValues (c : Colour) : Z :=
  match c with
  | red => 1 | yellow => 2 | green => 3 | brown => 4
  | blue => 5 | pink => 6 | black => 7
  | white => 0
  end.

(** [addEvent(event)]: unshift, then drop the oldest entry beyond the cap. *)
Definition addEvent (e : Event) (s : t) : t :=
  let evs := e :: recentEvents s in
  let evs' := if Nat.ltb maxRecentEvents (List.length evs) then removelast evs
              else evs in
  mk (player1Score s) (player2Score s) (currentPlayer s) (stats s)
     (currentShot s) evs'.

(** [switchPlayer()] *)
Definition switchPlayer (s : t) : t :=
  let p := if currentPlayer s =? 1 then 2 else 1 in
  addEvent (TurnChangeEvent p)
    (mk (player1Score s) (player2Score s) p (stats s) (currentShot s)
        (recentEvents s)).

(** [startNewShot()] *)
Definition startNewShot (s : t) : t :=
  let st := stats s in
  mk (player1Score s) (player2Score s) (currentPlayer s)
     (mkStats (totalShots st + 1) (successfulShots st) (fouls st)
        (highestBreak st) (currentBreak st) (ballsPotted st))
     freshShot (recentEvents s).

(** [recordBallHit(ballColor)] *)
Definition recordBallHit (c : Colour) (s : t) : t :=
  let sh := currentShot s in
  if existsb (Colour_eqb c) (ballsHit sh) then s
  else mk (player1Score s) (player2Score s) (currentPlayer s) (stats s)
          (mkShot (ballsHit sh ++ [c]) (shotBallsPotted sh) (cushionsHit sh)
             (isValid sh))
          (recentEvents s).

(** [recordCushionHit()] *)
Definition recordCushionHit (s : t) : t :=
  let sh := currentShot s in
  mk (player1Score s) (player2Score s) (currentPlayer s) (stats s)
     (mkShot (ballsHit sh) (shotBallsPotted sh) (cushionsHit sh + 1)
        (isValid sh))
     (recentEvents s).

(** [this.stats.ballsPotted[ballColor]++] when the key exists, then
    [total++]. *)
Definition countPotted (c : Colour) (b : BallsPotted) : BallsPotted :=
  let b' :=
    match c with
    | red => mkBallsPotted (bp_red b + 1) (bp_yellow b) (bp_green b)
               (bp_brown b) (bp_blue b) (bp_pink b) (bp_black b) (bp_total b)
    | yellow => mkBallsPotted (bp_red b) (bp_yellow b + 1) (bp_green b)
               (bp_brown b) (bp_blue b) (bp_pink b) (bp_black b) (bp_total b)
    | green => mkBallsPotted (bp_red b) (bp_yellow b) (bp_green b + 1)
               (bp_brown b) (bp_blue b) (bp_pink b) (bp_black b) (bp_total b)
    | brown => mkBallsPotted (bp_red b) (bp_yellow b) (bp_green b)
               (bp_brown b + 1) (bp_blue b) (bp_pink b) (bp_black b) (bp_total b)
    | blue => mkBallsPotted (bp_red b) (bp_yellow b) (bp_green b)
               (bp_brown b) (bp_blue b + 1) (bp_pink b) (bp_black b) (bp_total b)
    | pink => mkBallsPotted (bp_red b) (bp_yellow b) (bp_green b)
               (bp_brown b) (bp_blue b) (bp_pink b + 1) (bp_black b) (bp_total b)
    | black => mkBallsPotted (bp_red b) (bp_yellow b) (bp_green b)
               (bp_brown b) (bp_blue b) (bp_pink b) (bp_black b + 1) (bp_total b)
    | white => b
    end in
  mkBallsPotted (bp_red b') (bp_yellow b') (bp_green b') (bp_brown b')
    (bp_blue b') (bp_pink b') (bp_black b') (bp_total b' + 1).

(** [recordBallPotted(ballColor)] *)
Definition recordBallPotted (c : Colour) (s : t) : t :=
  let sh := currentShot s in
  let sh' := mkShot (ballsHit sh) (shotBallsPotted sh ++ [c]) (cushionsHit sh)
               (isValid sh) in
  let st := stats s in
  let bp' := countPotted c (ballsPotted st) in
  let points := ballValues c in
  let s1 :=
    if 0 <? points then
      let p1 := if currentPlayer s =? 1 then player1Score s + points
                else player1Score s in
      let p2 := if currentPlayer s =? 1 then player2Score s
                else player2Score s + points in
      let brk := currentBreak st + points in
      let hi := if highestBreak st <? brk then brk else highestBreak st in
      mk p1 p2 (currentPlayer s)
         (mkStats (totalShots st) (successfulShots st) (fouls st) hi brk bp')
         sh' (recentEvents s)
    else
      mk (player1Score s) (player2Score s) (currentPlayer s)
         (mkStats (totalShots st) (successfulShots st) (fouls st)
            (highestBreak st) (currentBreak st) bp')
         sh' (recentEvents s) in
  addEvent (PotEvent c points (currentPlayer s1)) s1.

(** [recordFoul(reason, penaltyPoints = 4)]; [None] is an omitted second
    argument. *)
Definition recordFoul (reason : string) (penaltyPoints : option Z) (s : t) : t :=
  let pp := match penaltyPoints with Some p => p | None => 4 end in
  let st := stats s in
  let sh := currentShot s in
  let st' := mkStats (totalShots st) (successfulShots st) (fouls st + 1)
               (highestBreak st) 0 (ballsPotted st) in
  let sh' := mkShot (ballsHit sh) (shotBallsPotted sh) (cushionsHit sh) false in
  let penalty := Z.max 4 pp in
  let opponent := if currentPlayer s =? 1 then 2 else 1 in
  let p1 := if opponent =? 1 then player1Score s + penalty else player1Score s in
  let p2 := if opponent =? 1 then player2Score s else player2Score s + penalty in
  let s1 := mk p1 p2 (currentPlayer s) st' sh' (recentEvents s) in
  let s2 := addEvent (FoulEvent reason (currentPlayer s1) penalty) s1 in
  switchPlayer s2.

(** [endShot()] *)
Definition endShot (s : t) : t :=
  let sh := currentShot s in
  let st := stats s in
  if Nat.ltb 0 (List.length (shotBallsPotted sh)) && isValid sh then
    mk (player1Score s) (player2Score s) (currentPlayer s)
       (mkStats (totalShots st) (successfulShots st + 1) (fouls st)
          (highestBreak st) (currentBreak st) (ballsPotted st))
       sh (recentEvents s)
  else if Nat.eqb (List.length (shotBallsPotted sh)) 0 then
    let s1 := switchPlayer s in
    let st1 := stats s1 in
    mk (player1Score s1) (player2Score s1) (currentPlayer s1)
       (mkStats (totalShots st1) (successfulShots st1) (fouls st1)
          (highestBreak st1) 0 (ballsPotted st1))
       (currentShot s1) (recentEvents s1)
  else s.

(** Score of player [p] (1 or 2). *)
Definition scoreOf (s : t) (p : Z) : Z :=
  if p =? 1 then player1Score s else player2Score s.
End ScoreManager.

(* ------------------------------------------------------------------ *)
(** ** Table (Table.js): the pockets *)

Module Table.
Record Pocket : Type := mkPocket { x : Q; y : Q; radius : Q }.

Record t : Type := mk { width : Q; height : Q; pockets : list Pocket }.

Definition pocketRadius : Q := 3.708.

(** [createPockets()] *)
Definition createPockets (w h : Q) : list Pocket :=
  [ mkPocket 0 0 pocketRadius;
    mkPocket w 0 pocketRadius;
    mkPocket 0 h pocketRadius;
    mkPocket w h pocketRadius;
    mkPocket (w / 2) 0 pocketRadius;
    mkPocket (w / 2) h pocketRadius ].

Definition constructor (w h : Q) : t := mk w h (createPockets w h).
End Table.

(** In-place mutation of the object stored at index [i] of a list. *)
Fixpoint updateAt {A : Type} (i : nat) (f : A -> A) (l : list A) : list A :=
  match l, i with
  | [], _ => []
  | a :: l', O => f a :: l'
  | a :: l', S i' => a :: updateAt i' f l'
  end.

(** In-place mutation of the first object that satisfies [p] (the object
    [find] returns). *)
Fixpoint updateFirst {A : Type} (p : A -> bool) (f : A -> A) (l : list A)
  : list A :=
  match l with
  | [] => []
  | a :: l' => if p a then f a :: l' else a :: updateFirst p f l'
  end.

(* ------------------------------------------------------------------ *)
(** ** Game (Game.js) *)

Module Game.
Record t : Type := mk {
  scale : Q;
  offsetX : Q;
  offsetY : Q;
  table : Table.t;
  ballManager : BallManager.t;
  scoreManager : ScoreManager.t;
  displayMode : Z;
  collisionReports : list string;
  ballsMoving : bool;
  isPlacingCueBall : bool;
  consecutiveColoredPotted : Z;
  lastPottedBall : option Colour
}.

Definition tableWidth : Q := 178.
Definition tableHeight : Q := 89.

Definition balls (g : t) : list Ball.t := BallManager.balls (ballManager g).

Definition setBallManager (g : t) (bm : BallManager.t) : t :=
  mk (scale g) (offsetX g) (offsetY g) (table g) bm (scoreManager g)
     (displayMode g) (collisionReports g) (ballsMoving g)
     (isPlacingCueBall g) (consecutiveColoredPotted g) (lastPottedBall g).

Definition setScoreManager (g : t) (sm : ScoreManager.t) : t :=
  mk (scale g) (offsetX g) (offsetY g) (table g) (ballManager g) sm
     (displayMode g) (collisionReports g) (ballsMoving g)
     (isPlacingCueBall g) (consecutiveColoredPotted g) (lastPottedBall g).

Definition setDisplayMode (g : t) (m : Z) : t :=
  mk (scale g) (offsetX g) (offsetY g) (table g) (ballManager g)
     (scoreManager g) m (collisionReports g) (ballsMoving g)
     (isPlacingCueBall g) (consecutiveColoredPotted g) (lastPottedBall g).

Definition unshiftReport (g : t) (report : string) : t :=
  mk (scale g) (offsetX g) (offsetY g) (table g) (ballManager g)
     (scoreManager g) (displayMode g) (report :: collisionReports g)
     (ballsMoving g) (isPlacingCueBall g) (consecutiveColoredPotted g)
     (lastPottedBall g).

Definition setBallsMoving (g : t) (m : bool) : t :=
  mk (scale g) (offsetX g) (offsetY g) (table g) (ballManager g)
     (scoreManager g) (displayMode g) (collisionReports g) m
     (isPlacingCueBall g) (consecutiveColoredPotted g) (lastPottedBall g).

Definition setIsPlacingCueBall (g : t) (p : bool) : t :=
  mk (scale g) (offsetX g) (offsetY g) (table g) (ballManager g)
     (scoreManager g) (displayMode g) (collisionReports g) (ballsMoving g)
     p (consecutiveColoredPotted g) (lastPottedBall g).

Definition setConsecutiveColoredPotted (g : t) (n : Z) : t :=
  mk (scale g) (offsetX g) (offsetY g) (table g) (ballManager g)
     (scoreManager g) (displayMode g) (collisionReports g) (ballsMoving g)
     (isPlacingCueBall g) n (lastPottedBall g).

Definition setLastPottedBall (g : t) (l : option Colour) : t :=
  mk (scale g) (offsetX g) (offsetY g) (table g) (ballManager g)
     (scoreManager g) (displayMode g) (collisionReports g) (ballsMoving g)
     (isPlacingCueBall g) (consecutiveColoredPotted g) l.

Definition setGeometry (g : t) (sc ox oy : Q) : t :=
  mk sc ox oy (table g) (ballManager g)
     (scoreManager g) (displayMode g) (collisionReports g) (ballsMoving g)
     (isPlacingCueBall g) (consecutiveColoredPotted g) (lastPottedBall g).

(** Mutation of the ball object at index [i] of [ballManager.balls]. *)
Definition updBall (i : nat) (f : Ball.t -> Ball.t) (g : t) : t :=
  setBallManager g
    (BallManager.setBalls (ballManager g) (updateAt i f (balls g))).

(** [initializeGame()] *)
Definition initializeGame (g : t) : t :=
  setIsPlacingCueBall
    (setBallManager g
       (BallManager.setupStartingPositions false (ballManager g)))
    true.

(** [new Game()]; [sc], [ox], [oy] are what [calculateScale] derives from
    the window size. *)
Definition constructor (sc ox oy : Q) : t :=
  initializeGame
    (mk sc ox oy (Table.constructor tableWidth tableHeight)
        (BallManager.constructor sc ox oy) ScoreManager.constructor
        1 [] false true 0 None).

(** [isValidCueBallPosition(x, y)] *)
Definition dRadius : Q := 14.5.
Definition baulkLine : Q := 44.5.
Definition dCenterX : Q := baulkLine.
Definition dCenterY : Q := 44.5.

Definition isValidCueBallPosition (g : t) (x y : Q) : bool :=
  if distLe dCenterX dCenterY x y dRadius && Qle_bool x baulkLine then
    BallManager.isValidPosition (ballManager g) x y
  else false.

(** [respotColoredBall(ball)]: the table of standard spots. *)
Definition spots (c : Colour) : option (Q * Q) :=
  match c with
  | yellow => Some (44.5, 55.625)
  | green => Some (44.5, 33.375)
  | brown => Some (44.5, 44.5)
  | blue => Some (89, 44.5)
  | pink => Some (141, 44.5)
  | black => Some (164, 44.5)
  | _ => None
  end.

Definition respotReport (c : Colour) : string :=
  (colorString c ++ " ball re-spotted")%string.

Definition respotColoredBall (i : nat) (g : t) : t :=
  match nth_error (balls g) i with
  | None => g
  | Some ball =>
      match spots (Ball.colorName ball) with
      | None => g
      | Some (sx, sy) =>
          if BallManager.isValidPosition (ballManager g) sx sy then
            unshiftReport
              (updBall i
                 (fun b =>
                    Ball.setBody (Ball.setPotted b false)
                      (Body.circle (offsetX g + sx * scale g)
                         (offsetY g + sy * scale g) (Ball.id b) false))
                 g)
              (respotReport (Ball.colorName ball))
          else g
      end
  end.

Definition recordFoul (reason : string) (g : t) : t :=
  setScoreManager g (ScoreManager.recordFoul reason None (scoreManager g)).

(** The consecutive-colour tracking of [handleBallPotted], entered when
    the potted ball is neither red nor white:
    [if (this.lastPottedBall && lastPottedBall.colorName !== 'red' && ...)
       { counter++; if (counter >= 2) recordFoul(...) } else counter = 1]. *)
Definition trackConsecutiveColoured (g : t) : t :=
  match lastPottedBall g with
  | Some l =>
      if isColoured l then
        let g' :=
          setConsecutiveColoredPotted g (consecutiveColoredPotted g + 1)%Z in
        if (2 <=? consecutiveColoredPotted g')%Z then
          recordFoul "Two consecutive colored balls potted" g'
        else g'
      else setConsecutiveColoredPotted g 1%Z
  | None => setConsecutiveColoredPotted g 1%Z
  end.

(** [handleBallPotted(ball)], the ball being the object at index [i]. *)
Definition handleBallPotted (i : nat) (g : t) : t :=
  match nth_error (balls g) i with
  | None => g
  | Some ball =>
      let c := Ball.colorName ball in
      let g1 :=
        updBall i
          (fun b => Ball.setBody (Ball.setPotted b true)
                      (Body.remove (Ball.body b))) g in
      let g2 :=
        if negb (Colour_eqb c white) then
          setScoreManager g1
            (ScoreManager.recordBallPotted c (scoreManager g1))
        else g1 in
      let g3 :=
        if isColoured c then
          respotColoredBall i (trackConsecutiveColoured g2)
        else if Colour_eqb c red then setConsecutiveColoredPotted g2 0%Z
        else recordFoul "Cue ball potted" (setIsPlacingCueBall g2 true) in
      setLastPottedBall g3 (Some c)
  end.

(** [checkPottedBalls()] *)
Definition ballX (g : t) (b : Ball.t) : Q :=
  (vx (Body.position (Ball.body b)) - offsetX g) / scale g.
Definition ballY (g : t) (b : Ball.t) : Q :=
  (vy (Body.position (Ball.body b)) - offsetY g) / scale g.

Definition attractionStrength : Q := 0.0008.

(** The body of the first [if] of the pocket loop. *)
Definition attract (p : Table.Pocket) (i : nat) (g : t) : t :=
  updBall i
    (fun b =>
       let bd := Ball.body b in
       let pocketX := offsetX g + Table.x p * scale g in
       let pocketY := offsetY g + Table.y p * scale g in
       let f := mkVector ((pocketX - vx (Body.position bd)) * attractionStrength)
                         ((pocketY - vy (Body.position bd)) * attractionStrength) in
       let bd1 := Body.applyForce bd f in
       Ball.setBody b
         (Body.setVelocity bd1
            (mkVector (vx (Body.velocity bd1) * 0.88)
                      (vy (Body.velocity bd1) * 0.88))))
    g.

Definition inAttractionZone (bx by_ : Q) (p : Table.Pocket) : bool :=
  distLt bx by_ (Table.x p) (Table.y p) (Table.radius p * 2.2)
  && distGt bx by_ (Table.x p) (Table.y p) (Table.radius p * 0.3).

Definition inCaptureZone (bx by_ : Q) (p : Table.Pocket) : bool :=
  distLt bx by_ (Table.x p) (Table.y p) (Table.radius p * 0.85).

(** [for (let pocket of pockets) { ... }] for the ball at index [i], whose
    game-unit position [bx], [by_] was read before the loop. *)
Fixpoint pocketLoop (bx by_ : Q) (i : nat) (ps : list Table.Pocket) (g : t) : t :=
  match ps with
  | [] => g
  | p :: rest =>
      let g1 := if inAttractionZone bx by_ p then attract p i g else g in
      if inCaptureZone bx by_ p then handleBallPotted i g1
      else pocketLoop bx by_ i rest g1
  end.

(** One iteration of [for (let ball of balls)]. *)
Definition checkBall (g : t) (i : nat) : t :=
  match nth_error (balls g) i with
  | None => g
  | Some ball =>
      if Ball.isPotted ball then g
      else pocketLoop (ballX g ball) (ballY g ball) i
             (Table.pockets (table g)) g
  end.

Definition checkPottedBalls (g : t) : t :=
  fold_left checkBall (seq 0 (List.length (balls g))) g.

(** [checkBallsMoving()]: some active ball is faster than 0.1. *)
Definition checkBallsMoving (g : t) : bool :=
  existsb
    (fun ball =>
       negb (Ball.isPotted ball)
       && distGt 0 0 (vx (Body.velocity (Ball.body ball)))
                     (vy (Body.velocity (Ball.body ball))) 0.1)
    (balls g).

(** [checkEscapedBalls()] *)
Definition escapeMargin : Q := 50.

Definition resetIfEscaped (g : t) (ball : Ball.t) : Ball.t :=
  if Ball.isPotted ball then ball
  else
    let pos := Body.position (Ball.body ball) in
    let tableLeft := offsetX g - escapeMargin in
    let tableRight := offsetX g + tableWidth * scale g + escapeMargin in
    let tableTop := offsetY g - escapeMargin in
    let tableBottom := offsetY g + tableHeight * scale g + escapeMargin in
    if Qltb (vx pos) tableLeft || Qltb tableRight (vx pos)
       || Qltb (vy pos) tableTop || Qltb tableBottom (vy pos)
    then
      Ball.setBody ball
        (Body.setVelocity
           (Body.setPosition (Ball.body ball)
              (mkVector (offsetX g + tableWidth * scale g / 2)
                        (offsetY g + tableHeight * scale g / 2)))
           (mkVector 0 0))
    else ball.

Definition checkEscapedBalls (g : t) : t :=
  setBallManager g
    (BallManager.setBalls (ballManager g) (map (resetIfEscaped g) (balls g))).

(** [update()] without the motion of the bodies ([ballManager.update],
    [cue.update] and the Matter.js step belong to the physics). *)
Definition update (g : t) : t :=
  let wasMoving := ballsMoving g in
  let g1 := setBallsMoving g (checkBallsMoving g) in
  let g2 :=
    if wasMoving && negb (ballsMoving g1) then
      setScoreManager g1 (ScoreManager.endShot (scoreManager g1))
    else g1 in
  checkEscapedBalls (checkPottedBalls g2).

(** [handleKeyPress(key)]; [fuel] and [rnd] serve the random layouts. *)
Definition resetForLayout (g : t) (mode : Z) (bm : BallManager.t) : t :=
  setLastPottedBall
    (setConsecutiveColoredPotted
       (setIsPlacingCueBall (setBallManager (setDisplayMode g mode) bm) true)
       0%Z)
    None.

Definition handleKeyPress (key : string) (fuel : nat) (rnd : nat -> Q * Q)
           (g : t) : option t :=
  if String.eqb key "1" then
    Some (resetForLayout g 1%Z
            (BallManager.setupStartingPositions false (ballManager g)))
  else if String.eqb key "2" then
    match BallManager.setupRandomReds false fuel rnd (ballManager g) with
    | Some bm => Some (resetForLayout g 2%Z bm)
    | None => None
    end
  else if String.eqb key "3" then
    Some (resetForLayout g 3%Z
            (BallManager.setupRandomAll false rnd (ballManager g)))
  else Some g.

(** [handleMousePress(x, y)]: the placement branch; the other branch only
    starts the aiming of the cue stick. *)
Definition handleMousePress (x y : Q) (g : t) : t :=
  if isPlacingCueBall g then
    let gameX := (x - offsetX g) / scale g in
    let gameY := (y - offsetY g) / scale g in
    if isValidCueBallPosition g gameX gameY then
      unshiftReport
        (setIsPlacingCueBall
           (setBallManager g
              (BallManager.addCueBall gameX gameY true (ballManager g)))
           false)
        "Cue ball placed successfully"
    else g
  else g.

(** [handleMouseRelease()]; [shotTaken] is the result of [cue.shoot]. *)
Definition handleMouseRelease (shotTaken : bool) (g : t) : t :=
  if negb (isPlacingCueBall g) then
    match BallManager.getCueBall (ballManager g) with
    | Some _ =>
        if shotTaken then
          setScoreManager g (ScoreManager.startNewShot (scoreManager g))
        else g
    | None => g
    end
  else g.

(** [handleCollisions(pairs)]; a pair is given by the labels of its two
    bodies. *)
Definition findBall (g : t) (lbl : string) : option Ball.t :=
  find (fun b => String.eqb (Ball.id b) lbl) (balls g).

Definition truthy (lbl : string) : bool := negb (String.eqb lbl "").

Definition handlePair (g : t) (pair : string * string) : t :=
  let '(labelA, labelB) := pair in
  if truthy labelA && truthy labelB
     && negb (String.eqb labelA "ground") && negb (String.eqb labelB "ground")
  then
    match findBall g labelA, findBall g labelB with
    | Some ballA, Some ballB =>
        if String.eqb (Ball.id ballA) "cue" || String.eqb (Ball.id ballB) "cue"
        then
          if String.eqb (Ball.id ballA) "cue" then
            setScoreManager g
              (ScoreManager.recordBallHit (Ball.colorName ballB) (scoreManager g))
          else
            setScoreManager g
              (ScoreManager.recordBallHit (Ball.colorName ballA) (scoreManager g))
        else g
    | _, _ => g
    end
  else if (String.eqb labelA "cue" && String.eqb labelB "cushion")
          || (String.eqb labelA "cushion" && String.eqb labelB "cue")
  then setScoreManager g (ScoreManager.recordCushionHit (scoreManager g))
  else g.

Definition handleCollisions (pairs : list (string * string)) (g : t) : t :=
  fold_left handlePair pairs g.

(** [updateTablePosition()]; [sc], [ox], [oy] are the new results of
    [calculateScale]. *)
Definition shiftBody (dx dy : Q) (ball : Ball.t) : Ball.t :=
  if Ball.isPotted ball then ball
  else
    let bd := Ball.body ball in
    Ball.setBody ball
      (Body.setPosition bd
         (mkVector (vx (Body.position bd) + dx) (vy (Body.position bd) + dy))).

Definition updateCueBallPosition (g : t) : t :=
  match BallManager.getCueBall (ballManager g) with
  | Some _ =>
      let newX := baulkLine * scale g in
      let newY := (tableHeight / 2) * scale g in
      setBallManager g
        (BallManager.setBalls (ballManager g)
           (updateFirst (fun b => String.eqb (Ball.id b) "cue")
              (fun b =>
                 Ball.setBody b
                   (Body.setPosition (Ball.body b)
                      (mkVector (offsetX g + newX) (offsetY g + newY))))
              (balls g)))
  | None => g
  end.

Definition updateTablePosition (sc ox oy : Q) (g : t) : t :=
  let deltaX := ox - offsetX g in
  let deltaY := oy - offsetY g in
  let bm := ballManager g in
  let bm' :=
    BallManager.mk (BallManager.scale bm) ox oy
      (map (shiftBody deltaX deltaY) (BallManager.balls bm))
      (BallManager.isSettingUp bm) in
  let g1 := setBallManager (setGeometry g sc ox oy) bm' in
  if isPlacingCueBall g1 then updateCueBallPosition g1 else g1.

(** The [setTimeout] callback of the layouts. *)
Definition settle (g : t) : t :=
  setBallManager g (BallManager.settle (ballManager g)).

(** [calculateScale()]: scale and offsets for a window of the given size,
    [Math.min(scaleX, scaleY, 5)] being the least of the three. *)
Definition calculateScale (windowWidth windowHeight : Q) : Q * Q * Q :=
  let targetWidth := windowWidth * 0.6 in
  let targetHeight := windowHeight * 0.6 in
  let scaleX := targetWidth / tableWidth in
  let scaleY := targetHeight / tableHeight in
  let sc := Qmin (Qmin scaleX scaleY) 5 in
  let tablePixelWidth := tableWidth * sc in
  let tablePixelHeight := tableHeight * sc in
  (sc, (windowWidth - tablePixelWidth) / 2,
       (windowHeight - tablePixelHeight) / 2).
End Game.

(* ------------------------------------------------------------------ *)
(** ** Reachable game states *)

(** What the physics step may change of a ball: the motion of its body. *)
Definition moved (b b' : Ball.t) : Prop :=
  Ball.id b' = Ball.id b
  /\ Ball.colorName b' = Ball.colorName b
  /\ Ball.isPotted b' = Ball.isPotted b
  /\ Body.inWorld (Ball.body b') = Body.inWorld (Ball.body b).

Inductive step : Game.t -> Game.t -> Prop :=
  | step_physics g bs' :
      Forall2 moved (Game.balls g) bs' ->
      step g (Game.setBallManager g
                (BallManager.setBalls (Game.ballManager g) bs'))
  | step_update g : step g (Game.update g)
  | step_key g key fuel rnd g' :
      Game.handleKeyPress key fuel rnd g = Some g' -> step g g'
  | step_press g x y : step g (Game.handleMousePress x y g)
  | step_release g shotTaken : step g (Game.handleMouseRelease shotTaken g)
  | step_collisions g pairs : step g (Game.handleCollisions pairs g)
  | step_resize g sc ox oy : step g (Game.updateTablePosition sc ox oy g)
  | step_settle g : step g (Game.settle g).

Inductive reachable : Game.t -> Prop :=
  | reach_init sc ox oy : reachable (Game.constructor sc ox oy)
  | reach_step g g' : reachable g -> step g g' -> reachable g'.

(* ================================================================== *)
(** * Properties *)

(** ** The distance tests decide the comparisons of the real distance *)

Section DistanceTests.
Open Scope R_scope.

Lemma distSq_nonneg (x1 y1 x2 y2 : Q) : 0 <= Q2R (distSq x1 y1 x2 y2).
Proof.
  unfold distSq. rewrite Q2R_plus, !Q2R_mult, !Q2R_minus.
  apply Rplus_le_le_0_compat; apply Rle_0_sqr.
Qed.

Lemma sqrt_lt_iff (a m : R) : 0 <= a -> (sqrt a < m <-> 0 < m /\ a < m * m).
Proof.
  intro Ha. pose proof (sqrt_pos a) as Hp. pose proof (sqrt_sqrt a Ha) as Hs.
  split.
  - intro H. split; [lra|]. rewrite <- Hs. nra.
  - intros [Hm H]. destruct (Rlt_le_dec (sqrt a) m) as [|Hge]; [assumption|].
    exfalso. rewrite <- Hs in H. nra.
Qed.

Lemma sqrt_le_iff (a m : R) : 0 <= a -> (sqrt a <= m <-> 0 <= m /\ a <= m * m).
Proof.
  intro Ha. pose proof (sqrt_pos a) as Hp. pose proof (sqrt_sqrt a Ha) as Hs.
  split.
  - intro H. split; [lra|]. rewrite <- Hs. nra.
  - intros [Hm H]. destruct (Rle_lt_dec (sqrt a) m) as [|Hgt]; [assumption|].
    exfalso. rewrite <- Hs in H. nra.
Qed.

Lemma Qltb_Rlt (a b : Q) : Qltb a b = true <-> Q2R a < Q2R b.
Proof.
  rewrite Qltb_lt. split; [apply Qlt_Rlt | apply Rlt_Qlt].
Qed.

Lemma Qleb_Rle (a b : Q) : Qle_bool a b = true <-> Q2R a <= Q2R b.
Proof.
  rewrite Qle_bool_iff. split; [apply Qle_Rle | apply Rle_Qle].
Qed.

Lemma distLt_spec (x1 y1 x2 y2 m : Q) :
  distLt x1 y1 x2 y2 m = true <-> dist x1 y1 x2 y2 < Q2R m.
Proof.
  unfold distLt, dist. rewrite andb_true_iff, !Qltb_Rlt, Q2R_mult.
  rewrite RMicromega.Q2R_0.
  rewrite (sqrt_lt_iff _ _ (distSq_nonneg x1 y1 x2 y2)). tauto.
Qed.

Lemma distLe_spec (x1 y1 x2 y2 m : Q) :
  distLe x1 y1 x2 y2 m = true <-> dist x1 y1 x2 y2 <= Q2R m.
Proof.
  unfold distLe, dist. rewrite andb_true_iff, !Qleb_Rle, Q2R_mult.
  rewrite RMicromega.Q2R_0.
  rewrite (sqrt_le_iff _ _ (distSq_nonneg x1 y1 x2 y2)). tauto.
Qed.

Lemma distGt_spec (x1 y1 x2 y2 m : Q) :
  distGt x1 y1 x2 y2 m = true <-> dist x1 y1 x2 y2 > Q2R m.
Proof.
  unfold distGt, dist. rewrite orb_true_iff, !Qltb_Rlt, Q2R_mult.
  rewrite RMicromega.Q2R_0.
  pose proof (sqrt_le_iff _ (Q2R m) (distSq_nonneg x1 y1 x2 y2)) as H.
  split.
  - intros [Hm | Hsq].
    + pose proof (sqrt_pos (Q2R (distSq x1 y1 x2 y2))). lra.
    + destruct (Rle_lt_dec (sqrt (Q2R (distSq x1 y1 x2 y2))) (Q2R m)) as [Hle|]; [|lra].
      apply H in Hle. lra.
  - intro Hgt. destruct (Rlt_le_dec (Q2R m) 0) as [|Hm]; [left; assumption|].
    right. destruct (Rlt_le_dec (Q2R m * Q2R m) (Q2R (distSq x1 y1 x2 y2))) as [|Hle];
      [assumption|].
    exfalso. assert (Hs : sqrt (Q2R (distSq x1 y1 x2 y2)) <= Q2R m) by (apply H; lra).
    lra.
Qed.

Lemma distLt_false (x1 y1 x2 y2 m : Q) :
  distLt x1 y1 x2 y2 m = false <-> Q2R m <= dist x1 y1 x2 y2.
Proof.
  rewrite <- not_true_iff_false, distLt_spec. lra.
Qed.
End DistanceTests.

(* ------------------------------------------------------------------ *)
(** ** ScoreManager: fouls and the end of a shot *)

Section ScoreRules.
Import ScoreManager.
Open Scope Z_scope.

(** The opponent of player [p], for [p] in {1, 2}. *)
Definition opponent (p : Z) : Z := 3 - p.

Definition validPlayer (s : ScoreManager.t) : Prop :=
  currentPlayer s = 1 \/ currentPlayer s = 2.

Lemma addEvent_fields (e : Event) (s : ScoreManager.t) :
  player1Score (addEvent e s) = player1Score s
  /\ player2Score (addEvent e s) = player2Score s
  /\ currentPlayer (addEvent e s) = currentPlayer s
  /\ stats (addEvent e s) = stats s
  /\ currentShot (addEvent e s) = currentShot s.
Proof. unfold addEvent; cbn. repeat split. Qed.

(** The newest entry is never the one [addEvent] drops. *)
Lemma addEvent_head (e : Event) (s : ScoreManager.t) :
  exists rest, recentEvents (addEvent e s) = e :: rest.
Proof.
  unfold addEvent; cbn [recentEvents].
  destruct (recentEvents s) as [|e0 l].
  - exists []. reflexivity.
  - match goal with |- context [if ?c then _ else _] => destruct c end.
    + eexists. cbn [removelast]. reflexivity.
    + eexists. reflexivity.
Qed.

(** Nor is the second newest, the cap being 5. *)
Lemma addEvent_second (e e1 : Event) (s : ScoreManager.t) (l : list Event) :
  recentEvents s = e1 :: l ->
  exists rest, recentEvents (addEvent e s) = e :: e1 :: rest.
Proof.
  intro H. unfold addEvent; cbn [recentEvents]. rewrite H.
  destruct l as [|e2 l].
  - exists []. reflexivity.
  - match goal with |- context [if ?c then _ else _] => destruct c end.
    + eexists. cbn [removelast]. reflexivity.
    + eexists. reflexivity.
Qed.

Lemma switchPlayer_player (s : ScoreManager.t) :
  validPlayer s -> currentPlayer (switchPlayer s) = opponent (currentPlayer s).
Proof.
  unfold switchPlayer, opponent, addEvent; cbn [currentPlayer].
  intros [H | H]; rewrite H; reflexivity.
Qed.

Lemma switchPlayer_valid (s : ScoreManager.t) : validPlayer (switchPlayer s).
Proof.
  unfold validPlayer, switchPlayer, addEvent; cbn [currentPlayer].
  destruct (currentPlayer s =? 1); auto.
Qed.

Lemma switchPlayer_fields (s : ScoreManager.t) :
  player1Score (switchPlayer s) = player1Score s
  /\ player2Score (switchPlayer s) = player2Score s
  /\ stats (switchPlayer s) = stats s
  /\ currentShot (switchPlayer s) = currentShot s.
Proof. unfold switchPlayer, addEvent; cbn. repeat split. Qed.

(** What [recordFoul] does, field by field. *)
Lemma recordFoul_effect (reason : string) (pp : option Z) (s : ScoreManager.t) :
  validPlayer s ->
  let cur := currentPlayer s in
  let pen := Z.max 4 (match pp with Some p => p | None => 4 end) in
  let s' := recordFoul reason pp s in
  scoreOf s' (opponent cur) = scoreOf s (opponent cur) + pen
  /\ scoreOf s' cur = scoreOf s cur
  /\ currentPlayer s' = opponent cur
  /\ currentBreak (stats s') = 0
  /\ fouls (stats s') = fouls (stats s) + 1
  /\ highestBreak (stats s') = highestBreak (stats s)
  /\ ballsPotted (stats s') = ballsPotted (stats s)
  /\ isValid (currentShot s') = false
  /\ shotBallsPotted (currentShot s') = shotBallsPotted (currentShot s)
  /\ exists rest,
       recentEvents s'
       = TurnChangeEvent (opponent cur) :: FoulEvent reason cur pen :: rest.
Proof.
  intros Hv cur pen s'.
  assert (Hev : exists rest,
             recentEvents s'
             = TurnChangeEvent (opponent cur) :: FoulEvent reason cur pen :: rest).
  { subst s'. unfold recordFoul.
    set (s1 := ScoreManager.mk _ _ _ _ _ _).
    destruct (addEvent_head (FoulEvent reason (currentPlayer s1) pen) s1)
      as [r Hr].
    fold pen. unfold switchPlayer at 1.
    set (s2 := addEvent (FoulEvent reason (currentPlayer s1) pen) s1) in *.
    set (s3 := ScoreManager.mk _ _ _ _ _ _).
    assert (H3 : recentEvents s3 = FoulEvent reason cur pen :: r) by exact Hr.
    destruct (addEvent_second
                (TurnChangeEvent (if currentPlayer s2 =? 1 then 2 else 1))
                _ s3 _ H3) as [rest Hrest].
    exists rest. rewrite Hrest. f_equal. f_equal.
    unfold opponent. subst s2 s1 cur. unfold addEvent; cbn [currentPlayer].
    destruct Hv as [H | H]; rewrite H; reflexivity. }
  subst s' cur pen. unfold recordFoul, switchPlayer, addEvent, scoreOf, opponent in *.
  cbn [player1Score player2Score currentPlayer stats currentShot
       currentBreak fouls highestBreak ballsPotted isValid shotBallsPotted] in *.
  destruct Hv as [H | H]; rewrite H in *; cbn;
    repeat split; try reflexivity; try lia; exact Hev.
Qed.

(** C3. recordFoul(reason, penalty) adds exactly max(4, penalty) to the
    score of the opponent of the player who is current when it is called
    and nothing to that player, resets the current break to 0, marks the
    current shot invalid, switches the current player once, and puts a
    foul event into the log (directly below the turn-change entry that the
    switch adds). *)
Theorem recordFoul_spec (reason : string) (penalty : Z) (s : ScoreManager.t) :
  validPlayer s ->
  scoreOf (recordFoul reason (Some penalty) s) (opponent (currentPlayer s))
    = scoreOf s (opponent (currentPlayer s)) + Z.max 4 penalty
  /\ scoreOf (recordFoul reason (Some penalty) s) (currentPlayer s)
    = scoreOf s (currentPlayer s)
  /\ currentBreak (stats (recordFoul reason (Some penalty) s)) = 0
  /\ isValid (currentShot (recordFoul reason (Some penalty) s)) = false
  /\ currentPlayer (recordFoul reason (Some penalty) s)
    = opponent (currentPlayer s)
  /\ exists rest,
       recentEvents (recordFoul reason (Some penalty) s)
       = TurnChangeEvent (opponent (currentPlayer s))
         :: FoulEvent reason (currentPlayer s) (Z.max 4 penalty) :: rest.
Proof.
  intro Hv.
  destruct (recordFoul_effect reason (Some penalty) s Hv)
    as (H1 & H2 & H3 & H4 & _ & _ & _ & H5 & _ & H6).
  repeat split; assumption.
Qed.

Lemma recordFoul_spec_witness :
  validPlayer constructor
  /\ scoreOf (recordFoul "push shot" (Some 7) constructor) 2 = 7
  /\ currentPlayer (recordFoul "push shot" (Some 7) constructor) = 2.
Proof.
  assert (Hv : validPlayer constructor) by (left; reflexivity).
  split; [exact Hv|].
  destruct (recordFoul_spec "push shot" 7 constructor Hv)
    as (H1 & _ & _ & _ & H5 & _).
  split; [exact H1 | exact H5].
Defined.

(** C4. endShot: with no ball potted during the shot the current player
    is switched and the current break reset to 0; with at least one ball
    potted and the shot still valid the successful-shot counter grows by
    one and the current player stays, whatever the number of potted
    balls. *)
Theorem endShot_spec (s : ScoreManager.t) :
  validPlayer s ->
  (shotBallsPotted (currentShot s) = [] ->
     currentPlayer (endShot s) = opponent (currentPlayer s)
     /\ currentBreak (stats (endShot s)) = 0)
  /\ (shotBallsPotted (currentShot s) <> [] ->
      isValid (currentShot s) = true ->
      successfulShots (stats (endShot s)) = successfulShots (stats s) + 1
      /\ currentPlayer (endShot s) = currentPlayer s).
Proof.
  intro Hv. split.
  - intro He. unfold endShot. rewrite He. cbn [List.length Nat.ltb Nat.leb andb Nat.eqb].
    cbn [currentPlayer stats currentBreak]. split; [|reflexivity].
    apply switchPlayer_player; assumption.
  - intros Hne Hval. unfold endShot.
    destruct (shotBallsPotted (currentShot s)) as [|c l]; [congruence|].
    rewrite Hval. cbn. split; reflexivity.
Qed.

Lemma endShot_spec_witness :
  validPlayer constructor
  /\ currentPlayer (endShot constructor) = 2
  /\ successfulShots (stats (endShot (recordBallPotted red constructor))) = 1.
Proof.
  assert (Hv : validPlayer constructor) by (left; reflexivity).
  assert (Hv' : validPlayer (recordBallPotted red constructor))
    by (left; reflexivity).
  split; [exact Hv|]. split.
  - exact (proj1 (proj1 (endShot_spec constructor Hv) eq_refl)).
  - refine (proj1 (proj2 (endShot_spec _ Hv') _ eq_refl)). discriminate.
Defined.
End ScoreRules.

(* ------------------------------------------------------------------ *)
(** ** Lists mutated at an index *)

Section UpdateAt.
Context {A : Type}.

Lemma updateAt_length (i : nat) (f : A -> A) (l : list A) :
  List.length (updateAt i f l) = List.length l.
Proof.
  revert i; induction l as [|a l IH]; intros [|i]; cbn; auto.
Qed.

Lemma nth_error_updateAt_same (i : nat) (f : A -> A) (l : list A) (a : A) :
  nth_error l i = Some a -> nth_error (updateAt i f l) i = Some (f a).
Proof.
  revert i; induction l as [|a0 l IH]; intros [|i]; cbn; try discriminate.
  - intros [= ->]. reflexivity.
  - apply IH.
Qed.

Lemma nth_error_updateAt_other (i j : nat) (f : A -> A) (l : list A) :
  i <> j -> nth_error (updateAt i f l) j = nth_error l j.
Proof.
  revert i j; induction l as [|a0 l IH]; intros [|i] [|j] Hij; cbn;
    try reflexivity; try congruence.
  apply IH. congruence.
Qed.

Lemma map_updateAt {B : Type} (h : A -> B) (i : nat) (f : A -> A) (l : list A) :
  (forall a, h (f a) = h a) -> map h (updateAt i f l) = map h l.
Proof.
  intro Hf. revert i; induction l as [|a l IH]; intros [|i]; cbn;
    rewrite ?Hf, ?IH; reflexivity.
Qed.

Lemma map_updateFirst {B : Type} (h : A -> B) (p : A -> bool) (f : A -> A)
      (l : list A) :
  (forall a, h (f a) = h a) -> map h (updateFirst p f l) = map h l.
Proof.
  intro Hf. induction l as [|a l IH]; cbn; [reflexivity|].
  destruct (p a); cbn; rewrite ?Hf, ?IH; reflexivity.
Qed.
End UpdateAt.

(* ------------------------------------------------------------------ *)
(** ** Potting a ball: the rules *)

Section PotRules.
Import ScoreManager.
Open Scope Z_scope.

(** The facts about the rule state that hold whenever [handleBallPotted]
    runs: the current player is 1 or 2, and while the last potted ball is a
    colour the consecutive-colour counter is at least 1. *)
Definition rulesInv (g : Game.t) : Prop :=
  validPlayer (Game.scoreManager g)
  /\ forall l, Game.lastPottedBall g = Some l -> isColoured l = true ->
               1 <= Game.consecutiveColoredPotted g.

(** [ball.isPotted = true; World.remove(world, ball.body)] *)
Definition pot (b : Ball.t) : Ball.t :=
  Ball.setBody (Ball.setPotted b true) (Body.remove (Ball.body b)).

Lemma recordBallPotted_effect (c : Colour) (s : ScoreManager.t) :
  validPlayer s ->
  scoreOf (recordBallPotted c s) (currentPlayer s)
    = scoreOf s (currentPlayer s) + ballValues c
  /\ scoreOf (recordBallPotted c s) (opponent (currentPlayer s))
    = scoreOf s (opponent (currentPlayer s))
  /\ currentPlayer (recordBallPotted c s) = currentPlayer s
  /\ fouls (stats (recordBallPotted c s)) = fouls (stats s).
Proof.
  intros Hv. unfold recordBallPotted, addEvent, scoreOf, opponent.
  destruct Hv as [H | H]; rewrite H; destruct c; cbn; rewrite ?H; cbn;
    repeat split; lia.
Qed.

Lemma recordBallPotted_valid (c : Colour) (s : ScoreManager.t) :
  validPlayer s -> validPlayer (recordBallPotted c s).
Proof.
  intro Hv. unfold validPlayer.
  rewrite (proj1 (proj2 (proj2 (recordBallPotted_effect c s Hv)))). exact Hv.
Qed.

Lemma recordFoul_valid (reason : string) (pp : option Z) (s : ScoreManager.t) :
  validPlayer (recordFoul reason pp s).
Proof. unfold recordFoul. apply switchPlayer_valid. Qed.

Lemma respotColoredBall_rules (i : nat) (g : Game.t) :
  Game.scoreManager (Game.respotColoredBall i g) = Game.scoreManager g
  /\ Game.consecutiveColoredPotted (Game.respotColoredBall i g)
     = Game.consecutiveColoredPotted g
  /\ Game.lastPottedBall (Game.respotColoredBall i g) = Game.lastPottedBall g
  /\ Game.isPlacingCueBall (Game.respotColoredBall i g)
     = Game.isPlacingCueBall g.
Proof.
  unfold Game.respotColoredBall.
  destruct (nth_error (Game.balls g) i) as [ball|]; [|auto].
  destruct (Game.spots (Ball.colorName ball)) as [[sx sy]|]; [|auto].
  destruct (BallManager.isValidPosition (Game.ballManager g) sx sy); auto.
Qed.

(** [handleBallPotted] for the cue ball. *)
Lemma handleBallPotted_white (i : nat) (g : Game.t) (ball : Ball.t) :
  nth_error (Game.balls g) i = Some ball ->
  Ball.colorName ball = white ->
  Game.handleBallPotted i g
  = Game.setLastPottedBall
      (Game.recordFoul "Cue ball potted"
         (Game.setIsPlacingCueBall (Game.updBall i pot g) true))
      (Some white).
Proof.
  intros Hb Hc. unfold Game.handleBallPotted. rewrite Hb, Hc. reflexivity.
Qed.

(** [handleBallPotted] for a colour that follows a colour. *)
Lemma handleBallPotted_second_colour (i : nat) (g : Game.t) (ball : Ball.t)
      (l : Colour) :
  nth_error (Game.balls g) i = Some ball ->
  isColoured (Ball.colorName ball) = true ->
  Game.lastPottedBall g = Some l ->
  isColoured l = true ->
  2 <= Game.consecutiveColoredPotted g + 1 ->
  Game.handleBallPotted i g
  = Game.setLastPottedBall
      (Game.respotColoredBall i
         (Game.recordFoul "Two consecutive colored balls potted"
            (Game.setConsecutiveColoredPotted
               (Game.setScoreManager (Game.updBall i pot g)
                  (recordBallPotted (Ball.colorName ball)
                     (Game.scoreManager g)))
               (Game.consecutiveColoredPotted g + 1))))
      (Some (Ball.colorName ball)).
Proof.
  intros Hb Hc Hl Hlc Hn. unfold Game.handleBallPotted. rewrite Hb.
  assert (Hw : negb (Colour_eqb (Ball.colorName ball) white) = true)
    by (destruct (Ball.colorName ball); cbn in *; congruence).
  rewrite Hw, Hc. unfold Game.trackConsecutiveColoured.
  change (Game.lastPottedBall (Game.setScoreManager (Game.updBall i _ g) _))
    with (Game.lastPottedBall g).
  rewrite Hl, Hlc.
  change (Game.consecutiveColoredPotted
            (Game.setConsecutiveColoredPotted _ ?n)) with n.
  change (Game.consecutiveColoredPotted
            (Game.setScoreManager (Game.updBall i _ g) _))
    with (Game.consecutiveColoredPotted g).
  apply Z.leb_le in Hn. rewrite Hn. reflexivity.
Qed.

(** C6. Potting the cue ball records a foul: the opponent receives the
    minimum penalty of 4 points, the player who potted it receives
    nothing and no pot is counted for the shot, the current player is
    switched, and the cue-ball-placement flag is raised. *)
Theorem cue_ball_potted_is_foul (i : nat) (g : Game.t) (ball : Ball.t) :
  nth_error (Game.balls g) i = Some ball ->
  Ball.colorName ball = white ->
  validPlayer (Game.scoreManager g) ->
  scoreOf (Game.scoreManager (Game.handleBallPotted i g))
          (opponent (currentPlayer (Game.scoreManager g)))
    = scoreOf (Game.scoreManager g)
              (opponent (currentPlayer (Game.scoreManager g))) + 4
  /\ scoreOf (Game.scoreManager (Game.handleBallPotted i g))
             (currentPlayer (Game.scoreManager g))
    = scoreOf (Game.scoreManager g) (currentPlayer (Game.scoreManager g))
  /\ currentPlayer (Game.scoreManager (Game.handleBallPotted i g))
    = opponent (currentPlayer (Game.scoreManager g))
  /\ fouls (stats (Game.scoreManager (Game.handleBallPotted i g)))
    = fouls (stats (Game.scoreManager g)) + 1
  /\ ballsPotted (stats (Game.scoreManager (Game.handleBallPotted i g)))
    = ballsPotted (stats (Game.scoreManager g))
  /\ shotBallsPotted (currentShot (Game.scoreManager (Game.handleBallPotted i g)))
    = shotBallsPotted (currentShot (Game.scoreManager g))
  /\ Game.isPlacingCueBall (Game.handleBallPotted i g) = true
  /\ nth_error (Game.balls (Game.handleBallPotted i g)) i = Some (pot ball)
  /\ exists rest,
       recentEvents (Game.scoreManager (Game.handleBallPotted i g))
       = TurnChangeEvent (opponent (currentPlayer (Game.scoreManager g)))
         :: FoulEvent "Cue ball potted"
              (currentPlayer (Game.scoreManager g)) 4 :: rest.
Proof.
  intros Hb Hc Hv.
  rewrite (handleBallPotted_white i g ball Hb Hc).
  cbn [Game.scoreManager Game.setLastPottedBall Game.recordFoul
       Game.setScoreManager Game.setIsPlacingCueBall Game.updBall
       Game.setBallManager Game.isPlacingCueBall Game.balls
       Game.ballManager BallManager.balls BallManager.setBalls].
  destruct (recordFoul_effect "Cue ball potted" None (Game.scoreManager g) Hv)
    as (H1 & H2 & H3 & _ & H5 & _ & H7 & _ & H9 & H10).
  change (Z.max 4 4) with 4 in *.
  repeat split; try assumption.
  apply nth_error_updateAt_same. exact Hb.
Qed.

(** C10. A colour potted directly after another colour, the counter of
    consecutive colours thereby reaching 2, runs the whole foul routine
    within [handleBallPotted]: the opponent receives 4 points, the foul is
    counted and logged, the break is reset, the current player is switched
    at once; the potter keeps the points just awarded for the colour. *)
Theorem consecutive_colours_foul (i : nat) (g : Game.t) (ball : Ball.t)
        (l : Colour) :
  nth_error (Game.balls g) i = Some ball ->
  isColoured (Ball.colorName ball) = true ->
  Game.lastPottedBall g = Some l ->
  isColoured l = true ->
  rulesInv g ->
  2 <= Game.consecutiveColoredPotted (Game.handleBallPotted i g)
  /\ scoreOf (Game.scoreManager (Game.handleBallPotted i g))
             (currentPlayer (Game.scoreManager g))
    = scoreOf (Game.scoreManager g) (currentPlayer (Game.scoreManager g))
      + ballValues (Ball.colorName ball)
  /\ scoreOf (Game.scoreManager (Game.handleBallPotted i g))
             (opponent (currentPlayer (Game.scoreManager g)))
    = scoreOf (Game.scoreManager g)
              (opponent (currentPlayer (Game.scoreManager g))) + 4
  /\ currentPlayer (Game.scoreManager (Game.handleBallPotted i g))
    = opponent (currentPlayer (Game.scoreManager g))
  /\ fouls (stats (Game.scoreManager (Game.handleBallPotted i g)))
    = fouls (stats (Game.scoreManager g)) + 1
  /\ currentBreak (stats (Game.scoreManager (Game.handleBallPotted i g))) = 0
  /\ isValid (currentShot (Game.scoreManager (Game.handleBallPotted i g)))
    = false
  /\ exists rest,
       recentEvents (Game.scoreManager (Game.handleBallPotted i g))
       = TurnChangeEvent (opponent (currentPlayer (Game.scoreManager g)))
         :: FoulEvent "Two consecutive colored balls potted"
              (currentPlayer (Game.scoreManager g)) 4 :: rest.
Proof.
  intros Hb Hc Hl Hlc [Hv Hcount].
  pose proof (Hcount l Hl Hlc) as Hge.
  rewrite (handleBallPotted_second_colour i g ball l Hb Hc Hl Hlc) by lia.
  set (g0 := Game.recordFoul _ _).
  destruct (respotColoredBall_rules i g0) as (Hsm & Hcc & _ & _).
  cbn [Game.scoreManager Game.setLastPottedBall
       Game.consecutiveColoredPotted].
  rewrite Hsm, Hcc. subst g0.
  cbn [Game.scoreManager Game.recordFoul Game.setScoreManager
       Game.setConsecutiveColoredPotted Game.consecutiveColoredPotted].
  set (c := Ball.colorName ball) in *.
  set (s := Game.scoreManager g) in *.
  destruct (recordBallPotted_effect c s Hv) as (P1 & P2 & P3 & P4).
  pose proof (recordBallPotted_valid c s Hv) as Hv'.
  destruct (recordFoul_effect "Two consecutive colored balls potted" None
              (recordBallPotted c s) Hv')
    as (H1 & H2 & H3 & H4 & H5 & _ & _ & H8 & _ & H10).
  cbv zeta in *. change (Z.max 4 4) with 4 in *. rewrite P3 in *.
  split; [lia|].
  split; [rewrite H2; exact P1|].
  split; [rewrite H1, P2; reflexivity|].
  split; [exact H3|].
  split; [rewrite H5, P4; reflexivity|].
  split; [exact H4|].
  split; [exact H8|exact H10].
Qed.
End PotRules.

(* ------------------------------------------------------------------ *)
(** ** The pocket loop: attraction, then capture *)

Section PocketLoop.

(** The attraction impulses of the pockets [ps], applied in order to the
    ball at index [i]. *)
Definition attractAll (ps : list Table.Pocket) (i : nat) (g : Game.t) : Game.t :=
  fold_left (fun g' p => Game.attract p i g') ps g.

Lemma pocketLoop_capture (bx by_ : Q) (i : nat) (ps : list Table.Pocket) :
  forall g,
    (exists p, In p ps /\ Game.inCaptureZone bx by_ p = true) ->
    exists ps1 q ps2,
      ps = ps1 ++ q :: ps2
      /\ Forall (fun p => Game.inCaptureZone bx by_ p = false) ps1
      /\ Game.inCaptureZone bx by_ q = true
      /\ Game.pocketLoop bx by_ i ps g
         = Game.handleBallPotted i
             (attractAll (filter (Game.inAttractionZone bx by_) (ps1 ++ [q]))
                i g).
Proof.
  induction ps as [|p rest IH]; intros g [p0 [Hin Hcap]].
  - destruct Hin.
  - cbn [Game.pocketLoop].
    destruct (Game.inCaptureZone bx by_ p) eqn:Ecap.
    + exists [], p, rest. repeat split; auto.
      cbn [app filter].
      destruct (Game.inAttractionZone bx by_ p); reflexivity.
    + assert (Hrest : exists p', In p' rest /\ Game.inCaptureZone bx by_ p' = true).
      { destruct Hin as [-> | Hin]; [congruence|]. exists p0. auto. }
      destruct (IH (if Game.inAttractionZone bx by_ p
                    then Game.attract p i g else g) Hrest)
        as (ps1 & q & ps2 & Hps & Hall & Hq & Heq).
      exists (p :: ps1), q, ps2. repeat split.
      * cbn. rewrite Hps. reflexivity.
      * constructor; assumption.
      * assumption.
      * rewrite Heq. cbn [app filter].
        destruct (Game.inAttractionZone bx by_ p); reflexivity.
Qed.

Lemma Q2R_scaled_radius (r : Q) :
  Q2R (r * 0.85) = (Q2R r * (85 / 100))%R
  /\ Q2R (r * 2.2) = (Q2R r * (22 / 10))%R
  /\ Q2R (r * 0.3) = (Q2R r * (3 / 10))%R.
Proof.
  rewrite !Q2R_mult. unfold Q2R at 2 4 6. cbn. repeat split; lra.
Qed.

(** Inside the capture radius the attraction test reduces to its lower
    bound. *)
Lemma attraction_inside_capture (bx by_ : Q) (p : Table.Pocket) :
  Game.inCaptureZone bx by_ p = true ->
  (Game.inAttractionZone bx by_ p = true
   <-> (Q2R (Table.radius p * 0.3) < dist bx by_ (Table.x p) (Table.y p))%R).
Proof.
  unfold Game.inCaptureZone, Game.inAttractionZone. intro Hc.
  apply distLt_spec in Hc.
  rewrite andb_true_iff, distLt_spec, distGt_spec.
  destruct (Q2R_scaled_radius (Table.radius p)) as (E1 & E2 & E3).
  assert (0 <= dist bx by_ (Table.x p) (Table.y p))%R by apply sqrt_pos.
  rewrite E1 in Hc. rewrite E2, E3. split; [tauto|]. intro. split; lra.
Qed.

(** One iteration of the ball loop on a ball inside a capture radius. *)
Lemma checkBall_capture (g : Game.t) (i : nat) (ball : Ball.t)
      (p : Table.Pocket) :
  nth_error (Game.balls g) i = Some ball ->
  Ball.isPotted ball = false ->
  In p (Table.pockets (Game.table g)) ->
  (dist (Game.ballX g ball) (Game.ballY g ball) (Table.x p) (Table.y p)
   < Q2R (Table.radius p * 0.85))%R ->
  exists ps1 q ps2,
    Table.pockets (Game.table g) = ps1 ++ q :: ps2
    /\ (forall p', In p' ps1 ->
          (Q2R (Table.radius p' * 0.85)
           <= dist (Game.ballX g ball) (Game.ballY g ball)
                   (Table.x p') (Table.y p'))%R)
    /\ (dist (Game.ballX g ball) (Game.ballY g ball) (Table.x q) (Table.y q)
        < Q2R (Table.radius q * 0.85))%R
    /\ Game.checkBall g i
       = Game.handleBallPotted i
           (attractAll
              (filter (Game.inAttractionZone (Game.ballX g ball)
                         (Game.ballY g ball))
                 (ps1 ++ [q]))
              i g)
    /\ (Game.inAttractionZone (Game.ballX g ball) (Game.ballY g ball) q = true
        <-> (Q2R (Table.radius q * 0.3)
             < dist (Game.ballX g ball) (Game.ballY g ball)
                    (Table.x q) (Table.y q))%R).
Proof.
  intros Hb Hp Hin Hd.
  assert (Hex : exists p0, In p0 (Table.pockets (Game.table g))
                  /\ Game.inCaptureZone (Game.ballX g ball) (Game.ballY g ball) p0
                     = true).
  { exists p. split; [assumption|]. apply distLt_spec. exact Hd. }
  destruct (pocketLoop_capture _ _ i _ g Hex)
    as (ps1 & q & ps2 & Hps & Hall & Hq & Heq).
  exists ps1, q, ps2. split; [assumption|]. split; [|split; [|split]].
  - intros p' Hp'. rewrite Forall_forall in Hall.
    apply distLt_false. apply (Hall p' Hp').
  - apply distLt_spec. exact Hq.
  - unfold Game.checkBall. rewrite Hb, Hp. exact Heq.
  - apply attraction_inside_capture. exact Hq.
Qed.

(** The iterations for the other balls leave the ball at index [i], the
    geometry and the pockets as they were. *)
Definition sameAt (i : nat) (g g' : Game.t) : Prop :=
  nth_error (Game.balls g') i = nth_error (Game.balls g) i
  /\ Game.scale g' = Game.scale g
  /\ Game.offsetX g' = Game.offsetX g
  /\ Game.offsetY g' = Game.offsetY g
  /\ Game.table g' = Game.table g.

Lemma sameAt_refl (i : nat) (g : Game.t) : sameAt i g g.
Proof. repeat split. Qed.

Lemma sameAt_trans (i : nat) (g1 g2 g3 : Game.t) :
  sameAt i g1 g2 -> sameAt i g2 g3 -> sameAt i g1 g3.
Proof.
  unfold sameAt. intros (A1 & A2 & A3 & A4 & A5) (B1 & B2 & B3 & B4 & B5).
  repeat split; congruence.
Qed.

Lemma sameAt_updBall (i j : nat) (f : Ball.t -> Ball.t) (g : Game.t) :
  j <> i -> sameAt i g (Game.updBall j f g).
Proof.
  intro Hij. repeat split. apply (nth_error_updateAt_other j i f _ Hij).
Qed.

Lemma sameAt_respotColoredBall (i j : nat) (g : Game.t) :
  j <> i -> sameAt i g (Game.respotColoredBall j g).
Proof.
  intro Hij. unfold Game.respotColoredBall.
  destruct (nth_error (Game.balls g) j) as [ball|]; [|apply sameAt_refl].
  destruct (Game.spots (Ball.colorName ball)) as [[sx sy]|];
    [|apply sameAt_refl].
  destruct (BallManager.isValidPosition (Game.ballManager g) sx sy);
    [|apply sameAt_refl].
  exact (sameAt_updBall i j _ g Hij).
Qed.

Lemma sameAt_trackConsecutiveColoured (i : nat) (g : Game.t) :
  sameAt i g (Game.trackConsecutiveColoured g).
Proof.
  unfold Game.trackConsecutiveColoured.
  repeat match goal with
         | |- context [match ?c with Some _ => _ | None => _ end] => destruct c
         | |- context [if ?c then _ else _] => destruct c
         end; repeat split.
Qed.

Lemma sameAt_handleBallPotted (i j : nat) (g : Game.t) :
  j <> i -> sameAt i g (Game.handleBallPotted j g).
Proof.
  intro Hij. unfold Game.handleBallPotted.
  destruct (nth_error (Game.balls g) j) as [ball|]; [|apply sameAt_refl].
  cbv zeta.
  set (g1 := Game.updBall j _ g).
  assert (H1 : sameAt i g g1) by exact (sameAt_updBall i j _ g Hij).
  set (g2 := if negb (Colour_eqb (Ball.colorName ball) white) then _ else g1).
  assert (H2 : sameAt i g g2).
  { subst g2. destruct (negb _); [|exact H1].
    destruct H1 as (? & ? & ? & ? & ?). repeat split; assumption. }
  clearbody g2. clear H1. clearbody g1.
  destruct (isColoured (Ball.colorName ball)).
  - pose proof (sameAt_trans i g g2 _ H2 (sameAt_trackConsecutiveColoured i g2))
      as H3.
    pose proof (sameAt_trans i g _ _ H3
                  (sameAt_respotColoredBall i j
                     (Game.trackConsecutiveColoured g2) Hij)) as H4.
    destruct H4 as (? & ? & ? & ? & ?). repeat split; assumption.
  - destruct H2 as (? & ? & ? & ? & ?).
    destruct (Colour_eqb (Ball.colorName ball) red); repeat split; assumption.
Qed.

Lemma sameAt_pocketLoop (bx by_ : Q) (i j : nat) (ps : list Table.Pocket) :
  j <> i -> forall g, sameAt i g (Game.pocketLoop bx by_ j ps g).
Proof.
  intro Hij. induction ps as [|p ps IH]; intro g; cbn [Game.pocketLoop];
    [apply sameAt_refl|].
  assert (H1 : sameAt i g (if Game.inAttractionZone bx by_ p
                           then Game.attract p j g else g)).
  { destruct (Game.inAttractionZone bx by_ p); [|apply sameAt_refl].
    exact (sameAt_updBall i j _ g Hij). }
  destruct (Game.inCaptureZone bx by_ p);
    apply (sameAt_trans i g _ _ H1);
    [apply sameAt_handleBallPotted; exact Hij | apply IH].
Qed.

Lemma sameAt_checkBall (i j : nat) (g : Game.t) :
  j <> i -> sameAt i g (Game.checkBall g j).
Proof.
  intro Hij. unfold Game.checkBall.
  destruct (nth_error (Game.balls g) j) as [ball|]; [|apply sameAt_refl].
  destruct (Ball.isPotted ball); [apply sameAt_refl|].
  apply sameAt_pocketLoop. exact Hij.
Qed.

Lemma sameAt_earlier_balls (i : nat) (js : list nat) :
  ~ In i js -> forall g, sameAt i g (fold_left Game.checkBall js g).
Proof.
  induction js as [|j js IH]; intros Hni g; [apply sameAt_refl|].
  cbn [fold_left]. apply (sameAt_trans i g (Game.checkBall g j)).
  - apply sameAt_checkBall. intros ->. apply Hni. left. reflexivity.
  - apply IH. intro Hin. apply Hni. right. exact Hin.
Qed.

(** C1 (as the code has it). A ball that is not potted and lies closer to
    some pocket than 0.85 times its radius is captured within the pass of
    [checkPottedBalls]: after the iterations for the balls before it, its
    pocket loop ends in [handleBallPotted] at the first such pocket [q],
    and the pass goes on with the balls after it.  The attraction test of
    every pocket visited, [q] included, runs before the capture test: the
    ball has then received the impulse and the damping of each visited
    pocket whose attraction zone it is in, which for [q] means a distance
    above 0.3 times the radius. *)
Theorem capture_follows_attraction (g : Game.t) (i : nat) (ball : Ball.t)
        (p : Table.Pocket) :
  nth_error (Game.balls g) i = Some ball ->
  Ball.isPotted ball = false ->
  In p (Table.pockets (Game.table g)) ->
  (dist (Game.ballX g ball) (Game.ballY g ball) (Table.x p) (Table.y p)
   < Q2R (Table.radius p * 0.85))%R ->
  exists ps1 q ps2,
    Table.pockets (Game.table g) = ps1 ++ q :: ps2
    /\ (forall p', In p' ps1 ->
          (Q2R (Table.radius p' * 0.85)
           <= dist (Game.ballX g ball) (Game.ballY g ball)
                   (Table.x p') (Table.y p'))%R)
    /\ (dist (Game.ballX g ball) (Game.ballY g ball) (Table.x q) (Table.y q)
        < Q2R (Table.radius q * 0.85))%R
    /\ Game.checkPottedBalls g
       = fold_left Game.checkBall
           (seq (S i) (List.length (Game.balls g) - S i))
           (Game.handleBallPotted i
              (attractAll
                 (filter (Game.inAttractionZone (Game.ballX g ball)
                            (Game.ballY g ball))
                    (ps1 ++ [q]))
                 i (fold_left Game.checkBall (seq 0 i) g)))
    /\ (Game.inAttractionZone (Game.ballX g ball) (Game.ballY g ball) q = true
        <-> (Q2R (Table.radius q * 0.3)
             < dist (Game.ballX g ball) (Game.ballY g ball)
                    (Table.x q) (Table.y q))%R).
Proof.
  intros Hb Hp Hin Hd.
  set (gi := fold_left Game.checkBall (seq 0 i) g).
  assert (Hsame : sameAt i g gi).
  { apply sameAt_earlier_balls. rewrite in_seq. lia. }
  destruct Hsame as (Hnth & Hsc & Hox & Hoy & Htb).
  assert (HX : Game.ballX gi ball = Game.ballX g ball)
    by (unfold Game.ballX; rewrite Hsc, Hox; reflexivity).
  assert (HY : Game.ballY gi ball = Game.ballY g ball)
    by (unfold Game.ballY; rewrite Hsc, Hoy; reflexivity).
  assert (Hb' : nth_error (Game.balls gi) i = Some ball) by congruence.
  assert (Hin' : In p (Table.pockets (Game.table gi))) by (rewrite Htb; exact Hin).
  assert (Hd' : (dist (Game.ballX gi ball) (Game.ballY gi ball)
                      (Table.x p) (Table.y p) < Q2R (Table.radius p * 0.85))%R)
    by (rewrite HX, HY; exact Hd).
  destruct (checkBall_capture gi i ball p Hb' Hp Hin' Hd')
    as (ps1 & q & ps2 & Hps & Hall & Hq & Heq & Hattr).
  rewrite HX, HY, Htb in *.
  exists ps1, q, ps2.
  split; [exact Hps|]. split; [exact Hall|]. split; [exact Hq|].
  split; [|exact Hattr].
  assert (Hlt : (i < List.length (Game.balls g))%nat)
    by (apply nth_error_Some; congruence).
  unfold Game.checkPottedBalls.
  replace (List.length (Game.balls g))
    with (i + S (List.length (Game.balls g) - S i))%nat at 1 by lia.
  rewrite seq_app, fold_left_app. cbn [seq fold_left plus].
  fold gi. rewrite Heq. reflexivity.
Qed.

(** A red ball two units from the top-left corner pocket, rolling at unit
    speed. *)
Definition tightBall : Ball.t :=
  Ball.mk "red0" red 1 0 0 2.472 false
    (Body.mk (mkVector 2 0) (mkVector 1 0) (mkVector 0 0) "red0" false true).

Definition tightBallGame : Game.t :=
  Game.mk 1 0 0 (Table.constructor Game.tableWidth Game.tableHeight)
    (BallManager.mk 1 0 0 [tightBall] false)
    ScoreManager.constructor 1 [] true false 0 None.

Lemma capture_follows_attraction_witness :
  exists ps1 q ps2,
    Table.pockets (Game.table tightBallGame) = ps1 ++ q :: ps2
    /\ Game.checkPottedBalls tightBallGame
       = Game.handleBallPotted 0
           (attractAll
              (filter (Game.inAttractionZone (Game.ballX tightBallGame tightBall)
                         (Game.ballY tightBallGame tightBall))
                 (ps1 ++ [q]))
              0 tightBallGame).
Proof.
  assert (Hd : (dist (Game.ballX tightBallGame tightBall)
                     (Game.ballY tightBallGame tightBall) 0 0
                < Q2R (Table.pocketRadius * 0.85))%R)
    by (apply distLt_spec; vm_compute; reflexivity).
  destruct (capture_follows_attraction tightBallGame 0 tightBall
              (Table.mkPocket 0 0 Table.pocketRadius)
              eq_refl eq_refl (or_introl eq_refl) Hd)
    as (ps1 & q & ps2 & Hps & _ & _ & Heq & _).
  exists ps1, q, ps2. split; assumption.
Defined.

(** C1, counterexample.  The ball of [tightBallGame] is inside the capture
    radius of the corner pocket (distance 2 < 3.1518).  After the pass it
    is potted, but its velocity has been damped to 0.88 and it carries the
    attraction force -0.0016: the attraction test ran first. *)
Lemma tight_ball_attracted_before_capture :
  Ball.isPotted tightBall = false
  /\ (dist (Game.ballX tightBallGame tightBall)
           (Game.ballY tightBallGame tightBall) 0 0
      < Q2R (Table.pocketRadius * 0.85))%R
  /\ exists b',
       nth_error (Game.balls (Game.checkPottedBalls tightBallGame)) 0 = Some b'
       /\ Ball.isPotted b' = true
       /\ vx (Body.velocity (Ball.body b')) == 0.88
       /\ ~ vx (Body.velocity (Ball.body b'))
            == vx (Body.velocity (Ball.body tightBall))
       /\ vx (Body.force (Ball.body b')) == - 0.0016
       /\ ~ vx (Body.force (Ball.body b'))
            == vx (Body.force (Ball.body tightBall)).
Proof.
  split; [reflexivity|]. split.
  - apply distLt_spec. vm_compute. reflexivity.
  - eexists. split; [vm_compute; reflexivity|].
    cbn [Ball.isPotted Ball.body Body.velocity Body.force vx tightBall].
    repeat split; try reflexivity; intro H; vm_compute in H; discriminate.
Qed.

(** C5 (as the code has it). The pass over the balls skips a ball that is
    marked potted: no pot is delivered for it a second time and the game
    state, match state included, is left as it was.  A pass over a table
    whose balls are all potted changes nothing. *)
Theorem potted_ball_is_skipped (g : Game.t) :
  (forall i ball,
      nth_error (Game.balls g) i = Some ball ->
      Ball.isPotted ball = true ->
      Game.checkBall g i = g)
  /\ ((forall ball, In ball (Game.balls g) -> Ball.isPotted ball = true) ->
      Game.checkPottedBalls g = g).
Proof.
  split.
  - intros i ball Hb Hp. unfold Game.checkBall. rewrite Hb, Hp. reflexivity.
  - intro Hall. unfold Game.checkPottedBalls.
    assert (H : forall l, fold_left Game.checkBall l g = g).
    { induction l as [|i l IH]; [reflexivity|]. cbn [fold_left].
      assert (Hi : Game.checkBall g i = g).
      { unfold Game.checkBall.
        destruct (nth_error (Game.balls g) i) as [ball|] eqn:E; [|reflexivity].
        rewrite (Hall ball (nth_error_In _ _ E)). reflexivity. }
      rewrite Hi. exact IH. }
    apply H.
Qed.

(** A table whose only ball, a red, lies potted in the top-left corner
    pocket. *)
Definition pottedRedGame : Game.t :=
  Game.mk 1 0 0 (Table.constructor Game.tableWidth Game.tableHeight)
    (BallManager.mk 1 0 0
       [Ball.mk "red0" red 1 0 0 2.472 true
          (Body.mk (mkVector 1 1) (mkVector 0 0) (mkVector 0 0) "red0" false
             false)]
       false)
    (ScoreManager.recordBallPotted red ScoreManager.constructor)
    1 [] false false 0 (Some red).

Lemma potted_ball_is_skipped_witness :
  Game.checkBall pottedRedGame 0 = pottedRedGame
  /\ Game.checkPottedBalls pottedRedGame = pottedRedGame.
Proof.
  destruct (potted_ball_is_skipped pottedRedGame) as [Hone Hall].
  split.
  - exact (Hone 0%nat _ eq_refl eq_refl).
  - apply Hall. intros ball [<- | []]. reflexivity.
Defined.
End PocketLoop.

(* ------------------------------------------------------------------ *)
(** ** The cue-ball record *)

Section CueRecord.

Definition isCue (b : Ball.t) : bool := String.eqb (Ball.id b) "cue".

(** Number of records with id ['cue'] in a ball list. *)
Definition cueCount (bs : list Ball.t) : nat := List.length (filter isCue bs).

Definition idsOf (g : Game.t) : list string := map Ball.id (Game.balls g).

Lemma cueCount_ids (bs bs' : list Ball.t) :
  map Ball.id bs' = map Ball.id bs -> cueCount bs' = cueCount bs.
Proof.
  unfold cueCount.
  revert bs'; induction bs as [|b bs IH]; intros [|b' bs']; cbn [map];
    try discriminate; [reflexivity|].
  intros [= Hid Hrest]. cbn [filter].
  assert (Hc : isCue b' = isCue b) by (unfold isCue; rewrite Hid; reflexivity).
  rewrite Hc. destruct (isCue b); cbn [List.length];
    rewrite (IH bs' Hrest); reflexivity.
Qed.

Lemma cueCount_app (bs bs' : list Ball.t) :
  cueCount (bs ++ bs') = (cueCount bs + cueCount bs')%nat.
Proof. unfold cueCount. rewrite filter_app, length_app. reflexivity. Qed.

Lemma cueCount_without_cue (bs : list Ball.t) :
  cueCount (filter (fun b => negb (String.eqb (Ball.id b) "cue")) bs) = 0%nat.
Proof.
  unfold cueCount. induction bs as [|b bs IH]; [reflexivity|]. cbn [filter].
  destruct (String.eqb (Ball.id b) "cue") eqn:E; cbn [negb]; [exact IH|].
  cbn [filter]. change (isCue b) with (String.eqb (Ball.id b) "cue").
  rewrite E. exact IH.
Qed.

Lemma cueCount_not_found (bs : list Ball.t) :
  find (fun b => String.eqb (Ball.id b) "cue") bs = None -> cueCount bs = 0%nat.
Proof.
  unfold cueCount. induction bs as [|b bs IH]; [reflexivity|]. cbn [find filter].
  change (isCue b) with (String.eqb (Ball.id b) "cue").
  destruct (String.eqb (Ball.id b) "cue"); [discriminate|].
  exact IH.
Qed.

(** Whatever the ball list was, [addCueBall] leaves exactly one cue
    record. *)
Lemma addCueBall_one (x y : Q) (e : bool) (bm : BallManager.t) :
  cueCount (BallManager.balls (BallManager.addCueBall x y e bm)) = 1%nat.
Proof.
  unfold BallManager.addCueBall, BallManager.getCueBall.
  destruct (find _ (BallManager.balls bm)) eqn:E;
    cbn [BallManager.balls BallManager.setBalls]; rewrite cueCount_app.
  - rewrite cueCount_without_cue. reflexivity.
  - rewrite (cueCount_not_found _ E). reflexivity.
Qed.

Lemma addBall_cueCount (x y : Q) (c : Colour) (i : string) (bm : BallManager.t) :
  String.eqb i "cue" = false ->
  cueCount (BallManager.balls (BallManager.addBall x y c i bm))
  = cueCount (BallManager.balls bm).
Proof.
  intro Hi. unfold BallManager.addBall.
  cbn [BallManager.balls BallManager.setBalls]. rewrite cueCount_app.
  unfold cueCount at 2. cbn [filter]. unfold isCue, Ball.new.
  cbn [Ball.id]. rewrite Hi. cbn. lia.
Qed.

Lemma redId_not_cue (i : nat) : String.eqb (BallManager.redId i) "cue" = false.
Proof. reflexivity. Qed.

(** The three layouts, called without the cue ball as [Game] does. *)
Lemma setupStartingPositions_no_cue (bm : BallManager.t) :
  cueCount (BallManager.balls (BallManager.setupStartingPositions false bm))
  = 0%nat.
Proof. reflexivity. Qed.

Lemma addRandomReds_cueCount (fuel : nat) (rnd : nat -> Q * Q) (ids : list nat) :
  forall k bm bm',
    BallManager.addRandomReds fuel rnd ids k bm = Some bm' ->
    cueCount (BallManager.balls bm') = cueCount (BallManager.balls bm).
Proof.
  induction ids as [|i ids IH]; intros k bm bm'; cbn [BallManager.addRandomReds].
  - intros [= <-]. reflexivity.
  - destruct (BallManager.drawUntilValid fuel rnd k bm) as [[[x y] k']|];
      [|discriminate].
    intro H. rewrite (IH _ _ _ H). apply addBall_cueCount, redId_not_cue.
Qed.

Lemma setupRandomReds_no_cue (fuel : nat) (rnd : nat -> Q * Q)
      (bm bm' : BallManager.t) :
  BallManager.setupRandomReds false fuel rnd bm = Some bm' ->
  cueCount (BallManager.balls bm') = 0%nat.
Proof.
  unfold BallManager.setupRandomReds. intro H.
  rewrite (addRandomReds_cueCount _ _ _ _ _ _ H). reflexivity.
Qed.

Lemma placeRandom_fold_cueCount (rnd : nat -> Q * Q)
      (infos : list (Colour * string)) :
  Forall (fun bi => String.eqb (snd bi) "cue" = false) infos ->
  forall st,
    cueCount (BallManager.balls (fst (fold_left (BallManager.placeRandom rnd) infos st)))
    = cueCount (BallManager.balls (fst st)).
Proof.
  induction 1 as [|bi infos Hbi _ IH]; intros [bm k]; [reflexivity|].
  cbn [fold_left]. rewrite IH. unfold BallManager.placeRandom.
  destruct (BallManager.drawCapped 100 rnd k bm) as [[[x y]|] k'];
    cbn [fst]; [|reflexivity].
  apply addBall_cueCount. exact Hbi.
Qed.

Lemma setupRandomAll_no_cue (rnd : nat -> Q * Q) (bm : BallManager.t) :
  cueCount (BallManager.balls (BallManager.setupRandomAll false rnd bm)) = 0%nat.
Proof.
  unfold BallManager.setupRandomAll. rewrite placeRandom_fold_cueCount.
  - reflexivity.
  - apply Forall_forall. intros bi Hin.
    assert (Hall : forallb (fun bi => negb (String.eqb (snd bi) "cue"))
                     BallManager.ballsToAdd = true) by reflexivity.
    rewrite forallb_forall in Hall. apply negb_true_iff, Hall, Hin.
Qed.

(** The operations that mutate balls in place keep their ids. *)
Lemma ids_updBall (i : nat) (f : Ball.t -> Ball.t) (g : Game.t) :
  (forall b, Ball.id (f b) = Ball.id b) ->
  idsOf (Game.updBall i f g) = idsOf g.
Proof. intro Hf. unfold idsOf. apply map_updateAt. exact Hf. Qed.

Lemma ids_respotColoredBall (i : nat) (g : Game.t) :
  idsOf (Game.respotColoredBall i g) = idsOf g.
Proof.
  unfold Game.respotColoredBall.
  destruct (nth_error (Game.balls g) i) as [ball|]; [|reflexivity].
  destruct (Game.spots (Ball.colorName ball)) as [[sx sy]|]; [|reflexivity].
  destruct (BallManager.isValidPosition (Game.ballManager g) sx sy);
    [|reflexivity].
  refine (ids_updBall i _ g _). reflexivity.
Qed.

Lemma ids_trackConsecutiveColoured (g : Game.t) :
  idsOf (Game.trackConsecutiveColoured g) = idsOf g.
Proof.
  unfold Game.trackConsecutiveColoured.
  repeat match goal with
         | |- context [match ?c with Some _ => _ | None => _ end] => destruct c
         | |- context [if ?c then _ else _] => destruct c
         end; reflexivity.
Qed.

Lemma ids_handleBallPotted (i : nat) (g : Game.t) :
  idsOf (Game.handleBallPotted i g) = idsOf g.
Proof.
  assert (Hpot : idsOf (Game.updBall i pot g) = idsOf g)
    by (apply ids_updBall; reflexivity).
  unfold Game.handleBallPotted.
  destruct (nth_error (Game.balls g) i) as [ball|]; [|reflexivity].
  change (idsOf (Game.setLastPottedBall ?x _)) with (idsOf x).
  destruct (negb (Colour_eqb (Ball.colorName ball) white));
    destruct (isColoured (Ball.colorName ball));
    rewrite ?ids_respotColoredBall, ?ids_trackConsecutiveColoured;
    repeat match goal with
           | |- context [match ?c with Some _ => _ | None => _ end] => destruct c
           | |- context [if ?c then _ else _] => destruct c
           end;
    exact Hpot.
Qed.

Lemma ids_attract (p : Table.Pocket) (i : nat) (g : Game.t) :
  idsOf (Game.attract p i g) = idsOf g.
Proof. unfold Game.attract. apply ids_updBall. reflexivity. Qed.

Lemma ids_pocketLoop (bx by_ : Q) (i : nat) (ps : list Table.Pocket) :
  forall g, idsOf (Game.pocketLoop bx by_ i ps g) = idsOf g.
Proof.
  induction ps as [|p ps IH]; intro g; cbn [Game.pocketLoop]; [reflexivity|].
  destruct (Game.inCaptureZone bx by_ p);
    rewrite ?ids_handleBallPotted, ?IH;
    destruct (Game.inAttractionZone bx by_ p);
    rewrite ?ids_attract; reflexivity.
Qed.

Lemma ids_checkBall (g : Game.t) (i : nat) : idsOf (Game.checkBall g i) = idsOf g.
Proof.
  unfold Game.checkBall.
  destruct (nth_error (Game.balls g) i) as [ball|]; [|reflexivity].
  destruct (Ball.isPotted ball); [reflexivity|]. apply ids_pocketLoop.
Qed.

Lemma ids_checkPottedBalls (g : Game.t) :
  idsOf (Game.checkPottedBalls g) = idsOf g.
Proof.
  unfold Game.checkPottedBalls. generalize (seq 0 (List.length (Game.balls g))).
  intro l. revert g. induction l as [|i l IH]; intro g; [reflexivity|].
  cbn [fold_left]. rewrite IH. apply ids_checkBall.
Qed.

Lemma ids_checkEscapedBalls (g : Game.t) :
  idsOf (Game.checkEscapedBalls g) = idsOf g.
Proof.
  unfold idsOf, Game.checkEscapedBalls, Game.balls.
  cbn [Game.ballManager Game.setBallManager BallManager.balls
       BallManager.setBalls].
  rewrite map_map. apply map_ext. intro b. unfold Game.resetIfEscaped.
  destruct (Ball.isPotted b); [reflexivity|].
  match goal with |- context [if ?c then _ else _] => destruct c end;
    reflexivity.
Qed.

Lemma ids_update (g : Game.t) : idsOf (Game.update g) = idsOf g.
Proof.
  unfold Game.update. rewrite ids_checkEscapedBalls, ids_checkPottedBalls.
  destruct (Game.ballsMoving g && _); reflexivity.
Qed.

Lemma ballManager_handleCollisions (pairs : list (string * string)) :
  forall g, Game.ballManager (Game.handleCollisions pairs g) = Game.ballManager g.
Proof.
  unfold Game.handleCollisions.
  induction pairs as [|[a b] pairs IH]; intro g; [reflexivity|].
  cbn [fold_left]. rewrite IH. unfold Game.handlePair.
  repeat match goal with
         | |- context [match ?c with Some _ => _ | None => _ end] => destruct c
         | |- context [if ?c then _ else _] => destruct c
         end; reflexivity.
Qed.

Lemma ids_updateTablePosition (sc ox oy : Q) (g : Game.t) :
  idsOf (Game.updateTablePosition sc ox oy g) = idsOf g.
Proof.
  assert (Hshift : forall dx dy bs,
             map Ball.id (map (Game.shiftBody dx dy) bs) = map Ball.id bs).
  { intros dx dy bs. rewrite map_map. apply map_ext. intro b.
    unfold Game.shiftBody. destruct (Ball.isPotted b); reflexivity. }
  unfold Game.updateTablePosition.
  match goal with |- context [if ?c then _ else _] => destruct c end.
  - unfold Game.updateCueBallPosition.
    match goal with
    | |- context [match ?c with Some _ => _ | None => _ end] => destruct c
    end.
    + unfold idsOf at 1, Game.balls at 1.
      cbn [Game.ballManager Game.setBallManager BallManager.balls
           BallManager.setBalls].
      rewrite map_updateFirst by reflexivity. apply Hshift.
    + apply Hshift.
  - apply Hshift.
Qed.

Lemma ids_settle (g : Game.t) : idsOf (Game.settle g) = idsOf g.
Proof.
  unfold idsOf, Game.settle, Game.balls, BallManager.settle.
  cbn [Game.ballManager Game.setBallManager BallManager.balls
       BallManager.setBalls BallManager.setIsSettingUp].
  rewrite map_map. apply map_ext. reflexivity.
Qed.

Lemma ids_physics (bs bs' : list Ball.t) :
  Forall2 moved bs bs' -> map Ball.id bs' = map Ball.id bs.
Proof.
  induction 1 as [|b b' bs bs' Hm _ IH]; [reflexivity|].
  cbn. rewrite IH. destruct Hm as [-> _]. reflexivity.
Qed.

Lemma cueCount_le_ids (g g' : Game.t) :
  idsOf g' = idsOf g ->
  (cueCount (Game.balls g) <= 1)%nat -> (cueCount (Game.balls g') <= 1)%nat.
Proof. intros Hids Hle. rewrite (cueCount_ids _ _ Hids). exact Hle. Qed.

Lemma step_cueCount (g g' : Game.t) :
  step g g' ->
  (cueCount (Game.balls g) <= 1)%nat -> (cueCount (Game.balls g') <= 1)%nat.
Proof.
  intros Hstep Hle.
  destruct Hstep as [g bs' Hm | g | g key fuel rnd g' Hk | g x y
                     | g shot | g pairs | g sc ox oy | g ].
  - refine (cueCount_le_ids g _ _ Hle). exact (ids_physics _ _ Hm).
  - exact (cueCount_le_ids g _ (ids_update g) Hle).
  - unfold Game.handleKeyPress in Hk.
    destruct (String.eqb key "1").
    { injection Hk as <-.
      change (cueCount (BallManager.balls
                (BallManager.setupStartingPositions false (Game.ballManager g)))
              <= 1)%nat.
      rewrite setupStartingPositions_no_cue. lia. }
    destruct (String.eqb key "2").
    { destruct (BallManager.setupRandomReds false fuel rnd (Game.ballManager g))
        as [bm|] eqn:E; [|discriminate].
      injection Hk as <-.
      change (cueCount (BallManager.balls bm) <= 1)%nat.
      rewrite (setupRandomReds_no_cue _ _ _ _ E). lia. }
    destruct (String.eqb key "3").
    { injection Hk as <-.
      change (cueCount (BallManager.balls
                (BallManager.setupRandomAll false rnd (Game.ballManager g)))
              <= 1)%nat.
      rewrite setupRandomAll_no_cue. lia. }
    injection Hk as <-. exact Hle.
  - unfold Game.handleMousePress.
    destruct (Game.isPlacingCueBall g); [|exact Hle].
    match goal with |- context [if ?c then _ else _] => destruct c end;
      [|exact Hle].
    match goal with
    | |- context [BallManager.addCueBall ?a ?b ?c ?d] =>
        change (cueCount (BallManager.balls (BallManager.addCueBall a b c d))
                <= 1)%nat
    end.
    rewrite addCueBall_one. lia.
  - unfold Game.handleMouseRelease.
    destruct (negb (Game.isPlacingCueBall g)); [|exact Hle].
    destruct (BallManager.getCueBall (Game.ballManager g)); [|exact Hle].
    destruct shot; exact Hle.
  - unfold Game.balls. rewrite ballManager_handleCollisions. exact Hle.
  - exact (cueCount_le_ids g _ (ids_updateTablePosition sc ox oy g) Hle).
  - exact (cueCount_le_ids g _ (ids_settle g) Hle).
Qed.

(** C9 (as the code has it). The game creates the cue-ball record only
    when the player places the cue ball: the constructor and the three
    layouts leave no cue record, [addCueBall] leaves exactly one whatever
    was there before, and every reachable state holds at most one. *)
Theorem at_most_one_cue_record :
  (forall sc ox oy, cueCount (Game.balls (Game.constructor sc ox oy)) = 0%nat)
  /\ (forall key fuel rnd g g',
        Game.handleKeyPress key fuel rnd g = Some g' ->
        key = "1"%string \/ key = "2"%string \/ key = "3"%string ->
        cueCount (Game.balls g') = 0%nat)
  /\ (forall x y e bm,
        cueCount (BallManager.balls (BallManager.addCueBall x y e bm)) = 1%nat)
  /\ (forall g, reachable g -> (cueCount (Game.balls g) <= 1)%nat).
Proof.
  split; [|split; [|split]].
  - intros. reflexivity.
  - intros key fuel rnd g g' Hk Hkey. unfold Game.handleKeyPress in Hk.
    destruct Hkey as [-> | [-> | ->]]; cbn [String.eqb Ascii.eqb Bool.eqb] in Hk.
    + injection Hk as <-. apply setupStartingPositions_no_cue.
    + destruct (BallManager.setupRandomReds false fuel rnd (Game.ballManager g))
        as [bm|] eqn:E; [|discriminate].
      injection Hk as <-. apply (setupRandomReds_no_cue _ _ _ _ E).
    + injection Hk as <-. apply setupRandomAll_no_cue.
  - apply addCueBall_one.
  - intros g Hr. induction Hr as [sc ox oy | g g' _ IH Hstep].
    + assert (H0 : cueCount (Game.balls (Game.constructor sc ox oy)) = 0%nat)
        by reflexivity.
      rewrite H0. lia.
    + exact (step_cueCount g g' Hstep IH).
Qed.
End CueRecord.

(* ------------------------------------------------------------------ *)
(** ** Placement predicates *)

Section Placement.

Lemma isValidPositionIn_all (x y : Q) (bs : list Ball.t) :
  BallManager.isValidPositionIn x y bs = true
  <-> forall b, In b bs ->
        (Q2R BallManager.minDistance <= dist x y (Ball.x b) (Ball.y b))%R.
Proof.
  induction bs as [|b0 bs IH]; cbn [BallManager.isValidPositionIn].
  - split; [intros _ b []|reflexivity].
  - destruct (distLt x y (Ball.x b0) (Ball.y b0) BallManager.minDistance) eqn:E.
    + split; [discriminate|]. intro H. exfalso.
      apply distLt_spec in E. specialize (H b0 (or_introl eq_refl)). lra.
    + rewrite IH. apply distLt_false in E. split.
      * intros H b [<- | Hin]; auto.
      * intros H b Hin. apply H. right. exact Hin.
Qed.

(** C8 (as the code has it). On a ball list without potted records,
    [isValidPosition(x, y)] is true exactly when every active ball centre
    is at a distance of at least [minDistance] = 5.0 from (x, y): a ball
    at exactly 5.0 does not make the position invalid. *)
Theorem isValidPosition_spec (bm : BallManager.t) (x y : Q) :
  (forall b, In b (BallManager.balls bm) -> Ball.isPotted b = false) ->
  (BallManager.isValidPosition bm x y = true
   <-> forall b, In b (BallManager.balls bm) -> Ball.isPotted b = false ->
         (Q2R BallManager.minDistance <= dist x y (Ball.x b) (Ball.y b))%R).
Proof.
  intro Hactive. unfold BallManager.isValidPosition.
  rewrite isValidPositionIn_all. split.
  - intros H b Hin _. exact (H b Hin).
  - intros H b Hin. exact (H b Hin (Hactive b Hin)).
Qed.

(** One active red ball five units to the right of the origin. *)
Definition ballAtFive : Ball.t := Ball.new 5 0 red "red0" 1 0 0 false.

Definition managerAtFive : BallManager.t :=
  BallManager.mk 1 0 0 [ballAtFive] false.

Lemma isValidPosition_spec_witness :
  BallManager.isValidPosition managerAtFive 0 0 = true
  <-> forall b, In b (BallManager.balls managerAtFive) ->
        Ball.isPotted b = false ->
        (Q2R BallManager.minDistance <= dist 0 0 (Ball.x b) (Ball.y b))%R.
Proof.
  apply (isValidPosition_spec managerAtFive 0 0).
  intros b [<- | []]. reflexivity.
Defined.

(** C8, counterexample.  The only ball is active and exactly 5.0 away from
    the origin: its distance does not exceed the minimum separation, yet
    the origin is a valid position. *)
Lemma isValidPosition_accepts_exact_separation :
  BallManager.isValidPosition managerAtFive 0 0 = true
  /\ In ballAtFive (BallManager.balls managerAtFive)
  /\ Ball.isPotted ballAtFive = false
  /\ ~ (dist 0 0 (Ball.x ballAtFive) (Ball.y ballAtFive)
        > Q2R BallManager.minDistance)%R.
Proof.
  split; [vm_compute; reflexivity|]. split; [left; reflexivity|].
  split; [reflexivity|].
  intro H. apply distGt_spec in H. vm_compute in H. discriminate.
Qed.

(** The potted flag is not read by [isValidPosition]: a potted record whose
    old body lies within 5.0 of the point makes it invalid. *)
Lemma isValidPosition_counts_potted :
  BallManager.isValidPosition
    (BallManager.mk 1 0 0
       [Ball.setPotted (Ball.new 2 0 red "red0" 1 0 0 false) true] false)
    0 0 = false.
Proof. vm_compute. reflexivity. Qed.

(** C2 (as the code has it). [isValidCueBallPosition(x, y)] is true exactly
    when (x, y) is within the D radius 14.5 of the D centre (44.5, 44.5),
    x is at most the baulk line 44.5, and the position is free according
    to [isValidPosition]. *)
Theorem isValidCueBallPosition_spec (g : Game.t) (x y : Q) :
  Game.isValidCueBallPosition g x y = true
  <-> (dist Game.dCenterX Game.dCenterY x y <= Q2R Game.dRadius)%R
      /\ x <= Game.baulkLine
      /\ BallManager.isValidPosition (Game.ballManager g) x y = true.
Proof.
  unfold Game.isValidCueBallPosition.
  rewrite <- distLe_spec, <- Qle_bool_iff.
  destruct (distLe Game.dCenterX Game.dCenterY x y Game.dRadius);
    destruct (Qle_bool x Game.baulkLine); cbn [andb];
    intuition congruence.
Qed.

(** C2, counterexample.  In the initial game the D centre lies within the
    D radius and on the baulk line, but the brown ball occupies it: the
    predicate is false. *)
Lemma d_centre_is_occupied_by_brown :
  (dist Game.dCenterX Game.dCenterY 44.5 44.5 <= Q2R Game.dRadius)%R
  /\ 44.5 <= Game.baulkLine
  /\ Game.isValidCueBallPosition (Game.constructor 1 0 0) 44.5 44.5 = false.
Proof.
  split; [apply distLe_spec; vm_compute; reflexivity|].
  split; [apply Qle_bool_iff; vm_compute; reflexivity|].
  vm_compute. reflexivity.
Qed.
End Placement.

(* ------------------------------------------------------------------ *)
(** ** Re-spotting a colour *)

Section Respot.

(** The ball of colour [c] as [addColoredBalls] lays it out. *)
Definition layoutBall (sc ox oy : Q) (c : Colour) : option Ball.t :=
  find (fun b => Colour_eqb (Ball.colorName b) c)
       (BallManager.balls
          (BallManager.addColoredBalls (BallManager.constructor sc ox oy))).

Lemma respot_occupied (i : nat) (g : Game.t) (ball : Ball.t) (sx sy : Q) :
  nth_error (Game.balls g) i = Some ball ->
  Game.spots (Ball.colorName ball) = Some (sx, sy) ->
  BallManager.isValidPosition (Game.ballManager g) sx sy = false ->
  Game.respotColoredBall i g = g.
Proof.
  intros Hb Hs Hv. unfold Game.respotColoredBall. rewrite Hb, Hs, Hv.
  reflexivity.
Qed.

Lemma respot_free (i : nat) (g : Game.t) (ball : Ball.t) (sx sy : Q) :
  nth_error (Game.balls g) i = Some ball ->
  Game.spots (Ball.colorName ball) = Some (sx, sy) ->
  BallManager.isValidPosition (Game.ballManager g) sx sy = true ->
  exists b',
    nth_error (Game.balls (Game.respotColoredBall i g)) i = Some b'
    /\ Ball.isPotted b' = false
    /\ Body.inWorld (Ball.body b') = true
    /\ Body.position (Ball.body b')
       = mkVector (Game.offsetX g + sx * Game.scale g)
                  (Game.offsetY g + sy * Game.scale g).
Proof.
  intros Hb Hs Hv. unfold Game.respotColoredBall. rewrite Hb, Hs, Hv.
  eexists. split.
  - apply nth_error_updateAt_same. exact Hb.
  - repeat split.
Qed.

(** For yellow, green, brown, blue and black the spot of the re-spot table
    is the spot of the layout: a successful re-spot puts the body where
    [addColoredBalls] had put it. *)
Lemma respot_restores_layout_position (i : nat) (g : Game.t) (ball : Ball.t)
      (sx sy : Q) :
  nth_error (Game.balls g) i = Some ball ->
  isColoured (Ball.colorName ball) = true ->
  Ball.colorName ball <> pink ->
  Game.spots (Ball.colorName ball) = Some (sx, sy) ->
  BallManager.isValidPosition (Game.ballManager g) sx sy = true ->
  exists b' b0,
    nth_error (Game.balls (Game.respotColoredBall i g)) i = Some b'
    /\ layoutBall (Game.scale g) (Game.offsetX g) (Game.offsetY g)
         (Ball.colorName ball) = Some b0
    /\ Ball.isPotted b' = false
    /\ Body.inWorld (Ball.body b') = true
    /\ Body.position (Ball.body b') = Body.position (Ball.body b0).
Proof.
  intros Hb Hc Hp Hs Hv.
  destruct (respot_free i g ball sx sy Hb Hs Hv) as (b' & Hb' & P1 & P2 & P3).
  exists b'.
  destruct (Ball.colorName ball); cbn in Hc; try discriminate;
    try congruence; cbn in Hs; injection Hs as <- <-;
    eexists; (split; [exact Hb'|]); (split; [reflexivity|]);
    (split; [exact P1|]); (split; [exact P2|]); exact P3.
Qed.

(** The six colours on their layout spots, nothing else on the table. *)
Definition coloursOnly : Game.t :=
  Game.mk 1 0 0 (Table.constructor Game.tableWidth Game.tableHeight)
    (BallManager.addColoredBalls (BallManager.constructor 1 0 0))
    ScoreManager.constructor 1 [] false false 0 None.

(** C7, at the pink ball.  [addColoredBalls] lays the pink ball out at
    x = 130 - 4.944 = 125.056, the re-spot table holds x = 141.  Potted
    with its spot free, the pink ball comes back at 141, not where the
    layout had it. *)
Theorem pink_respot_misses_layout_spot :
  exists b b',
    nth_error (Game.balls coloursOnly) 0 = Some b
    /\ Ball.colorName b = pink
    /\ layoutBall 1 0 0 pink = Some b
    /\ nth_error (Game.balls (Game.handleBallPotted 0 coloursOnly)) 0 = Some b'
    /\ Ball.isPotted b' = false
    /\ Body.inWorld (Ball.body b') = true
    /\ Ball.x b == 125.056 /\ Ball.y b == 44.5
    /\ Ball.x b' == 141 /\ Ball.y b' == 44.5
    /\ ~ vx (Body.position (Ball.body b')) == vx (Body.position (Ball.body b)).
Proof.
  eexists. eexists.
  split; [reflexivity|]. split; [reflexivity|]. split; [reflexivity|].
  split; [vm_compute; reflexivity|].
  repeat split; try reflexivity.
  intro H. vm_compute in H. discriminate.
Qed.
End Respot.

(* ------------------------------------------------------------------ *)
(** ** The rule invariant over the reachable states *)

Section RulesInvariant.
Import ScoreManager.
Open Scope Z_scope.

Lemma rulesInv_trackConsecutiveColoured (g : Game.t) :
  rulesInv g ->
  validPlayer (Game.scoreManager (Game.trackConsecutiveColoured g))
  /\ 1 <= Game.consecutiveColoredPotted (Game.trackConsecutiveColoured g).
Proof.
  intros [Hv Hc]. unfold Game.trackConsecutiveColoured.
  destruct (Game.lastPottedBall g) as [l|] eqn:El; [|split; [exact Hv|cbn; lia]].
  destruct (isColoured l) eqn:Il; [|split; [exact Hv|cbn; lia]].
  pose proof (Hc l eq_refl Il) as Hge.
  change (Game.consecutiveColoredPotted
            (Game.setConsecutiveColoredPotted g ?n)) with n.
  destruct (2 <=? Game.consecutiveColoredPotted g + 1).
  - split; [apply recordFoul_valid|]. cbn. lia.
  - split; [exact Hv|]. cbn. lia.
Qed.

Lemma rulesInv_handleBallPotted (i : nat) (g : Game.t) :
  rulesInv g -> rulesInv (Game.handleBallPotted i g).
Proof.
  intros Hg. pose proof Hg as [Hv Hc]. unfold Game.handleBallPotted.
  destruct (nth_error (Game.balls g) i) as [ball|]; [|exact Hg].
  set (c := Ball.colorName ball).
  pose proof (recordBallPotted_valid c (Game.scoreManager g) Hv) as Hv'.
  destruct (isColoured c) eqn:Ic.
  - assert (Hw : negb (Colour_eqb c white) = true)
      by (destruct c; cbn in *; congruence).
    rewrite Hw.
    set (g2 := Game.setScoreManager _ _).
    assert (Hg2 : rulesInv g2) by (split; [exact Hv' | exact Hc]).
    destruct (rulesInv_trackConsecutiveColoured g2 Hg2) as [Hv3 Hc3].
    destruct (respotColoredBall_rules i (Game.trackConsecutiveColoured g2))
      as (Esm & Ecc & _ & _).
    split.
    + change (validPlayer
                (Game.scoreManager
                   (Game.respotColoredBall i (Game.trackConsecutiveColoured g2)))).
      rewrite Esm. exact Hv3.
    + intros l _ _.
      change (1 <= Game.consecutiveColoredPotted
                     (Game.respotColoredBall i
                        (Game.trackConsecutiveColoured g2))).
      rewrite Ecc. exact Hc3.
  - destruct c; cbn in Ic; try discriminate; cbn [Colour_eqb negb].
    + split; [apply recordFoul_valid|]. intros l [= <-]. discriminate.
    + split; [exact Hv'|]. intros l [= <-]. discriminate.
Qed.

Lemma rulesInv_pocketLoop (bx by_ : Q) (i : nat) (ps : list Table.Pocket) :
  forall g, rulesInv g -> rulesInv (Game.pocketLoop bx by_ i ps g).
Proof.
  induction ps as [|p ps IH]; intros g Hg; cbn [Game.pocketLoop]; [exact Hg|].
  assert (H1 : rulesInv (if Game.inAttractionZone bx by_ p
                         then Game.attract p i g else g))
    by (destruct (Game.inAttractionZone bx by_ p); exact Hg).
  destruct (Game.inCaptureZone bx by_ p).
  - apply rulesInv_handleBallPotted. exact H1.
  - apply IH. exact H1.
Qed.

Lemma rulesInv_checkPottedBalls (g : Game.t) :
  rulesInv g -> rulesInv (Game.checkPottedBalls g).
Proof.
  unfold Game.checkPottedBalls. generalize (seq 0 (List.length (Game.balls g))).
  intro l. revert g. induction l as [|i l IH]; intros g Hg; [exact Hg|].
  cbn [fold_left]. apply IH. unfold Game.checkBall.
  destruct (nth_error (Game.balls g) i) as [ball|]; [|exact Hg].
  destruct (Ball.isPotted ball); [exact Hg|].
  apply rulesInv_pocketLoop. exact Hg.
Qed.

Lemma endShot_valid (s : ScoreManager.t) : validPlayer s -> validPlayer (endShot s).
Proof.
  intro Hv. unfold endShot.
  destruct (_ && _); [exact Hv|]. destruct (Nat.eqb _ _); [|exact Hv].
  exact (switchPlayer_valid s).
Qed.

Lemma rulesInv_handleCollisions (pairs : list (string * string)) :
  forall g, rulesInv g -> rulesInv (Game.handleCollisions pairs g).
Proof.
  unfold Game.handleCollisions.
  induction pairs as [|[a b] pairs IH]; intros g Hg; [exact Hg|].
  cbn [fold_left]. apply IH. unfold Game.handlePair.
  assert (Hhit : forall c,
             rulesInv (Game.setScoreManager g
                         (recordBallHit c (Game.scoreManager g)))).
  { intro c. destruct Hg as [Hv Hc]. split; [|exact Hc].
    unfold recordBallHit. cbn [Game.scoreManager Game.setScoreManager].
    destruct (existsb _ _); exact Hv. }
  repeat match goal with
         | |- context [match ?c with Some _ => _ | None => _ end] => destruct c
         | |- context [if ?c then _ else _] => destruct c
         end; first [exact Hg | apply Hhit | exact (conj (proj1 Hg) (proj2 Hg))].
Qed.

Lemma step_rulesInv (g g' : Game.t) : step g g' -> rulesInv g -> rulesInv g'.
Proof.
  intros Hstep Hg.
  destruct Hstep as [g bs' Hm | g | g key fuel rnd g' Hk | g x y
                     | g shot | g pairs | g sc ox oy | g ].
  - exact Hg.
  - unfold Game.update.
    assert (H2 : rulesInv
                   (if Game.ballsMoving g
                       && negb (Game.ballsMoving
                                  (Game.setBallsMoving g (Game.checkBallsMoving g)))
                    then Game.setScoreManager
                           (Game.setBallsMoving g (Game.checkBallsMoving g))
                           (endShot (Game.scoreManager
                              (Game.setBallsMoving g (Game.checkBallsMoving g))))
                    else Game.setBallsMoving g (Game.checkBallsMoving g))).
    { destruct (_ && _); [|exact Hg]. destruct Hg as [Hv Hc].
      split; [exact (endShot_valid _ Hv) | exact Hc]. }
    exact (rulesInv_checkPottedBalls _ H2).
  - unfold Game.handleKeyPress in Hk.
    assert (Hreset : forall m bm, rulesInv (Game.resetForLayout g m bm)).
    { intros m bm. split; [exact (proj1 Hg)|]. intros l [=]. }
    destruct (String.eqb key "1"); [injection Hk as <-; apply Hreset|].
    destruct (String.eqb key "2").
    { destruct (BallManager.setupRandomReds _ _ _ _); [|discriminate].
      injection Hk as <-. apply Hreset. }
    destruct (String.eqb key "3"); injection Hk as <-; [apply Hreset|exact Hg].
  - unfold Game.handleMousePress.
    destruct (Game.isPlacingCueBall g); [|exact Hg].
    match goal with |- context [if ?c then _ else _] => destruct c end;
      exact Hg.
  - unfold Game.handleMouseRelease.
    destruct (negb (Game.isPlacingCueBall g)); [|exact Hg].
    destruct (BallManager.getCueBall (Game.ballManager g)); [|exact Hg].
    destruct shot; exact Hg.
  - apply rulesInv_handleCollisions. exact Hg.
  - unfold Game.updateTablePosition.
    match goal with |- context [if ?c then _ else _] => destruct c end;
      [|exact Hg].
    unfold Game.updateCueBallPosition.
    match goal with
    | |- context [match ?c with Some _ => _ | None => _ end] => destruct c
    end; exact Hg.
  - exact Hg.
Qed.

(** Every reachable state satisfies the rule invariant, and so does every
    state in which [checkPottedBalls] calls [handleBallPotted]. *)
Lemma reachable_rulesInv (g : Game.t) : reachable g -> rulesInv g.
Proof.
  induction 1 as [sc ox oy | g g' _ IH Hstep].
  - split; [left; reflexivity | intros l [=]].
  - exact (step_rulesInv g g' Hstep IH).
Qed.
End RulesInvariant.

(* ------------------------------------------------------------------ *)
(** ** The rules on concrete games *)

Section ConcreteGames.
Import ScoreManager.
Open Scope Z_scope.

(** The game as constructed (scale 1, no offset): fifteen reds at indices
    0..14, then pink, blue, brown, green, yellow, black; no cue ball. *)
Definition newGame : Game.t := Game.constructor 1 0 0.

(** [newGame] after the cue ball has been placed at (30, 44.5); the cue
    ball is the record at index 21. *)
Definition placedGame : Game.t := Game.handleMousePress 30 44.5 newGame.

(** [newGame] after the blue ball (index 16) has been potted. *)
Definition bluePottedGame : Game.t := Game.handleBallPotted 16 newGame.

Example newGame_balls : List.length (Game.balls newGame) = 21%nat.
Proof. reflexivity. Qed.

Example newGame_ids :
  idsOf newGame
  = [ "red0"; "red1"; "red2"; "red3"; "red4"; "red5"; "red6"; "red7"; "red8";
      "red9"; "red10"; "red11"; "red12"; "red13"; "red14";
      "pink"; "blue"; "brown"; "green"; "yellow"; "black" ]%string.
Proof. reflexivity. Qed.

Example newGame_apex_red :
  exists b, nth_error (Game.balls newGame) 0 = Some b
            /\ (Ball.x b == 130)%Q /\ (Ball.y b == 44.5)%Q.
Proof. eexists. split; [reflexivity|]. split; reflexivity. Qed.

Example placedGame_cue :
  idsOf placedGame = (idsOf newGame ++ ["cue"%string])
  /\ Game.isPlacingCueBall placedGame = false.
Proof. split; vm_compute; reflexivity. Qed.

Example red_then_black_scores_eight :
  player1Score
    (Game.scoreManager
       (Game.handleBallPotted 20 (Game.handleBallPotted 0 newGame))) = 8
  /\ currentBreak
       (stats (Game.scoreManager
                 (Game.handleBallPotted 20 (Game.handleBallPotted 0 newGame))))
     = 8
  /\ Game.consecutiveColoredPotted
       (Game.handleBallPotted 20 (Game.handleBallPotted 0 newGame)) = 1.
Proof. repeat split; vm_compute; reflexivity. Qed.

Lemma placedGame_reachable : reachable placedGame.
Proof. apply (reach_step newGame); [apply reach_init | apply step_press]. Qed.

Lemma at_most_one_cue_record_witness :
  reachable placedGame
  /\ (cueCount (Game.balls placedGame) <= 1)%nat
  /\ Game.handleKeyPress "1" 0 (fun _ => (0, 0)%Q) placedGame
     = Some (Game.resetForLayout placedGame 1
               (BallManager.setupStartingPositions false
                  (Game.ballManager placedGame)))
  /\ cueCount (Game.balls
                 (Game.resetForLayout placedGame 1
                    (BallManager.setupStartingPositions false
                       (Game.ballManager placedGame)))) = 0%nat.
Proof.
  destruct at_most_one_cue_record as (_ & Hkey & _ & Hreach).
  split; [exact placedGame_reachable|].
  split; [exact (Hreach placedGame placedGame_reachable)|].
  split; [reflexivity|].
  exact (Hkey "1"%string 0%nat (fun _ => (0, 0)%Q) placedGame _ eq_refl
           (or_introl eq_refl)).
Defined.

(** C9, counterexample.  The state the constructor produces is reachable
    and holds no cue record: the cue ball is still to be placed. *)
Lemma new_game_has_no_cue_record :
  reachable newGame
  /\ cueCount (Game.balls newGame) = 0%nat
  /\ cueCount (Game.balls newGame) <> 1%nat
  /\ Game.isPlacingCueBall newGame = true.
Proof.
  split; [apply reach_init|]. split; [reflexivity|].
  split; [discriminate|reflexivity].
Qed.

(** C5, counterexample.  [handleBallPotted] does not read the potted flag:
    delivered a second time for the red ball at index 0, which the first
    delivery has marked potted, it awards the point again. *)
Lemma second_pot_scores_again :
  exists b b1,
    nth_error (Game.balls newGame) 0 = Some b
    /\ Ball.colorName b = red
    /\ nth_error (Game.balls (Game.handleBallPotted 0 newGame)) 0 = Some b1
    /\ Ball.isPotted b1 = true
    /\ player1Score (Game.scoreManager (Game.handleBallPotted 0 newGame)) = 1
    /\ player1Score
         (Game.scoreManager
            (Game.handleBallPotted 0 (Game.handleBallPotted 0 newGame))) = 2
    /\ bp_red (ballsPotted (stats (Game.scoreManager
                 (Game.handleBallPotted 0 newGame)))) = 1
    /\ bp_red (ballsPotted (stats (Game.scoreManager
                 (Game.handleBallPotted 0 (Game.handleBallPotted 0 newGame)))))
       = 2.
Proof.
  eexists. eexists.
  split; [vm_compute; reflexivity|]. split; [reflexivity|].
  split; [vm_compute; reflexivity|].
  repeat split; vm_compute; reflexivity.
Qed.

Lemma cue_ball_potted_is_foul_witness :
  validPlayer (Game.scoreManager placedGame)
  /\ scoreOf (Game.scoreManager (Game.handleBallPotted 21 placedGame)) 2 = 4
  /\ scoreOf (Game.scoreManager (Game.handleBallPotted 21 placedGame)) 1 = 0
  /\ currentPlayer (Game.scoreManager (Game.handleBallPotted 21 placedGame)) = 2
  /\ Game.isPlacingCueBall (Game.handleBallPotted 21 placedGame) = true.
Proof.
  assert (Hv : validPlayer (Game.scoreManager placedGame))
    by (left; reflexivity).
  assert (Hb : exists ball,
             nth_error (Game.balls placedGame) 21 = Some ball
             /\ Ball.colorName ball = white)
    by (eexists; split; [vm_compute; reflexivity | reflexivity]).
  destruct Hb as (ball & Hb & Hc).
  destruct (cue_ball_potted_is_foul 21 placedGame ball Hb Hc Hv)
    as (H1 & H2 & H3 & _ & _ & _ & H7 & _).
  split; [exact Hv|]. split; [exact H1|]. split; [exact H2|].
  split; [exact H3 | exact H7].
Defined.

Lemma bluePottedGame_rulesInv : rulesInv bluePottedGame.
Proof.
  apply rulesInv_handleBallPotted.
  apply reachable_rulesInv. apply reach_init.
Qed.

Lemma consecutive_colours_foul_witness :
  rulesInv bluePottedGame
  /\ Game.lastPottedBall bluePottedGame = Some blue
  /\ scoreOf (Game.scoreManager (Game.handleBallPotted 20 bluePottedGame)) 1
     = 5 + 7
  /\ scoreOf (Game.scoreManager (Game.handleBallPotted 20 bluePottedGame)) 2
     = 4
  /\ currentPlayer (Game.scoreManager (Game.handleBallPotted 20 bluePottedGame))
     = 2.
Proof.
  assert (Hb : exists ball,
             nth_error (Game.balls bluePottedGame) 20 = Some ball
             /\ isColoured (Ball.colorName ball) = true
             /\ ballValues (Ball.colorName ball) = 7)
    by (eexists; split; [vm_compute; reflexivity | split; reflexivity]).
  destruct Hb as (ball & Hb & Hc & Hval).
  assert (Hl : Game.lastPottedBall bluePottedGame = Some blue)
    by (vm_compute; reflexivity).
  destruct (consecutive_colours_foul 20 bluePottedGame ball blue Hb Hc Hl
              eq_refl bluePottedGame_rulesInv)
    as (_ & H2 & H3 & H4 & _).
  rewrite Hval in H2.
  split; [exact bluePottedGame_rulesInv|]. split; [exact Hl|].
  split; [exact H2|]. split; [exact H3 | exact H4].
Defined.
End ConcreteGames.

(* ================================================================== *)
(** * Further properties of the rules engine *)

(* ------------------------------------------------------------------ *)
(** ** Invariants of the score manager over the reachable states *)

Section ScoreInvariants.
Import ScoreManager.
Open Scope Z_scope.

(** A property of the score manager that every call the game makes on it
    preserves.  The game records a pot only for a ball that is not white
    and records fouls with the default penalty. *)
Record smClosed (P : ScoreManager.t -> Prop) : Prop := mkSmClosed {
  closed_pot : forall c s, c <> white -> P s -> P (recordBallPotted c s);
  closed_foul : forall reason s, P s -> P (recordFoul reason None s);
  closed_endShot : forall s, P s -> P (endShot s);
  closed_startNewShot : forall s, P s -> P (startNewShot s);
  closed_hit : forall c s, P s -> P (recordBallHit c s);
  closed_cushion : forall s, P s -> P (recordCushionHit s)
}.

Lemma trackConsecutiveColoured_scoreManager (g : Game.t) :
  Game.scoreManager (Game.trackConsecutiveColoured g) = Game.scoreManager g
  \/ Game.scoreManager (Game.trackConsecutiveColoured g)
     = recordFoul "Two consecutive colored balls potted" None
         (Game.scoreManager g).
Proof.
  unfold Game.trackConsecutiveColoured.
  repeat match goal with
         | |- context [match ?c with Some _ => _ | None => _ end] => destruct c
         | |- context [if ?c then _ else _] => destruct c
         end; auto.
Qed.

(** The calls [handleBallPotted] makes on the score manager. *)
Lemma handleBallPotted_scoreManager (i : nat) (g : Game.t) :
  let s := Game.scoreManager g in
  let s' := Game.scoreManager (Game.handleBallPotted i g) in
  s' = s
  \/ s' = recordFoul "Cue ball potted" None s
  \/ exists c, c <> white
       /\ (s' = recordBallPotted c s
           \/ s' = recordFoul "Two consecutive colored balls potted" None
                     (recordBallPotted c s)).
Proof.
  cbv zeta. unfold Game.handleBallPotted.
  destruct (nth_error (Game.balls g) i) as [ball|]; [|left; reflexivity].
  cbv zeta. set (c := Ball.colorName ball).
  set (g1 := Game.updBall i _ g).
  destruct (isColoured c) eqn:Ic.
  - assert (Hw : c <> white) by (intros ->; discriminate).
    assert (Hn : negb (Colour_eqb c white) = true)
      by (destruct c; cbn in *; congruence).
    rewrite Hn. set (g2 := Game.setScoreManager g1 _).
    destruct (respotColoredBall_rules i (Game.trackConsecutiveColoured g2))
      as (Esm & _).
    change (Game.scoreManager (Game.setLastPottedBall ?x _))
      with (Game.scoreManager x).
    rewrite Esm. right. right. exists c. split; [exact Hw|].
    destruct (trackConsecutiveColoured_scoreManager g2) as [-> | ->];
      [left | right]; reflexivity.
  - destruct c; cbn in Ic; try discriminate; cbn [Colour_eqb negb].
    + right. left. reflexivity.
    + right. right. exists red. split; [discriminate|]. left. reflexivity.
Qed.

Section Closed.
Variable P : ScoreManager.t -> Prop.
Hypothesis HP : smClosed P.

Lemma closed_handleBallPotted (i : nat) (g : Game.t) :
  P (Game.scoreManager g) -> P (Game.scoreManager (Game.handleBallPotted i g)).
Proof.
  intro H. destruct (handleBallPotted_scoreManager i g)
    as [-> | [-> | (c & Hc & [-> | ->])]].
  - exact H.
  - apply (closed_foul P HP), H.
  - apply (closed_pot P HP); assumption.
  - apply (closed_foul P HP), (closed_pot P HP); assumption.
Qed.

Lemma closed_pocketLoop (bx by_ : Q) (i : nat) (ps : list Table.Pocket) :
  forall g, P (Game.scoreManager g) ->
            P (Game.scoreManager (Game.pocketLoop bx by_ i ps g)).
Proof.
  induction ps as [|p ps IH]; intros g Hg; cbn [Game.pocketLoop]; [exact Hg|].
  assert (H1 : P (Game.scoreManager
                    (if Game.inAttractionZone bx by_ p
                     then Game.attract p i g else g)))
    by (destruct (Game.inAttractionZone bx by_ p); exact Hg).
  destruct (Game.inCaptureZone bx by_ p).
  - apply closed_handleBallPotted. exact H1.
  - apply IH. exact H1.
Qed.

Lemma closed_checkPottedBalls (g : Game.t) :
  P (Game.scoreManager g) -> P (Game.scoreManager (Game.checkPottedBalls g)).
Proof.
  unfold Game.checkPottedBalls. generalize (seq 0 (List.length (Game.balls g))).
  intro l. revert g. induction l as [|i l IH]; intros g Hg; [exact Hg|].
  cbn [fold_left]. apply IH. unfold Game.checkBall.
  destruct (nth_error (Game.balls g) i) as [ball|]; [|exact Hg].
  destruct (Ball.isPotted ball); [exact Hg|].
  apply closed_pocketLoop. exact Hg.
Qed.

Lemma closed_handleCollisions (pairs : list (string * string)) :
  forall g, P (Game.scoreManager g) ->
            P (Game.scoreManager (Game.handleCollisions pairs g)).
Proof.
  unfold Game.handleCollisions.
  induction pairs as [|[a b] pairs IH]; intros g Hg; [exact Hg|].
  cbn [fold_left]. apply IH. unfold Game.handlePair.
  repeat match goal with
         | |- context [match ?c with Some _ => _ | None => _ end] => destruct c
         | |- context [if ?c then _ else _] => destruct c
         end;
    first [exact Hg
          | apply (closed_hit P HP); exact Hg
          | apply (closed_cushion P HP); exact Hg].
Qed.

Lemma closed_step (g g' : Game.t) :
  step g g' -> P (Game.scoreManager g) -> P (Game.scoreManager g').
Proof.
  intros Hstep Hg.
  destruct Hstep as [g bs' Hm | g | g key fuel rnd g' Hk | g x y
                     | g shot | g pairs | g sc ox oy | g ].
  - exact Hg.
  - unfold Game.update.
    change (Game.scoreManager (Game.checkEscapedBalls ?x))
      with (Game.scoreManager x).
    apply closed_checkPottedBalls.
    destruct (_ && _); [|exact Hg]. apply (closed_endShot P HP). exact Hg.
  - unfold Game.handleKeyPress in Hk.
    destruct (String.eqb key "1"); [injection Hk as <-; exact Hg|].
    destruct (String.eqb key "2").
    { destruct (BallManager.setupRandomReds _ _ _ _); [|discriminate].
      injection Hk as <-. exact Hg. }
    destruct (String.eqb key "3"); injection Hk as <-; exact Hg.
  - unfold Game.handleMousePress.
    destruct (Game.isPlacingCueBall g); [|exact Hg].
    match goal with |- context [if ?c then _ else _] => destruct c end;
      exact Hg.
  - unfold Game.handleMouseRelease.
    destruct (negb (Game.isPlacingCueBall g)); [|exact Hg].
    destruct (BallManager.getCueBall (Game.ballManager g)); [|exact Hg].
    destruct shot; [|exact Hg]. apply (closed_startNewShot P HP). exact Hg.
  - apply closed_handleCollisions. exact Hg.
  - unfold Game.updateTablePosition.
    match goal with |- context [if ?c then _ else _] => destruct c end;
      [|exact Hg].
    unfold Game.updateCueBallPosition.
    match goal with
    | |- context [match ?c with Some _ => _ | None => _ end] => destruct c
    end; exact Hg.
  - exact Hg.
Qed.

Lemma closed_reachable (g : Game.t) :
  P ScoreManager.constructor -> reachable g -> P (Game.scoreManager g).
Proof.
  intros H0 Hr. induction Hr as [sc ox oy | g g' _ IH Hstep].
  - exact H0.
  - exact (closed_step g g' Hstep IH).
Qed.
End Closed.

(** *** The event log is capped *)

Lemma removelast_length {A : Type} (l : list A) :
  List.length (removelast l) = pred (List.length l).
Proof.
  induction l as [|a l IH]; [reflexivity|].
  destruct l as [|b l]; [reflexivity|].
  change (removelast (a :: b :: l)) with (a :: removelast (b :: l)).
  cbn [List.length]. rewrite IH. reflexivity.
Qed.

Definition logCapped (s : ScoreManager.t) : Prop :=
  (List.length (recentEvents s) <= maxRecentEvents)%nat.

Lemma addEvent_capped (e : Event) (s : ScoreManager.t) :
  logCapped s -> logCapped (addEvent e s).
Proof.
  unfold logCapped, addEvent, maxRecentEvents. cbn [recentEvents]. intro H.
  destruct (Nat.ltb 5 (List.length (e :: recentEvents s))) eqn:E.
  - rewrite removelast_length. cbn [List.length]. cbn. exact H.
  - apply Nat.ltb_ge in E. exact E.
Qed.

Lemma switchPlayer_capped (s : ScoreManager.t) :
  logCapped s -> logCapped (switchPlayer s).
Proof. intro H. unfold switchPlayer. apply addEvent_capped. exact H. Qed.

Lemma logCapped_closed : smClosed logCapped.
Proof.
  constructor.
  - intros c s _ H. unfold recordBallPotted.
    destruct (0 <? ballValues c); apply addEvent_capped; exact H.
  - intros reason s H. unfold recordFoul.
    apply switchPlayer_capped, addEvent_capped. exact H.
  - intros s H. unfold endShot.
    destruct (_ && _); [exact H|]. destruct (Nat.eqb _ _); [|exact H].
    exact (switchPlayer_capped s H).
  - intros s H. exact H.
  - intros c s H. unfold recordBallHit. destruct (existsb _ _); exact H.
  - intros s H. exact H.
Qed.

(** X1. In every reachable state the log of recent events holds at most
    [maxRecentEvents] = 5 entries. *)
Theorem reachable_log_capped (g : Game.t) :
  reachable g ->
  (List.length (recentEvents (Game.scoreManager g)) <= 5)%nat.
Proof.
  intro Hr. apply (closed_reachable logCapped logCapped_closed g); [|exact Hr].
  unfold logCapped. cbn. lia.
Qed.

(** *** Where the points come from *)

Definition potPoints (b : BallsPotted) : Z :=
  bp_red b + 2 * bp_yellow b + 3 * bp_green b + 4 * bp_brown b
  + 5 * bp_blue b + 6 * bp_pink b + 7 * bp_black b.

Definition accounted (s : ScoreManager.t) : Prop :=
  player1Score s + player2Score s
  = potPoints (ballsPotted (stats s)) + 4 * fouls (stats s).

Lemma accounted_closed : smClosed accounted.
Proof.
  constructor.
  - intros c s _. unfold accounted, recordBallPotted, addEvent, potPoints.
    destruct (currentPlayer s =? 1); destruct c; cbn -[Z.mul Z.add]; lia.
  - intros reason s. unfold accounted, recordFoul, switchPlayer, addEvent.
    destruct (currentPlayer s =? 1); cbn -[Z.mul Z.add]; lia.
  - intros s. unfold accounted, endShot, switchPlayer, addEvent.
    destruct (_ && _); [cbn -[Z.mul Z.add]; lia|].
    destruct (Nat.eqb _ _); cbn -[Z.mul Z.add]; lia.
  - intros s. unfold accounted, startNewShot. cbn -[Z.mul Z.add]. lia.
  - intros c s. unfold accounted, recordBallHit.
    destruct (existsb _ _); cbn -[Z.mul Z.add]; lia.
  - intros s. unfold accounted, recordCushionHit. cbn -[Z.mul Z.add]. lia.
Qed.

(** X2. In every reachable state the two scores add up to the value of the
    balls counted as potted plus four points per foul. *)
Theorem reachable_scores_accounted (g : Game.t) :
  reachable g ->
  player1Score (Game.scoreManager g) + player2Score (Game.scoreManager g)
  = potPoints (ballsPotted (stats (Game.scoreManager g)))
    + 4 * fouls (stats (Game.scoreManager g)).
Proof.
  intro Hr. apply (closed_reachable accounted accounted_closed g); [|exact Hr].
  reflexivity.
Qed.

(** *** Breaks and counters *)

Definition breakBounded (s : ScoreManager.t) : Prop :=
  0 <= currentBreak (stats s) <= highestBreak (stats s)
  /\ 0 <= player1Score s /\ 0 <= player2Score s
  /\ 0 <= fouls (stats s).

Lemma breakBounded_closed : smClosed breakBounded.
Proof.
  constructor.
  - intros c s _. unfold breakBounded, recordBallPotted, addEvent.
    destruct (currentPlayer s =? 1); destruct c; cbn [ballValues];
      repeat match goal with
             | |- context [?a <? ?b] => destruct (Z.ltb_spec a b)
             end;
      cbn -[Z.mul Z.add Z.ltb]; lia.
  - intros reason s. unfold breakBounded, recordFoul, switchPlayer, addEvent.
    destruct (currentPlayer s =? 1); cbn -[Z.mul Z.add]; lia.
  - intros s. unfold breakBounded, endShot, switchPlayer, addEvent.
    destruct (_ && _); [cbn -[Z.mul Z.add]; lia|].
    destruct (Nat.eqb _ _); cbn -[Z.mul Z.add]; lia.
  - intros s. unfold breakBounded, startNewShot. cbn -[Z.mul Z.add]. lia.
  - intros c s. unfold breakBounded, recordBallHit.
    destruct (existsb _ _); cbn -[Z.mul Z.add]; lia.
  - intros s. unfold breakBounded, recordCushionHit. cbn -[Z.mul Z.add]. lia.
Qed.

(** X3. In every reachable state the current break lies between 0 and the
    highest break, and neither score is negative. *)
Theorem reachable_break_bounded (g : Game.t) :
  reachable g ->
  0 <= currentBreak (stats (Game.scoreManager g))
       <= highestBreak (stats (Game.scoreManager g))
  /\ 0 <= player1Score (Game.scoreManager g)
  /\ 0 <= player2Score (Game.scoreManager g).
Proof.
  intro Hr.
  destruct (closed_reachable breakBounded breakBounded_closed g) as (A & B & C & _);
    [unfold breakBounded; cbn; lia | exact Hr |].
  repeat split; try tauto; lia.
Qed.

Definition totalCounted (s : ScoreManager.t) : Prop :=
  let b := ballsPotted (stats s) in
  bp_total b
  = bp_red b + bp_yellow b + bp_green b + bp_brown b + bp_blue b + bp_pink b
    + bp_black b.

Lemma totalCounted_closed : smClosed totalCounted.
Proof.
  constructor.
  - intros c s Hc. unfold totalCounted, recordBallPotted, addEvent.
    destruct c; try congruence; cbn -[Z.mul Z.add]; lia.
  - intros reason s. unfold totalCounted, recordFoul, switchPlayer, addEvent.
    cbn -[Z.mul Z.add]. lia.
  - intros s. unfold totalCounted, endShot, switchPlayer, addEvent.
    destruct (_ && _); [cbn -[Z.mul Z.add]; lia|].
    destruct (Nat.eqb _ _); cbn -[Z.mul Z.add]; lia.
  - intros s. unfold totalCounted, startNewShot. cbn -[Z.mul Z.add]. lia.
  - intros c s. unfold totalCounted, recordBallHit.
    destruct (existsb _ _); cbn -[Z.mul Z.add]; lia.
  - intros s. unfold totalCounted, recordCushionHit. cbn -[Z.mul Z.add]. lia.
Qed.

(** X4. In every reachable state [ballsPotted.total] is the sum of the seven
    per-colour counters: the game never records the cue ball as a pot. *)
Theorem reachable_total_counted (g : Game.t) :
  reachable g ->
  bp_total (ballsPotted (stats (Game.scoreManager g)))
  = bp_red (ballsPotted (stats (Game.scoreManager g)))
    + bp_yellow (ballsPotted (stats (Game.scoreManager g)))
    + bp_green (ballsPotted (stats (Game.scoreManager g)))
    + bp_brown (ballsPotted (stats (Game.scoreManager g)))
    + bp_blue (ballsPotted (stats (Game.scoreManager g)))
    + bp_pink (ballsPotted (stats (Game.scoreManager g)))
    + bp_black (ballsPotted (stats (Game.scoreManager g))).
Proof.
  intro Hr.
  apply (closed_reachable totalCounted totalCounted_closed g); [|exact Hr].
  reflexivity.
Qed.
End ScoreInvariants.

(* ------------------------------------------------------------------ *)
(** ** A reachable game in which a red has been potted by the pass *)

Section PlayedGame.
Import ScoreManager.
Open Scope Z_scope.

(** [placedGame] after the physics has carried the apex red to (1, 1),
    next to the top-left corner pocket. *)
Definition redAtCornerGame : Game.t :=
  Game.setBallManager placedGame
    (BallManager.setBalls (Game.ballManager placedGame)
       (updateAt 0
          (fun b => Ball.setBody b
                      (Body.setPosition (Ball.body b) (mkVector 1 1)))
          (Game.balls placedGame))).

(** ... and after the next [update]. *)
Definition redPottedGame : Game.t := Game.update redAtCornerGame.

Lemma redPottedGame_reachable : reachable redPottedGame.
Proof.
  apply (reach_step redAtCornerGame); [|apply step_update].
  apply (reach_step placedGame); [exact placedGame_reachable|].
  unfold redAtCornerGame. apply step_physics.
  vm_compute. repeat (constructor; [repeat split|]). constructor.
Qed.

Example redPottedGame_score :
  player1Score (Game.scoreManager redPottedGame) = 1
  /\ bp_red (ballsPotted (stats (Game.scoreManager redPottedGame))) = 1
  /\ Game.lastPottedBall redPottedGame = Some red.
Proof. repeat split; vm_compute; reflexivity. Qed.

Lemma reachable_log_capped_witness :
  reachable redPottedGame
  /\ (List.length (recentEvents (Game.scoreManager redPottedGame)) <= 5)%nat.
Proof.
  split; [exact redPottedGame_reachable|].
  exact (reachable_log_capped redPottedGame redPottedGame_reachable).
Defined.

Lemma reachable_scores_accounted_witness :
  reachable redPottedGame
  /\ player1Score (Game.scoreManager redPottedGame)
     + player2Score (Game.scoreManager redPottedGame) = 1.
Proof.
  split; [exact redPottedGame_reachable|].
  exact (reachable_scores_accounted redPottedGame redPottedGame_reachable).
Defined.

Lemma reachable_break_bounded_witness :
  reachable redPottedGame
  /\ 0 <= currentBreak (stats (Game.scoreManager redPottedGame))
          <= highestBreak (stats (Game.scoreManager redPottedGame)).
Proof.
  split; [exact redPottedGame_reachable|].
  exact (proj1 (reachable_break_bounded redPottedGame redPottedGame_reachable)).
Defined.

Lemma reachable_total_counted_witness :
  reachable redPottedGame
  /\ bp_total (ballsPotted (stats (Game.scoreManager redPottedGame))) = 1.
Proof.
  split; [exact redPottedGame_reachable|].
  exact (reachable_total_counted redPottedGame redPottedGame_reachable).
Defined.

End PlayedGame.

(* ------------------------------------------------------------------ *)
(** ** Pots that are not fouls, and the end of the shot after a foul *)

Section PotOutcomes.
Import ScoreManager.
Open Scope Z_scope.

Lemma recordBallPotted_shot (c : Colour) (s : ScoreManager.t) :
  c <> white ->
  currentBreak (stats (recordBallPotted c s))
    = currentBreak (stats s) + ballValues c
  /\ highestBreak (stats (recordBallPotted c s))
    = Z.max (highestBreak (stats s)) (currentBreak (stats s) + ballValues c)
  /\ shotBallsPotted (currentShot (recordBallPotted c s))
    = shotBallsPotted (currentShot s) ++ [c]
  /\ isValid (currentShot (recordBallPotted c s)) = isValid (currentShot s)
  /\ ballsHit (currentShot (recordBallPotted c s)) = ballsHit (currentShot s).
Proof.
  intro Hc. unfold recordBallPotted, addEvent.
  destruct c; try congruence; cbn [ballValues];
    repeat match goal with
           | |- context [?a <? ?b] => destruct (Z.ltb_spec a b)
           end;
    cbn -[Z.add Z.max]; repeat split; lia.
Qed.

(** [handleBallPotted] for a red ball. *)
Lemma handleBallPotted_red (i : nat) (g : Game.t) (ball : Ball.t) :
  nth_error (Game.balls g) i = Some ball ->
  Ball.colorName ball = red ->
  Game.handleBallPotted i g
  = Game.setLastPottedBall
      (Game.setConsecutiveColoredPotted
         (Game.setScoreManager (Game.updBall i pot g)
            (recordBallPotted red (Game.scoreManager g)))
         0)
      (Some red).
Proof.
  intros Hb Hc. unfold Game.handleBallPotted. rewrite Hb, Hc. reflexivity.
Qed.

(** [handleBallPotted] for a colour that does not follow a colour. *)
Lemma handleBallPotted_first_colour (i : nat) (g : Game.t) (ball : Ball.t) :
  nth_error (Game.balls g) i = Some ball ->
  isColoured (Ball.colorName ball) = true ->
  (forall l, Game.lastPottedBall g = Some l -> isColoured l = false) ->
  Game.handleBallPotted i g
  = Game.setLastPottedBall
      (Game.respotColoredBall i
         (Game.setConsecutiveColoredPotted
            (Game.setScoreManager (Game.updBall i pot g)
               (recordBallPotted (Ball.colorName ball) (Game.scoreManager g)))
            1))
      (Some (Ball.colorName ball)).
Proof.
  intros Hb Hc Hl. unfold Game.handleBallPotted. rewrite Hb.
  assert (Hw : negb (Colour_eqb (Ball.colorName ball) white) = true)
    by (destruct (Ball.colorName ball); cbn in *; congruence).
  rewrite Hw, Hc. unfold Game.trackConsecutiveColoured.
  change (Game.lastPottedBall (Game.setScoreManager (Game.updBall i _ g) _))
    with (Game.lastPottedBall g).
  destruct (Game.lastPottedBall g) as [l|]; [|reflexivity].
  rewrite (Hl l eq_refl). reflexivity.
Qed.

(** X8. Potting a red: one point and one more of break for the current player,
    who keeps the turn; no foul; the consecutive-colour counter returns to
    0; the ball stays potted, its body out of the world. *)
Theorem red_potted_scores_one (i : nat) (g : Game.t) (ball : Ball.t) :
  nth_error (Game.balls g) i = Some ball ->
  Ball.colorName ball = red ->
  validPlayer (Game.scoreManager g) ->
  scoreOf (Game.scoreManager (Game.handleBallPotted i g))
          (currentPlayer (Game.scoreManager g))
    = scoreOf (Game.scoreManager g) (currentPlayer (Game.scoreManager g)) + 1
  /\ scoreOf (Game.scoreManager (Game.handleBallPotted i g))
             (opponent (currentPlayer (Game.scoreManager g)))
    = scoreOf (Game.scoreManager g)
              (opponent (currentPlayer (Game.scoreManager g)))
  /\ currentPlayer (Game.scoreManager (Game.handleBallPotted i g))
    = currentPlayer (Game.scoreManager g)
  /\ currentBreak (stats (Game.scoreManager (Game.handleBallPotted i g)))
    = currentBreak (stats (Game.scoreManager g)) + 1
  /\ fouls (stats (Game.scoreManager (Game.handleBallPotted i g)))
    = fouls (stats (Game.scoreManager g))
  /\ Game.consecutiveColoredPotted (Game.handleBallPotted i g) = 0
  /\ Game.lastPottedBall (Game.handleBallPotted i g) = Some red
  /\ nth_error (Game.balls (Game.handleBallPotted i g)) i = Some (pot ball).
Proof.
  intros Hb Hc Hv. rewrite (handleBallPotted_red i g ball Hb Hc).
  destruct (recordBallPotted_effect red (Game.scoreManager g) Hv)
    as (P1 & P2 & P3 & P4).
  destruct (recordBallPotted_shot red (Game.scoreManager g)) as (Q1 & _);
    [discriminate|].
  repeat split; try assumption.
  apply nth_error_updateAt_same. exact Hb.
Qed.

(** X9. Potting a colour when the last potted ball is not a colour (a red, the
    cue ball, or none since the layout): the current player gets the value
    of the colour and keeps the turn, no foul is recorded, and the
    consecutive-colour counter is set to 1. *)
Theorem first_colour_is_no_foul (i : nat) (g : Game.t) (ball : Ball.t) :
  nth_error (Game.balls g) i = Some ball ->
  isColoured (Ball.colorName ball) = true ->
  (forall l, Game.lastPottedBall g = Some l -> isColoured l = false) ->
  validPlayer (Game.scoreManager g) ->
  scoreOf (Game.scoreManager (Game.handleBallPotted i g))
          (currentPlayer (Game.scoreManager g))
    = scoreOf (Game.scoreManager g) (currentPlayer (Game.scoreManager g))
      + ballValues (Ball.colorName ball)
  /\ scoreOf (Game.scoreManager (Game.handleBallPotted i g))
             (opponent (currentPlayer (Game.scoreManager g)))
    = scoreOf (Game.scoreManager g)
              (opponent (currentPlayer (Game.scoreManager g)))
  /\ currentPlayer (Game.scoreManager (Game.handleBallPotted i g))
    = currentPlayer (Game.scoreManager g)
  /\ fouls (stats (Game.scoreManager (Game.handleBallPotted i g)))
    = fouls (stats (Game.scoreManager g))
  /\ isValid (currentShot (Game.scoreManager (Game.handleBallPotted i g)))
    = isValid (currentShot (Game.scoreManager g))
  /\ Game.consecutiveColoredPotted (Game.handleBallPotted i g) = 1
  /\ Game.lastPottedBall (Game.handleBallPotted i g)
    = Some (Ball.colorName ball).
Proof.
  intros Hb Hc Hl Hv. rewrite (handleBallPotted_first_colour i g ball Hb Hc Hl).
  set (g0 := Game.setConsecutiveColoredPotted _ 1).
  destruct (respotColoredBall_rules i g0) as (Esm & Ecc & _ & _).
  cbn [Game.scoreManager Game.setLastPottedBall Game.consecutiveColoredPotted
       Game.lastPottedBall].
  rewrite Esm, Ecc. subst g0.
  cbn [Game.scoreManager Game.setConsecutiveColoredPotted
       Game.setScoreManager Game.consecutiveColoredPotted].
  destruct (recordBallPotted_effect (Ball.colorName ball)
              (Game.scoreManager g) Hv) as (P1 & P2 & P3 & P4).
  assert (Hw : Ball.colorName ball <> white)
    by (intro E; rewrite E in Hc; discriminate).
  destruct (recordBallPotted_shot (Ball.colorName ball)
              (Game.scoreManager g) Hw) as (_ & _ & _ & Q4 & _).
  repeat split; assumption.
Qed.

(** X10. The cue ball potted in a shot that has no recorded pot: the foul
    switches the player, and [endShot], finding no ball potted (the cue
    ball is not recorded as one), switches back.  After the shot the turn
    is again with the player who potted the cue ball; the opponent has
    received the 4 points. *)
Theorem cue_pot_alone_returns_turn (i : nat) (g : Game.t) (ball : Ball.t) :
  nth_error (Game.balls g) i = Some ball ->
  Ball.colorName ball = white ->
  validPlayer (Game.scoreManager g) ->
  shotBallsPotted (currentShot (Game.scoreManager g)) = [] ->
  currentPlayer (Game.scoreManager (Game.handleBallPotted i g))
    = opponent (currentPlayer (Game.scoreManager g))
  /\ currentPlayer (endShot (Game.scoreManager (Game.handleBallPotted i g)))
    = currentPlayer (Game.scoreManager g)
  /\ scoreOf (endShot (Game.scoreManager (Game.handleBallPotted i g)))
             (opponent (currentPlayer (Game.scoreManager g)))
    = scoreOf (Game.scoreManager g)
              (opponent (currentPlayer (Game.scoreManager g))) + 4.
Proof.
  intros Hb Hc Hv He. rewrite (handleBallPotted_white i g ball Hb Hc).
  cbn [Game.scoreManager Game.setLastPottedBall Game.recordFoul
       Game.setScoreManager Game.setIsPlacingCueBall Game.updBall
       Game.setBallManager].
  set (s := Game.scoreManager g) in *.
  destruct (recordFoul_effect "Cue ball potted" None s Hv)
    as (H1 & _ & H3 & _ & _ & _ & _ & _ & H9 & _).
  cbv zeta in *. change (Z.max 4 4) with 4 in *.
  set (s1 := recordFoul "Cue ball potted" None s) in *.
  assert (Hv1 : validPlayer s1) by apply recordFoul_valid.
  assert (Hend : endShot s1
                 = let s2 := switchPlayer s1 in
                   ScoreManager.mk (player1Score s2) (player2Score s2)
                     (currentPlayer s2)
                     (mkStats (totalShots (stats s2)) (successfulShots (stats s2))
                        (fouls (stats s2)) (highestBreak (stats s2)) 0
                        (ballsPotted (stats s2)))
                     (currentShot s2) (recentEvents s2)).
  { unfold endShot. rewrite H9, He. reflexivity. }
  split; [exact H3|]. rewrite Hend. cbv zeta.
  destruct (switchPlayer_fields s1) as (F1 & F2 & _ & _).
  split.
  - cbn [currentPlayer]. rewrite (switchPlayer_player s1 Hv1), H3.
    unfold opponent. lia.
  - unfold scoreOf in *. cbn [player1Score player2Score].
    rewrite F1, F2. exact H1.
Qed.

(** X11. A foul recorded in a shot that already has a recorded pot (the
    consecutive-colour foul) is not undone: [endShot] then changes
    nothing, and the turn stays with the opponent. *)
Theorem foul_after_pot_keeps_switch (reason : string) (s : ScoreManager.t) :
  validPlayer s ->
  shotBallsPotted (currentShot s) <> [] ->
  endShot (recordFoul reason None s) = recordFoul reason None s
  /\ currentPlayer (endShot (recordFoul reason None s))
     = opponent (currentPlayer s).
Proof.
  intros Hv Hne.
  destruct (recordFoul_effect reason None s Hv)
    as (_ & _ & H3 & _ & _ & _ & _ & H8 & H9 & _).
  cbv zeta in *.
  assert (Hend : endShot (recordFoul reason None s) = recordFoul reason None s).
  { unfold endShot at 1. rewrite H8, H9.
    destruct (shotBallsPotted (currentShot s)) as [|c l]; [congruence|].
    reflexivity. }
  rewrite Hend. split; [reflexivity | exact H3].
Qed.

(** *** Balls hit by the cue ball *)

Lemma Colour_eqb_eq (a b : Colour) : Colour_eqb a b = true <-> a = b.
Proof. destruct a, b; cbn; split; intro H; congruence. Qed.

Lemma existsb_Colour (c : Colour) (l : list Colour) :
  existsb (Colour_eqb c) l = true <-> In c l.
Proof.
  rewrite existsb_exists. split.
  - intros (x & Hin & Hx). apply Colour_eqb_eq in Hx. subst. exact Hin.
  - intro Hin. exists c. split; [exact Hin|]. apply Colour_eqb_eq. reflexivity.
Qed.

Lemma recordBallHit_once (c : Colour) (s : ScoreManager.t) :
  In c (ballsHit (currentShot (recordBallHit c s)))
  /\ (NoDup (ballsHit (currentShot s)) ->
      NoDup (ballsHit (currentShot (recordBallHit c s))))
  /\ recordBallHit c (recordBallHit c s) = recordBallHit c s.
Proof.
  destruct (existsb (Colour_eqb c) (ballsHit (currentShot s))) eqn:E.
  - assert (Hs : recordBallHit c s = s)
      by (unfold recordBallHit; rewrite E; reflexivity).
    repeat rewrite Hs.
    split; [apply existsb_Colour; exact E|]. split; [auto | reflexivity].
  - assert (Hs : recordBallHit c s
                 = ScoreManager.mk (player1Score s) (player2Score s)
                     (currentPlayer s) (stats s)
                     (mkShot (ballsHit (currentShot s) ++ [c])
                        (shotBallsPotted (currentShot s))
                        (cushionsHit (currentShot s)) (isValid (currentShot s)))
                     (recentEvents s))
      by (unfold recordBallHit; rewrite E; reflexivity).
    rewrite Hs. cbn [currentShot ballsHit].
    split; [apply in_or_app; right; left; reflexivity|]. split.
    + intro Hnd. apply NoDup_app.
      * exact Hnd.
      * constructor; [intros []|constructor].
      * intros a Ha [<- | []]. apply existsb_Colour in Ha. congruence.
    + unfold recordBallHit. cbn [currentShot ballsHit].
      assert (E' : existsb (Colour_eqb c) (ballsHit (currentShot s) ++ [c]) = true)
        by (apply existsb_Colour, in_or_app; right; left; reflexivity).
      rewrite E'. reflexivity.
Qed.

Definition hitsDistinct (s : ScoreManager.t) : Prop :=
  NoDup (ballsHit (currentShot s)).

Lemma hitsDistinct_closed : smClosed hitsDistinct.
Proof.
  constructor.
  - intros c s Hc H. unfold hitsDistinct.
    rewrite (proj2 (proj2 (proj2 (proj2 (recordBallPotted_shot c s Hc))))).
    exact H.
  - intros reason s H. exact H.
  - intros s H. unfold hitsDistinct, endShot.
    destruct (_ && _); [exact H|]. destruct (Nat.eqb _ _); exact H.
  - intros s _. constructor.
  - intros c s H. unfold hitsDistinct.
    destruct (existsb (Colour_eqb c) (ballsHit (currentShot s))) eqn:E;
      unfold recordBallHit; rewrite E; [exact H|].
    cbn [currentShot ballsHit]. apply NoDup_app.
    + exact H.
    + constructor; [intros []|constructor].
    + intros a Ha [<- | []]. apply existsb_Colour in Ha. congruence.
  - intros s H. exact H.
Qed.
End PotOutcomes.

Section PotOutcomesOnGames.
Import ScoreManager.
Open Scope Z_scope.

(** X6. In every reachable state the list of balls hit in the current shot
    holds no colour twice. *)
Theorem reachable_hits_distinct (g : Game.t) :
  reachable g -> NoDup (ballsHit (currentShot (Game.scoreManager g))).
Proof.
  intro Hr.
  apply (closed_reachable hitsDistinct hitsDistinct_closed g); [|exact Hr].
  constructor.
Qed.

Lemma reachable_hits_distinct_witness :
  reachable redPottedGame
  /\ NoDup (ballsHit (currentShot (Game.scoreManager redPottedGame))).
Proof.
  split; [exact redPottedGame_reachable|].
  exact (reachable_hits_distinct redPottedGame redPottedGame_reachable).
Defined.

Lemma red_potted_scores_one_witness :
  validPlayer (Game.scoreManager newGame)
  /\ scoreOf (Game.scoreManager (Game.handleBallPotted 0 newGame)) 1 = 1
  /\ currentPlayer (Game.scoreManager (Game.handleBallPotted 0 newGame)) = 1
  /\ Game.consecutiveColoredPotted (Game.handleBallPotted 0 newGame) = 0.
Proof.
  assert (Hv : validPlayer (Game.scoreManager newGame)) by (left; reflexivity).
  assert (Hb : exists ball,
             nth_error (Game.balls newGame) 0 = Some ball
             /\ Ball.colorName ball = red)
    by (eexists; split; [vm_compute; reflexivity | reflexivity]).
  destruct Hb as (ball & Hb & Hc).
  destruct (red_potted_scores_one 0 newGame ball Hb Hc Hv)
    as (H1 & _ & H3 & _ & _ & H6 & _).
  split; [exact Hv|]. split; [exact H1|]. split; [exact H3 | exact H6].
Defined.

Lemma first_colour_is_no_foul_witness :
  validPlayer (Game.scoreManager newGame)
  /\ Game.lastPottedBall newGame = None
  /\ scoreOf (Game.scoreManager (Game.handleBallPotted 16 newGame)) 1 = 5
  /\ currentPlayer (Game.scoreManager (Game.handleBallPotted 16 newGame)) = 1
  /\ fouls (stats (Game.scoreManager (Game.handleBallPotted 16 newGame))) = 0
  /\ Game.consecutiveColoredPotted (Game.handleBallPotted 16 newGame) = 1.
Proof.
  assert (Hv : validPlayer (Game.scoreManager newGame)) by (left; reflexivity).
  assert (Hb : exists ball,
             nth_error (Game.balls newGame) 16 = Some ball
             /\ isColoured (Ball.colorName ball) = true
             /\ ballValues (Ball.colorName ball) = 5)
    by (eexists; split; [vm_compute; reflexivity | split; reflexivity]).
  destruct Hb as (ball & Hb & Hc & Hval).
  assert (Hl : forall l, Game.lastPottedBall newGame = Some l ->
                         isColoured l = false)
    by (intros l Hl; vm_compute in Hl; discriminate).
  destruct (first_colour_is_no_foul 16 newGame ball Hb Hc Hl Hv)
    as (H1 & _ & H3 & H4 & _ & H6 & _).
  rewrite Hval in H1.
  split; [exact Hv|]. split; [reflexivity|]. split; [exact H1|].
  split; [exact H3|]. split; [exact H4 | exact H6].
Defined.

Lemma cue_pot_alone_returns_turn_witness :
  validPlayer (Game.scoreManager placedGame)
  /\ shotBallsPotted (currentShot (Game.scoreManager placedGame)) = []
  /\ currentPlayer (Game.scoreManager (Game.handleBallPotted 21 placedGame)) = 2
  /\ currentPlayer
       (endShot (Game.scoreManager (Game.handleBallPotted 21 placedGame))) = 1
  /\ scoreOf (endShot (Game.scoreManager (Game.handleBallPotted 21 placedGame))) 2
     = 4.
Proof.
  assert (Hv : validPlayer (Game.scoreManager placedGame))
    by (left; reflexivity).
  assert (Hb : exists ball,
             nth_error (Game.balls placedGame) 21 = Some ball
             /\ Ball.colorName ball = white)
    by (eexists; split; [vm_compute; reflexivity | reflexivity]).
  destruct Hb as (ball & Hb & Hc).
  destruct (cue_pot_alone_returns_turn 21 placedGame ball Hb Hc Hv eq_refl)
    as (H1 & H2 & H3).
  split; [exact Hv|]. split; [reflexivity|]. split; [exact H1|].
  split; [exact H2 | exact H3].
Defined.

Lemma foul_after_pot_keeps_switch_witness :
  validPlayer (recordBallPotted blue constructor)
  /\ shotBallsPotted (currentShot (recordBallPotted blue constructor)) <> []
  /\ currentPlayer
       (endShot (recordFoul "Two consecutive colored balls potted" None
                   (recordBallPotted blue constructor))) = 2.
Proof.
  assert (Hv : validPlayer (recordBallPotted blue constructor))
    by (left; reflexivity).
  assert (Hne : shotBallsPotted (currentShot (recordBallPotted blue constructor))
                <> []) by discriminate.
  split; [exact Hv|]. split; [exact Hne|].
  exact (proj2 (foul_after_pot_keeps_switch _ _ Hv Hne)).
Defined.
End PotOutcomesOnGames.

(* ------------------------------------------------------------------ *)
(** ** Positions of new balls and the random layouts *)

Section RandomLayouts.

Lemma distSq_sym (x1 y1 x2 y2 : Q) : distSq x1 y1 x2 y2 == distSq x2 y2 x1 y1.
Proof. unfold distSq. ring. Qed.

Lemma distSq_Qeq (x1 y1 x2 y2 x1' y1' x2' y2' : Q) :
  x1 == x1' -> y1 == y1' -> x2 == x2' -> y2 == y2' ->
  distSq x1 y1 x2 y2 == distSq x1' y1' x2' y2'.
Proof. intros H1 H2 H3 H4. unfold distSq. rewrite H1, H2, H3, H4. reflexivity. Qed.

Lemma dist_sym (x1 y1 x2 y2 : Q) : dist x1 y1 x2 y2 = dist x2 y2 x1 y1.
Proof. unfold dist. rewrite (Qeq_eqR _ _ (distSq_sym x1 y1 x2 y2)). reflexivity. Qed.

Lemma dist_Qeq (x1 y1 x2 y2 x1' y1' x2' y2' : Q) :
  x1 == x1' -> y1 == y1' -> x2 == x2' -> y2 == y2' ->
  dist x1 y1 x2 y2 = dist x1' y1' x2' y2'.
Proof.
  intros H1 H2 H3 H4. unfold dist.
  rewrite (Qeq_eqR _ _ (distSq_Qeq _ _ _ _ _ _ _ _ H1 H2 H3 H4)). reflexivity.
Qed.

Lemma distLt_Qeq (x y a b a' b' m : Q) :
  a == a' -> b == b' -> distLt x y a b m = distLt x y a' b' m.
Proof.
  intros Ha Hb.
  pose proof (dist_Qeq x y a b x y a' b' (Qeq_refl x) (Qeq_refl y) Ha Hb) as Hd.
  destruct (distLt x y a b m) eqn:E1; destruct (distLt x y a' b' m) eqn:E2;
    try reflexivity; exfalso.
  - apply distLt_spec in E1. apply distLt_false in E2. rewrite Hd in E1. lra.
  - apply distLt_spec in E2. apply distLt_false in E1. rewrite Hd in E1. lra.
Qed.

Lemma distLt_Qeq_left (x y x' y' a b m : Q) :
  x == x' -> y == y' -> distLt x y a b m = distLt x' y' a b m.
Proof.
  intros Hx Hy.
  pose proof (dist_Qeq x y a b x' y' a b Hx Hy (Qeq_refl a) (Qeq_refl b)) as Hd.
  destruct (distLt x y a b m) eqn:E1; destruct (distLt x' y' a b m) eqn:E2;
    try reflexivity; exfalso.
  - apply distLt_spec in E1. apply distLt_false in E2. rewrite Hd in E1. lra.
  - apply distLt_spec in E2. apply distLt_false in E1. rewrite Hd in E1. lra.
Qed.

Lemma new_ball_getters (x y : Q) (c : Colour) (i : string) (sc ox oy : Q)
      (isSettingUp : bool) :
  ~ sc == 0 ->
  Ball.x (Ball.new x y c i sc ox oy isSettingUp) == x
  /\ Ball.y (Ball.new x y c i sc ox oy isSettingUp) == y.
Proof.
  intro Hsc. unfold Ball.x, Ball.y, Ball.new.
  cbn [Ball.body Ball.offsetX Ball.offsetY Ball.scale Body.circle
       Body.position vx vy].
  split; field; exact Hsc.
Qed.



Lemma isValidPositionIn_app (x y : Q) (bs : list Ball.t) (b : Ball.t) :
  BallManager.isValidPositionIn x y (bs ++ [b])
  = BallManager.isValidPositionIn x y bs
    && negb (distLt x y (Ball.x b) (Ball.y b) BallManager.minDistance).
Proof.
  induction bs as [|a bs IH]; cbn [app BallManager.isValidPositionIn].
  - destruct (distLt _ _ _ _ _); reflexivity.
  - destruct (distLt x y (Ball.x a) (Ball.y a) BallManager.minDistance);
      [reflexivity | exact IH].
Qed.

(** X13. After [addBall(x, y, ...)] a position is valid exactly when it was
    valid before and is not closer than 5.0 to (x, y); in particular
    (x, y) itself is no longer valid. *)
Theorem addBall_occupies (x y : Q) (c : Colour) (i : string)
        (bm : BallManager.t) (x' y' : Q) :
  ~ BallManager.scale bm == 0 ->
  BallManager.isValidPosition (BallManager.addBall x y c i bm) x' y'
  = BallManager.isValidPosition bm x' y'
    && negb (distLt x' y' x y BallManager.minDistance)
  /\ BallManager.isValidPosition (BallManager.addBall x y c i bm) x y = false.
Proof.
  intro Hsc.
  assert (Heq : forall u v,
             BallManager.isValidPosition (BallManager.addBall x y c i bm) u v
             = BallManager.isValidPosition bm u v
               && negb (distLt u v x y BallManager.minDistance)).
  { intros u v. unfold BallManager.isValidPosition, BallManager.addBall.
    cbn [BallManager.balls BallManager.setBalls].
    rewrite isValidPositionIn_app.
    destruct (new_ball_getters x y c i (BallManager.scale bm)
                (BallManager.offsetX bm) (BallManager.offsetY bm)
                (BallManager.isSettingUp bm) Hsc) as [Hx Hy].
    rewrite (distLt_Qeq u v _ _ x y _ Hx Hy). reflexivity. }
  split; [apply Heq|]. rewrite Heq.
  assert (Hd : distLt x y x y BallManager.minDistance = true).
  { unfold distLt. apply andb_true_iff. split; [reflexivity|].
    apply Qltb_lt. unfold distSq.
    assert (E : (x - x) * (x - x) + (y - y) * (y - y) == 0) by ring.
    rewrite E. reflexivity. }
  rewrite Hd. apply andb_false_r.
Qed.

Lemma addBall_occupies_witness :
  ~ BallManager.scale (BallManager.constructor 1 0 0) == 0
  /\ BallManager.isValidPosition
       (BallManager.addBall 89 44.5 blue "blue" (BallManager.constructor 1 0 0))
       89 44.5 = false.
Proof.
  assert (H : ~ BallManager.scale (BallManager.constructor 1 0 0) == 0)
    by (intro E; vm_compute in E; discriminate).
  split; [exact H|].
  exact (proj2 (addBall_occupies 89 44.5 blue "blue"
                  (BallManager.constructor 1 0 0) 0 0 H)).
Defined.

(** Two ball records are apart when their centres are at least
    [minDistance] from each other. *)
Definition apart (a b : Ball.t) : Prop :=
  (Q2R BallManager.minDistance
   <= dist (Ball.x a) (Ball.y a) (Ball.x b) (Ball.y b))%R.

Lemma apart_sym (a b : Ball.t) : apart a b -> apart b a.
Proof. unfold apart. rewrite dist_sym. auto. Qed.

Lemma ForallOrdPairs_snoc {A : Type} (R : A -> A -> Prop) (l : list A) (n : A) :
  ForallOrdPairs R l -> Forall (fun a => R a n) l -> ForallOrdPairs R (l ++ [n]).
Proof.
  induction 1 as [|a l Ha _ IH]; intro Hn; cbn [app].
  - constructor; constructor.
  - inversion Hn as [|? ? Ran Hrest]; subst. constructor.
    + apply Forall_app. split; [exact Ha|]. constructor; [exact Ran|constructor].
    + apply IH. exact Hrest.
Qed.

Lemma ForallOrdPairs_nth {A : Type} (R : A -> A -> Prop) (l : list A) :
  ForallOrdPairs R l ->
  forall i j a b, (i < j)%nat ->
    nth_error l i = Some a -> nth_error l j = Some b -> R a b.
Proof.
  induction 1 as [|a0 l Ha _ IH]; intros i j a b Hij Hi Hj.
  - destruct i; discriminate.
  - destruct j as [|j]; [lia|]. cbn in Hj. destruct i as [|i]; cbn in Hi.
    + injection Hi as <-. rewrite Forall_forall in Ha.
      apply Ha. exact (nth_error_In _ _ Hj).
    + apply (IH i j); [lia | exact Hi | exact Hj].
Qed.

Lemma valid_position_apart (bm : BallManager.t) (x y : Q) (c : Colour)
      (i : string) :
  ~ BallManager.scale bm == 0 ->
  BallManager.isValidPosition bm x y = true ->
  Forall (fun a => apart a (Ball.new x y c i (BallManager.scale bm)
                              (BallManager.offsetX bm) (BallManager.offsetY bm)
                              (BallManager.isSettingUp bm)))
         (BallManager.balls bm).
Proof.
  intros Hsc Hv. apply Forall_forall. intros a Hin. unfold apart.
  destruct (new_ball_getters x y c i (BallManager.scale bm)
              (BallManager.offsetX bm) (BallManager.offsetY bm)
              (BallManager.isSettingUp bm) Hsc) as [Hx Hy].
  rewrite (dist_Qeq _ _ _ _ (Ball.x a) (Ball.y a) x y
             (Qeq_refl _) (Qeq_refl _) Hx Hy).
  rewrite dist_sym.
  apply (proj1 (isValidPositionIn_all x y (BallManager.balls bm)) Hv a Hin).
Qed.

Lemma addBall_apart (bm : BallManager.t) (x y : Q) (c : Colour) (i : string) :
  ~ BallManager.scale bm == 0 ->
  BallManager.isValidPosition bm x y = true ->
  ForallOrdPairs apart (BallManager.balls bm) ->
  ForallOrdPairs apart (BallManager.balls (BallManager.addBall x y c i bm)).
Proof.
  intros Hsc Hv Hall. unfold BallManager.addBall.
  cbn [BallManager.balls BallManager.setBalls].
  apply ForallOrdPairs_snoc; [exact Hall|].
  apply valid_position_apart; assumption.
Qed.

Lemma drawCapped_valid (n : nat) (rnd : nat -> Q * Q) (bm : BallManager.t) :
  forall k x y k',
    BallManager.drawCapped n rnd k bm = (Some (x, y), k') ->
    BallManager.isValidPosition bm x y = true
    /\ (k < k' <= k + n)%nat /\ rnd (pred k') = (x, y).
Proof.
  induction n as [|n IH]; intros k x y k'; cbn [BallManager.drawCapped].
  - discriminate.
  - destruct (rnd k) as [u v] eqn:Er.
    destruct (BallManager.isValidPosition bm u v) eqn:Ev.
    + intros [= <- <- <-]. split; [exact Ev|]. split; [lia|exact Er].
    + intro H. destruct (IH _ _ _ _ H) as (A & B & C).
      split; [exact A|]. split; [lia|exact C].
Qed.

Lemma drawCapped_none (n : nat) (rnd : nat -> Q * Q) (bm : BallManager.t) :
  forall k k',
    BallManager.drawCapped n rnd k bm = (None, k') ->
    k' = (k + n)%nat
    /\ forall d, (d < n)%nat ->
         BallManager.isValidPosition bm (fst (rnd (k + d)%nat))
                                        (snd (rnd (k + d)%nat)) = false.
Proof.
  induction n as [|n IH]; intros k k'; cbn [BallManager.drawCapped].
  - intros [= <-]. split; [lia|]. intros d Hd. lia.
  - destruct (rnd k) as [u v] eqn:Er.
    destruct (BallManager.isValidPosition bm u v) eqn:Ev; [discriminate|].
    intro H. destruct (IH _ _ H) as (A & B). split; [lia|].
    intros [|d] Hd.
    + rewrite Nat.add_0_r, Er. exact Ev.
    + replace (k + S d)%nat with (S k + d)%nat by lia. apply B. lia.
Qed.

Lemma placeRandom_fold_apart (rnd : nat -> Q * Q)
      (infos : list (Colour * string)) :
  forall st,
    ~ BallManager.scale (fst st) == 0 ->
    ForallOrdPairs apart (BallManager.balls (fst st)) ->
    ForallOrdPairs apart
      (BallManager.balls (fst (fold_left (BallManager.placeRandom rnd) infos st))).
Proof.
  induction infos as [|bi infos IH]; intros [bm k] Hsc Hall; [exact Hall|].
  cbn [fold_left]. apply IH; unfold BallManager.placeRandom;
    destruct (BallManager.drawCapped 100 rnd k bm) as [[[x y]|] k'] eqn:E;
    cbn [fst]; try assumption.
  apply addBall_apart; try assumption.
  exact (proj1 (drawCapped_valid _ _ _ _ _ _ _ E)).
Qed.

(** X14. After [setupRandomAll], with or without the cue ball, any two ball
    records of the layout are at least [minDistance] = 5.0 apart. *)
Theorem setupRandomAll_apart (withCue : bool) (rnd : nat -> Q * Q)
        (bm : BallManager.t) :
  ~ BallManager.scale bm == 0 ->
  forall i j a b,
    i <> j ->
    nth_error (BallManager.balls (BallManager.setupRandomAll withCue rnd bm)) i
      = Some a ->
    nth_error (BallManager.balls (BallManager.setupRandomAll withCue rnd bm)) j
      = Some b ->
    (Q2R BallManager.minDistance
     <= dist (Ball.x a) (Ball.y a) (Ball.x b) (Ball.y b))%R.
Proof.
  intros Hsc.
  assert (Hall : ForallOrdPairs apart
                   (BallManager.balls (BallManager.setupRandomAll withCue rnd bm))).
  { unfold BallManager.setupRandomAll. apply placeRandom_fold_apart.
    - destruct withCue; exact Hsc.
    - destruct withCue; cbn; repeat constructor. }
  intros i j a b Hij Hi Hj.
  destruct (Nat.lt_total i j) as [Hlt | [-> | Hgt]]; [|congruence|].
  - exact (ForallOrdPairs_nth apart _ Hall i j a b Hlt Hi Hj).
  - apply apart_sym. exact (ForallOrdPairs_nth apart _ Hall j i b a Hgt Hj Hi).
Qed.
End RandomLayouts.

Section RandomReds.

Lemma apart_new (x1 y1 x2 y2 : Q) (c1 c2 : Colour) (i1 i2 : string)
      (sc ox oy : Q) (s1 s2 : bool) :
  ~ sc == 0 ->
  distLt x1 y1 x2 y2 BallManager.minDistance = false ->
  apart (Ball.new x1 y1 c1 i1 sc ox oy s1) (Ball.new x2 y2 c2 i2 sc ox oy s2).
Proof.
  intros Hsc Hd. unfold apart.
  destruct (new_ball_getters x1 y1 c1 i1 sc ox oy s1 Hsc) as [A1 A2].
  destruct (new_ball_getters x2 y2 c2 i2 sc ox oy s2 Hsc) as [B1 B2].
  rewrite (dist_Qeq _ _ _ _ x1 y1 x2 y2 A1 A2 B1 B2).
  apply distLt_false. exact Hd.
Qed.

(** The fixed spots, with or without the cue ball at (30, 44.5), are
    pairwise at least 5.0 apart. *)
Lemma addColoredBalls_apart (withCue : bool) (bm : BallManager.t) :
  ~ BallManager.scale bm == 0 ->
  ForallOrdPairs apart
    (BallManager.balls
       (BallManager.addColoredBalls
          (if withCue
           then BallManager.addCueBall 30 44.5 false
                  (BallManager.setIsSettingUp (BallManager.clearBalls bm) true)
           else BallManager.setIsSettingUp (BallManager.clearBalls bm) true))).
Proof.
  intro Hsc. destruct withCue; cbn;
    repeat (constructor;
            [repeat (constructor;
                     [apply apart_new; [exact Hsc | vm_compute; reflexivity]|]);
             constructor|]);
    constructor.
Qed.

Lemma drawUntilValid_spec (fuel : nat) (rnd : nat -> Q * Q) (bm : BallManager.t) :
  forall k x y k',
    BallManager.drawUntilValid fuel rnd k bm = Some (x, y, k') ->
    BallManager.isValidPosition bm x y = true
    /\ (k < k' <= k + fuel)%nat
    /\ rnd (pred k') = (x, y)
    /\ forall d, (k + d < pred k')%nat ->
         BallManager.isValidPosition bm (fst (rnd (k + d)%nat))
                                        (snd (rnd (k + d)%nat)) = false.
Proof.
  induction fuel as [|fuel IH]; intros k x y k'; cbn [BallManager.drawUntilValid].
  - discriminate.
  - destruct (rnd k) as [u v] eqn:Er.
    destruct (BallManager.isValidPosition bm u v) eqn:Ev.
    + intros [= <- <- <-]. split; [exact Ev|]. split; [lia|].
      split; [exact Er|]. intros d Hd. cbn in Hd. lia.
    + intro H. destruct (IH _ _ _ _ H) as (A & B & C & D).
      split; [exact A|]. split; [lia|]. split; [exact C|].
      intros [|d] Hd.
      * rewrite Nat.add_0_r, Er. exact Ev.
      * replace (k + S d)%nat with (S k + d)%nat by lia. apply D. lia.
Qed.




Lemma addRandomReds_apart (fuel : nat) (rnd : nat -> Q * Q) (ids : list nat) :
  forall k bm bm',
    ~ BallManager.scale bm == 0 ->
    ForallOrdPairs apart (BallManager.balls bm) ->
    BallManager.addRandomReds fuel rnd ids k bm = Some bm' ->
    ForallOrdPairs apart (BallManager.balls bm')
    /\ map Ball.id (BallManager.balls bm')
       = map Ball.id (BallManager.balls bm) ++ map BallManager.redId ids.
Proof.
  induction ids as [|i ids IH]; intros k bm bm' Hsc Hall;
    cbn [BallManager.addRandomReds].
  - intros [= <-]. split; [exact Hall|]. cbn. rewrite app_nil_r. reflexivity.
  - destruct (BallManager.drawUntilValid fuel rnd k bm) as [[[x y] k']|] eqn:E;
      [|discriminate].
    intro H. destruct (drawUntilValid_spec _ _ _ _ _ _ _ E) as (Hv & _).
    destruct (IH k' (BallManager.addBall x y red (BallManager.redId i) bm) bm')
      as (A & B); [exact Hsc | apply addBall_apart; assumption | exact H |].
    split; [exact A|]. rewrite B. unfold BallManager.addBall.
    cbn [BallManager.balls BallManager.setBalls map].
    rewrite map_app, <- app_assoc. reflexivity.
Qed.

(** X17. A finished [setupRandomReds] layout called without the cue ball, as
    the game calls it: the six colours followed by the fifteen reds
    red0..red14, any two of the 21 records at least 5.0 apart. *)
Theorem setupRandomReds_layout (fuel : nat) (rnd : nat -> Q * Q)
        (bm bm' : BallManager.t) :
  ~ BallManager.scale bm == 0 ->
  BallManager.setupRandomReds false fuel rnd bm = Some bm' ->
  map Ball.id (BallManager.balls bm')
  = ["pink"; "blue"; "brown"; "green"; "yellow"; "black";
     "red0"; "red1"; "red2"; "red3"; "red4"; "red5"; "red6"; "red7"; "red8";
     "red9"; "red10"; "red11"; "red12"; "red13"; "red14"]%string
  /\ forall i j a b,
       i <> j ->
       nth_error (BallManager.balls bm') i = Some a ->
       nth_error (BallManager.balls bm') j = Some b ->
       (Q2R BallManager.minDistance
        <= dist (Ball.x a) (Ball.y a) (Ball.x b) (Ball.y b))%R.
Proof.
  intros Hsc H. unfold BallManager.setupRandomReds in H.
  destruct (addRandomReds_apart fuel rnd (seq 0 15) 0
              (BallManager.addColoredBalls
                 (BallManager.setIsSettingUp (BallManager.clearBalls bm) true))
              bm' Hsc (addColoredBalls_apart false bm Hsc) H) as (Hall & Hids).
  split; [rewrite Hids; reflexivity|].
  intros i j a b Hij Hi Hj.
  destruct (Nat.lt_total i j) as [Hlt | [-> | Hgt]]; [|congruence|].
  - exact (ForallOrdPairs_nth apart _ Hall i j a b Hlt Hi Hj).
  - apply apart_sym. exact (ForallOrdPairs_nth apart _ Hall j i b a Hgt Hj Hi).
Qed.

(** An oracle that walks a grid with a pitch of 10 units; every fourth
    candidate repeats the one before it. *)
Definition gridOracle (k : nat) : Q * Q :=
  let n := Z.of_nat (k - k / 4) in
  (inject_Z (20 + 10 * (n mod 12)), inject_Z (10 + 10 * (n / 12))).

Lemma scale_one_not_zero : ~ BallManager.scale (BallManager.constructor 1 0 0) == 0.
Proof. intro E. vm_compute in E. discriminate. Qed.

Lemma setupRandomAll_apart_witness :
  exists a b,
    nth_error (BallManager.balls
                 (BallManager.setupRandomAll false gridOracle
                    (BallManager.constructor 1 0 0))) 0 = Some a
    /\ nth_error (BallManager.balls
                    (BallManager.setupRandomAll false gridOracle
                       (BallManager.constructor 1 0 0))) 20 = Some b
    /\ (Q2R BallManager.minDistance
        <= dist (Ball.x a) (Ball.y a) (Ball.x b) (Ball.y b))%R.
Proof.
  assert (Ha : exists a,
             nth_error (BallManager.balls
                          (BallManager.setupRandomAll false gridOracle
                             (BallManager.constructor 1 0 0))) 0 = Some a)
    by (eexists; vm_compute; reflexivity).
  assert (Hb : exists b,
             nth_error (BallManager.balls
                          (BallManager.setupRandomAll false gridOracle
                             (BallManager.constructor 1 0 0))) 20 = Some b)
    by (eexists; vm_compute; reflexivity).
  destruct Ha as [a Ha]. destruct Hb as [b Hb]. exists a, b.
  split; [exact Ha|]. split; [exact Hb|].
  assert (Hne : 0%nat <> 20%nat) by discriminate.
  exact (setupRandomAll_apart false gridOracle (BallManager.constructor 1 0 0)
           scale_one_not_zero 0%nat 20%nat a b Hne Ha Hb).
Defined.

Lemma setupRandomReds_layout_witness :
  exists bm',
    BallManager.setupRandomReds false 3 gridOracle
      (BallManager.constructor 1 0 0) = Some bm'
    /\ List.length (BallManager.balls bm') = 21%nat.
Proof.
  assert (H : exists bm',
             BallManager.setupRandomReds false 3 gridOracle
               (BallManager.constructor 1 0 0) = Some bm')
    by (eexists; vm_compute; reflexivity).
  destruct H as [bm' H]. exists bm'. split; [exact H|].
  destruct (setupRandomReds_layout 3 gridOracle (BallManager.constructor 1 0 0)
              bm' scale_one_not_zero H) as [Hids _].
  rewrite <- (length_map Ball.id), Hids. reflexivity.
Defined.

End RandomReds.

(* ------------------------------------------------------------------ *)
(** ** Ball records over the reachable states: potted flag and world *)

Section InPlay.

(** A ball record is consistent when its body is in the physics world
    exactly while the ball is not potted. *)
Definition inPlay (b : Ball.t) : Prop :=
  Body.inWorld (Ball.body b) = negb (Ball.isPotted b).

Lemma Forall_updateAt {A : Type} (P : A -> Prop) (i : nat) (f : A -> A)
      (l : list A) :
  (forall a, P a -> P (f a)) -> Forall P l -> Forall P (updateAt i f l).
Proof.
  intros Hf Hl. revert i. induction Hl as [|a l Ha Hl IH]; intros [|i]; cbn;
    constructor; auto.
Qed.

Lemma Forall_updateFirst {A : Type} (P : A -> Prop) (p : A -> bool)
      (f : A -> A) (l : list A) :
  (forall a, P a -> P (f a)) -> Forall P l -> Forall P (updateFirst p f l).
Proof.
  intros Hf Hl. induction Hl as [|a l Ha Hl IH]; cbn; [constructor|].
  destruct (p a); constructor; auto.
Qed.

Lemma inPlay_updBall (i : nat) (f : Ball.t -> Ball.t) (g : Game.t) :
  (forall b, inPlay b -> inPlay (f b)) ->
  Forall inPlay (Game.balls g) -> Forall inPlay (Game.balls (Game.updBall i f g)).
Proof. intros Hf H. exact (Forall_updateAt inPlay i f _ Hf H). Qed.

Lemma balls_trackConsecutiveColoured (g : Game.t) :
  Game.balls (Game.trackConsecutiveColoured g) = Game.balls g.
Proof.
  unfold Game.trackConsecutiveColoured.
  repeat match goal with
         | |- context [match ?c with Some _ => _ | None => _ end] => destruct c
         | |- context [if ?c then _ else _] => destruct c
         end; reflexivity.
Qed.

Lemma inPlay_respotColoredBall (i : nat) (g : Game.t) :
  Forall inPlay (Game.balls g) ->
  Forall inPlay (Game.balls (Game.respotColoredBall i g)).
Proof.
  intro H. unfold Game.respotColoredBall.
  destruct (nth_error (Game.balls g) i) as [ball|]; [|exact H].
  destruct (Game.spots (Ball.colorName ball)) as [[sx sy]|]; [|exact H].
  destruct (BallManager.isValidPosition (Game.ballManager g) sx sy); [|exact H].
  refine (inPlay_updBall i _ g _ H). intros b _. reflexivity.
Qed.

Lemma inPlay_handleBallPotted (i : nat) (g : Game.t) :
  Forall inPlay (Game.balls g) ->
  Forall inPlay (Game.balls (Game.handleBallPotted i g)).
Proof.
  intro H.
  assert (Hpot : Forall inPlay (Game.balls (Game.updBall i pot g)))
    by (apply inPlay_updBall; [intros b _; reflexivity | exact H]).
  unfold Game.handleBallPotted.
  destruct (nth_error (Game.balls g) i) as [ball|]; [|exact H].
  cbv zeta. set (g1 := Game.updBall i _ g) in *.
  set (g2 := if negb (Colour_eqb (Ball.colorName ball) white) then _ else g1).
  assert (H2 : Forall inPlay (Game.balls g2))
    by (subst g2; destruct (negb _); exact Hpot).
  clearbody g2.
  destruct (isColoured (Ball.colorName ball)).
  - change (Forall inPlay
              (Game.balls (Game.respotColoredBall i
                             (Game.trackConsecutiveColoured g2)))).
    apply inPlay_respotColoredBall. rewrite balls_trackConsecutiveColoured.
    exact H2.
  - destruct (Colour_eqb (Ball.colorName ball) red); exact H2.
Qed.

Lemma inPlay_pocketLoop (bx by_ : Q) (i : nat) (ps : list Table.Pocket) :
  forall g, Forall inPlay (Game.balls g) ->
            Forall inPlay (Game.balls (Game.pocketLoop bx by_ i ps g)).
Proof.
  induction ps as [|p ps IH]; intros g Hg; cbn [Game.pocketLoop]; [exact Hg|].
  assert (H1 : Forall inPlay
                 (Game.balls (if Game.inAttractionZone bx by_ p
                              then Game.attract p i g else g))).
  { destruct (Game.inAttractionZone bx by_ p); [|exact Hg].
    unfold Game.attract. apply inPlay_updBall; [|exact Hg].
    intros b Hb. exact Hb. }
  destruct (Game.inCaptureZone bx by_ p).
  - apply inPlay_handleBallPotted. exact H1.
  - apply IH. exact H1.
Qed.

Lemma inPlay_checkPottedBalls (g : Game.t) :
  Forall inPlay (Game.balls g) ->
  Forall inPlay (Game.balls (Game.checkPottedBalls g)).
Proof.
  unfold Game.checkPottedBalls. generalize (seq 0 (List.length (Game.balls g))).
  intro l. revert g. induction l as [|i l IH]; intros g Hg; [exact Hg|].
  cbn [fold_left]. apply IH. unfold Game.checkBall.
  destruct (nth_error (Game.balls g) i) as [ball|]; [|exact Hg].
  destruct (Ball.isPotted ball); [exact Hg|].
  apply inPlay_pocketLoop. exact Hg.
Qed.

Lemma Forall_map_same {A : Type} (P : A -> Prop) (f : A -> A) (l : list A) :
  (forall a, P a -> P (f a)) -> Forall P l -> Forall P (map f l).
Proof. intros Hf Hl. induction Hl; cbn; constructor; auto. Qed.

Lemma inPlay_addBall (x y : Q) (c : Colour) (i : string) (bm : BallManager.t) :
  Forall inPlay (BallManager.balls bm) ->
  Forall inPlay (BallManager.balls (BallManager.addBall x y c i bm)).
Proof.
  intro H. unfold BallManager.addBall.
  cbn [BallManager.balls BallManager.setBalls].
  apply Forall_app. split; [exact H|]. constructor; [reflexivity|constructor].
Qed.

Lemma inPlay_addCueBall (x y : Q) (e : bool) (bm : BallManager.t) :
  Forall inPlay (BallManager.balls bm) ->
  Forall inPlay (BallManager.balls (BallManager.addCueBall x y e bm)).
Proof.
  intro H. unfold BallManager.addCueBall.
  destruct (BallManager.getCueBall bm);
    cbn [BallManager.balls BallManager.setBalls];
    apply Forall_app; (split; [|constructor; [reflexivity|constructor]]).
  - apply Forall_forall. intros b Hb. apply filter_In in Hb.
    rewrite Forall_forall in H. apply H. tauto.
  - exact H.
Qed.

Lemma inPlay_setupStartingPositions (withCue : bool) (bm : BallManager.t) :
  Forall inPlay
    (BallManager.balls (BallManager.setupStartingPositions withCue bm)).
Proof.
  unfold BallManager.setupStartingPositions, BallManager.addColoredBalls.
  assert (Hfold : forall cells st,
             Forall inPlay (BallManager.balls (fst st)) ->
             Forall inPlay
               (BallManager.balls
                  (fst (fold_left BallManager.addTriangleRed cells st)))).
  { induction cells as [|[row col] cells IH]; intros [b k] Hst; [exact Hst|].
    cbn [fold_left]. apply IH. cbn [BallManager.addTriangleRed fst].
    apply inPlay_addBall. exact Hst. }
  do 6 apply inPlay_addBall.
  apply Hfold. cbn [fst].
  destruct withCue; [apply inPlay_addCueBall|]; constructor.
Qed.

Lemma inPlay_addRandomReds (fuel : nat) (rnd : nat -> Q * Q) (ids : list nat) :
  forall k bm bm',
    Forall inPlay (BallManager.balls bm) ->
    BallManager.addRandomReds fuel rnd ids k bm = Some bm' ->
    Forall inPlay (BallManager.balls bm').
Proof.
  induction ids as [|i ids IH]; intros k bm bm' Hbm;
    cbn [BallManager.addRandomReds].
  - intros [= <-]. exact Hbm.
  - destruct (BallManager.drawUntilValid fuel rnd k bm) as [[[x y] k']|];
      [|discriminate].
    apply IH. apply inPlay_addBall. exact Hbm.
Qed.

Lemma inPlay_setupRandomReds (withCue : bool) (fuel : nat) (rnd : nat -> Q * Q)
      (bm bm' : BallManager.t) :
  BallManager.setupRandomReds withCue fuel rnd bm = Some bm' ->
  Forall inPlay (BallManager.balls bm').
Proof.
  unfold BallManager.setupRandomReds. apply inPlay_addRandomReds.
  unfold BallManager.addColoredBalls. do 6 apply inPlay_addBall.
  destruct withCue; [apply inPlay_addCueBall|]; constructor.
Qed.

Lemma inPlay_setupRandomAll (withCue : bool) (rnd : nat -> Q * Q)
      (bm : BallManager.t) :
  Forall inPlay (BallManager.balls (BallManager.setupRandomAll withCue rnd bm)).
Proof.
  unfold BallManager.setupRandomAll.
  assert (Hfold : forall infos st,
             Forall inPlay (BallManager.balls (fst st)) ->
             Forall inPlay
               (BallManager.balls
                  (fst (fold_left (BallManager.placeRandom rnd) infos st)))).
  { induction infos as [|bi infos IH]; intros [b k] Hst; [exact Hst|].
    cbn [fold_left]. apply IH. unfold BallManager.placeRandom.
    destruct (BallManager.drawCapped 100 rnd k b) as [[[x y]|] k'];
      cbn [fst]; [apply inPlay_addBall|]; exact Hst. }
  apply Hfold. cbn [fst].
  destruct withCue; [apply inPlay_addCueBall|]; constructor.
Qed.

Lemma inPlay_physics (bs bs' : list Ball.t) :
  Forall2 moved bs bs' -> Forall inPlay bs -> Forall inPlay bs'.
Proof.
  induction 1 as [|b b' bs bs' Hm _ IH]; intro H; [constructor|].
  inversion H as [|? ? Hb Hrest]; subst. constructor; [|apply IH; exact Hrest].
  destruct Hm as (_ & _ & Hp & Hw). unfold inPlay in *. congruence.
Qed.

Lemma step_inPlay (g g' : Game.t) :
  step g g' -> Forall inPlay (Game.balls g) -> Forall inPlay (Game.balls g').
Proof.
  intros Hstep Hg.
  destruct Hstep as [g bs' Hm | g | g key fuel rnd g' Hk | g x y
                     | g shot | g pairs | g sc ox oy | g ].
  - exact (inPlay_physics _ _ Hm Hg).
  - unfold Game.update, Game.checkEscapedBalls.
    match goal with
    | |- Forall inPlay (Game.balls (Game.setBallManager ?g0
                          (BallManager.setBalls _ (map ?f ?l)))) =>
        change (Forall inPlay (map f l))
    end.
    apply Forall_map_same.
    + intros b Hb. unfold Game.resetIfEscaped.
      destruct (Ball.isPotted b) eqn:Ep; [exact Hb|].
      match goal with |- context [if ?c then _ else _] => destruct c end;
        [|exact Hb].
      unfold inPlay in *. cbn. rewrite Ep in *. exact Hb.
    + apply inPlay_checkPottedBalls. destruct (_ && _); exact Hg.
  - unfold Game.handleKeyPress in Hk.
    destruct (String.eqb key "1").
    { injection Hk as <-. apply (inPlay_setupStartingPositions false). }
    destruct (String.eqb key "2").
    { destruct (BallManager.setupRandomReds false fuel rnd (Game.ballManager g))
        as [bm|] eqn:E; [|discriminate].
      injection Hk as <-. exact (inPlay_setupRandomReds _ _ _ _ _ E). }
    destruct (String.eqb key "3").
    { injection Hk as <-. apply (inPlay_setupRandomAll false). }
    injection Hk as <-. exact Hg.
  - unfold Game.handleMousePress.
    destruct (Game.isPlacingCueBall g); [|exact Hg].
    match goal with |- context [if ?c then _ else _] => destruct c end;
      [|exact Hg].
    exact (inPlay_addCueBall _ _ true _ Hg).
  - unfold Game.handleMouseRelease.
    destruct (negb (Game.isPlacingCueBall g)); [|exact Hg].
    destruct (BallManager.getCueBall (Game.ballManager g)); [|exact Hg].
    destruct shot; exact Hg.
  - unfold Game.balls. rewrite ballManager_handleCollisions. exact Hg.
  - assert (Hshift : Forall inPlay
                       (map (Game.shiftBody (ox - Game.offsetX g)
                               (oy - Game.offsetY g)) (Game.balls g))).
    { apply Forall_map_same; [|exact Hg]. intros b Hb. unfold Game.shiftBody.
      destruct (Ball.isPotted b) eqn:Ep; [exact Hb|].
      unfold inPlay in *. cbn. rewrite Ep in *. exact Hb. }
    unfold Game.updateTablePosition.
    match goal with |- context [if ?c then _ else _] => destruct c end;
      [|exact Hshift].
    unfold Game.updateCueBallPosition.
    match goal with
    | |- context [match ?c with Some _ => _ | None => _ end] => destruct c
    end; [|exact Hshift].
    refine (Forall_updateFirst inPlay _ _ _ _ Hshift).
    intros b Hb. exact Hb.
  - unfold Game.settle, BallManager.settle.
    refine (Forall_map_same inPlay _ _ _ Hg). intros b Hb. exact Hb.
Qed.

(** X19. In every reachable state the body of a ball record is in the physics
    world exactly while the record is not marked potted. *)
Theorem reachable_in_world_iff_not_potted (g : Game.t) :
  reachable g ->
  forall b, In b (Game.balls g) ->
            Body.inWorld (Ball.body b) = negb (Ball.isPotted b).
Proof.
  intro Hr. apply Forall_forall.
  induction Hr as [sc ox oy | g g' _ IH Hstep].
  - apply (inPlay_setupStartingPositions false).
  - exact (step_inPlay g g' Hstep IH).
Qed.
End InPlay.

(* ------------------------------------------------------------------ *)
(** ** Ball ids are unique *)

Section UniqueIds.

Fixpoint nodupb (l : list string) : bool :=
  match l with
  | [] => true
  | a :: l' => negb (existsb (String.eqb a) l') && nodupb l'
  end.

Lemma nodupb_NoDup (l : list string) : nodupb l = true -> NoDup l.
Proof.
  induction l as [|a l IH]; cbn [nodupb]; intro H; [constructor|].
  apply andb_true_iff in H. destruct H as [Ha Hl]. constructor; [|auto].
  intro Hin. apply negb_true_iff in Ha.
  assert (Hex : existsb (String.eqb a) l = true)
    by (apply existsb_exists; exists a; split; [exact Hin|apply String.eqb_refl]).
  congruence.
Qed.

Lemma ids_addBall (x y : Q) (c : Colour) (i : string) (bm : BallManager.t) :
  map Ball.id (BallManager.balls (BallManager.addBall x y c i bm))
  = map Ball.id (BallManager.balls bm) ++ [i].
Proof.
  unfold BallManager.addBall. cbn [BallManager.balls BallManager.setBalls].
  rewrite map_app. reflexivity.
Qed.

Lemma addRandomReds_ids (fuel : nat) (rnd : nat -> Q * Q) (ids : list nat) :
  forall k bm bm',
    BallManager.addRandomReds fuel rnd ids k bm = Some bm' ->
    map Ball.id (BallManager.balls bm')
    = map Ball.id (BallManager.balls bm) ++ map BallManager.redId ids.
Proof.
  induction ids as [|i ids IH]; intros k bm bm'; cbn [BallManager.addRandomReds].
  - intros [= <-]. cbn. rewrite app_nil_r. reflexivity.
  - destruct (BallManager.drawUntilValid fuel rnd k bm) as [[[x y] k']|];
      [|discriminate].
    intro H. rewrite (IH _ _ _ H), ids_addBall, <- app_assoc. reflexivity.
Qed.

Lemma placeRandom_fold_nodup (rnd : nat -> Q * Q)
      (infos : list (Colour * string)) :
  forall st,
    NoDup (map Ball.id (BallManager.balls (fst st)) ++ map snd infos) ->
    NoDup (map Ball.id
             (BallManager.balls
                (fst (fold_left (BallManager.placeRandom rnd) infos st)))).
Proof.
  induction infos as [|bi infos IH]; intros [bm k] H; cbn [fold_left].
  - cbn in H. rewrite app_nil_r in H. exact H.
  - apply IH. unfold BallManager.placeRandom.
    destruct (BallManager.drawCapped 100 rnd k bm) as [[[x y]|] k']; cbn [fst].
    + rewrite ids_addBall, <- app_assoc. exact H.
    + cbn [map fst] in H. exact (NoDup_remove_1 _ _ _ H).
Qed.

Lemma nodup_addCueBall (x y : Q) (e : bool) (bm : BallManager.t) :
  NoDup (map Ball.id (BallManager.balls bm)) ->
  NoDup (map Ball.id (BallManager.balls (BallManager.addCueBall x y e bm))).
Proof.
  intro H.
  assert (Hfilter : forall bs,
             NoDup (map Ball.id bs) ->
             NoDup (map Ball.id
                      (filter (fun b => negb (String.eqb (Ball.id b) "cue")) bs)
                    ++ ["cue"%string])).
  { induction bs as [|b bs IH]; intro Hnd; [repeat constructor; intros []|].
    cbn [map] in Hnd. inversion Hnd as [|? ? Hnotin Hrest]; subst.
    cbn [filter]. destruct (String.eqb (Ball.id b) "cue") eqn:E; cbn [negb].
    - apply IH. exact Hrest.
    - cbn [map app]. constructor; [|apply IH; exact Hrest].
      intro Hin. apply in_app_or in Hin. destruct Hin as [Hin | [Hc | []]].
      + apply Hnotin. apply in_map_iff in Hin.
        destruct Hin as (b0 & Hid & Hb0). apply filter_In in Hb0.
        apply in_map_iff. exists b0. tauto.
      + rewrite <- Hc, String.eqb_refl in E. discriminate. }
  unfold BallManager.addCueBall, BallManager.getCueBall.
  destruct (find _ (BallManager.balls bm)) eqn:E;
    cbn [BallManager.balls BallManager.setBalls]; rewrite map_app.
  - apply Hfilter. exact H.
  - cbn [map Ball.new Ball.id].
    assert (Hsame : filter (fun b => negb (String.eqb (Ball.id b) "cue"))
                      (BallManager.balls bm) = BallManager.balls bm).
    { pose proof (find_none _ _ E) as Hn. clear E H Hfilter.
      induction (BallManager.balls bm) as [|b bs IH]; [reflexivity|].
      cbn [filter]. rewrite (Hn b (or_introl eq_refl)). cbn [negb].
      rewrite IH; [reflexivity|]. intros b0 Hb0. apply Hn. right. exact Hb0. }
    rewrite <- Hsame. apply Hfilter. exact H.
Qed.

Lemma step_nodup (g g' : Game.t) :
  step g g' -> NoDup (idsOf g) -> NoDup (idsOf g').
Proof.
  intros Hstep Hg.
  destruct Hstep as [g bs' Hm | g | g key fuel rnd g' Hk | g x y
                     | g shot | g pairs | g sc ox oy | g ].
  - unfold idsOf in *. change (NoDup (map Ball.id bs')).
    rewrite (ids_physics _ _ Hm). exact Hg.
  - rewrite ids_update. exact Hg.
  - unfold Game.handleKeyPress in Hk.
    destruct (String.eqb key "1").
    { injection Hk as <-. apply nodupb_NoDup. reflexivity. }
    destruct (String.eqb key "2").
    { destruct (BallManager.setupRandomReds false fuel rnd (Game.ballManager g))
        as [bm|] eqn:E; [|discriminate].
      injection Hk as <-. unfold BallManager.setupRandomReds in E.
      change (NoDup (map Ball.id (BallManager.balls bm))).
      rewrite (addRandomReds_ids _ _ _ _ _ _ E).
      apply nodupb_NoDup. reflexivity. }
    destruct (String.eqb key "3").
    { injection Hk as <-.
      change (NoDup (map Ball.id
                       (BallManager.balls
                          (BallManager.setupRandomAll false rnd
                             (Game.ballManager g))))).
      unfold BallManager.setupRandomAll. apply placeRandom_fold_nodup.
      apply nodupb_NoDup. reflexivity. }
    injection Hk as <-. exact Hg.
  - unfold Game.handleMousePress.
    destruct (Game.isPlacingCueBall g); [|exact Hg].
    match goal with |- context [if ?c then _ else _] => destruct c end;
      [|exact Hg].
    exact (nodup_addCueBall _ _ true _ Hg).
  - unfold Game.handleMouseRelease.
    destruct (negb (Game.isPlacingCueBall g)); [|exact Hg].
    destruct (BallManager.getCueBall (Game.ballManager g)); [|exact Hg].
    destruct shot; exact Hg.
  - unfold idsOf, Game.balls in *. rewrite ballManager_handleCollisions.
    exact Hg.
  - rewrite ids_updateTablePosition. exact Hg.
  - rewrite ids_settle. exact Hg.
Qed.

(** X20. In every reachable state no two ball records share an id: a label
    reported by the physics identifies at most one ball. *)
Theorem reachable_ids_unique (g : Game.t) :
  reachable g -> NoDup (map Ball.id (Game.balls g)).
Proof.
  intro Hr. induction Hr as [sc ox oy | g g' _ IH Hstep].
  - apply nodupb_NoDup. reflexivity.
  - exact (step_nodup g g' Hstep IH).
Qed.

(** X15. [setupRandomAll] places no ball twice, every ball it places is one of
    the 21 of [ballsToAdd], and the layout holds at most 21 records. *)
Theorem setupRandomAll_ids (rnd : nat -> Q * Q) (bm : BallManager.t) :
  NoDup (map Ball.id
           (BallManager.balls (BallManager.setupRandomAll false rnd bm)))
  /\ incl (map Ball.id
             (BallManager.balls (BallManager.setupRandomAll false rnd bm)))
          (map snd BallManager.ballsToAdd)
  /\ (List.length
        (BallManager.balls (BallManager.setupRandomAll false rnd bm)) <= 21)%nat.
Proof.
  assert (Hfold : forall infos st,
             incl (map Ball.id
                     (BallManager.balls
                        (fst (fold_left (BallManager.placeRandom rnd) infos st))))
                  (map Ball.id (BallManager.balls (fst st)) ++ map snd infos)
             /\ (List.length
                   (BallManager.balls
                      (fst (fold_left (BallManager.placeRandom rnd) infos st)))
                 <= List.length (BallManager.balls (fst st))
                    + List.length infos)%nat).
  { induction infos as [|bi infos IH]; intros [b k]; cbn [fold_left].
    - cbn [fst map List.length]. rewrite app_nil_r. split; [apply incl_refl|lia].
    - destruct (IH (BallManager.placeRandom rnd (b, k) bi)) as [Hi Hl].
      assert (Hstep : BallManager.placeRandom rnd (b, k) bi
                      = match BallManager.drawCapped 100 rnd k b with
                        | (Some (x, y), k') =>
                            (BallManager.addBall x y (fst bi) (snd bi) b, k')
                        | (None, k') => (b, k')
                        end) by reflexivity.
      rewrite Hstep in *. clear Hstep.
      destruct (BallManager.drawCapped 100 rnd k b) as [[[x y]|] k']; cbn [fst] in *.
      + rewrite ids_addBall, <- app_assoc in Hi. split; [exact Hi|].
        assert (Hlen : List.length
                         (BallManager.balls
                            (BallManager.addBall x y (fst bi) (snd bi) b))
                       = S (List.length (BallManager.balls b))).
        { unfold BallManager.addBall.
          cbn [BallManager.balls BallManager.setBalls].
          rewrite length_app. cbn [List.length]. lia. }
        rewrite Hlen in Hl. cbn [List.length]. lia.
      + split.
        * intros a Ha. apply Hi in Ha. apply in_app_or in Ha.
          apply in_or_app. destruct Ha as [Ha | Ha]; [left; exact Ha|].
          right. right. exact Ha.
        * cbn [List.length]. lia. }
  unfold BallManager.setupRandomAll.
  destruct (Hfold BallManager.ballsToAdd
              (BallManager.setIsSettingUp (BallManager.clearBalls bm) true, 0%nat))
    as [Hi Hl].
  split; [|split].
  - apply placeRandom_fold_nodup. apply nodupb_NoDup. reflexivity.
  - exact Hi.
  - exact Hl.
Qed.
End UniqueIds.

(* ------------------------------------------------------------------ *)
(** ** Placing the cue ball *)

Section CuePlacement.






End CuePlacement.

(* ------------------------------------------------------------------ *)
(** ** The pass over the balls: what it leaves alone *)

Section QuietPass.

Lemma outside_zones (bx by_ : Q) (p : Table.Pocket) :
  (Q2R (Table.radius p * 2.2) <= dist bx by_ (Table.x p) (Table.y p))%R ->
  Game.inAttractionZone bx by_ p = false /\ Game.inCaptureZone bx by_ p = false.
Proof.
  intro H. unfold Game.inAttractionZone, Game.inCaptureZone.
  destruct (Q2R_scaled_radius (Table.radius p)) as (E1 & E2 & _).
  assert (Hpos : (0 <= dist bx by_ (Table.x p) (Table.y p))%R) by apply sqrt_pos.
  assert (H1 : distLt bx by_ (Table.x p) (Table.y p) (Table.radius p * 2.2) = false)
    by (apply distLt_false; exact H).
  assert (H2 : distLt bx by_ (Table.x p) (Table.y p) (Table.radius p * 0.85) = false)
    by (apply distLt_false; rewrite E1; rewrite E2 in H; lra).
  rewrite H1, H2. split; reflexivity.
Qed.

(** X22. A ball that is at least 2.2 pocket radii away from every pocket is
    not touched by its iteration of the pass: no impulse, no damping, no
    pot, and nothing else in the game changes. *)
Theorem far_ball_untouched (g : Game.t) (i : nat) (ball : Ball.t) :
  nth_error (Game.balls g) i = Some ball ->
  (forall p, In p (Table.pockets (Game.table g)) ->
     (Q2R (Table.radius p * 2.2)
      <= dist (Game.ballX g ball) (Game.ballY g ball) (Table.x p) (Table.y p))%R) ->
  Game.checkBall g i = g.
Proof.
  intros Hb Hfar. unfold Game.checkBall. rewrite Hb.
  destruct (Ball.isPotted ball); [reflexivity|].
  induction (Table.pockets (Game.table g)) as [|p ps IH]; [reflexivity|].
  cbn [Game.pocketLoop].
  destruct (outside_zones _ _ p (Hfar p (or_introl eq_refl))) as [-> ->].
  apply IH. intros q Hq. apply Hfar. right. exact Hq.
Qed.

Lemma far_ball_untouched_witness :
  exists ball,
    nth_error (Game.balls newGame) 16 = Some ball
    /\ Game.checkBall newGame 16 = newGame.
Proof.
  assert (Hb : exists ball, nth_error (Game.balls newGame) 16 = Some ball)
    by (eexists; vm_compute; reflexivity).
  destruct Hb as [ball Hb]. exists ball. split; [exact Hb|].
  apply (far_ball_untouched newGame 16 ball Hb).
  assert (Hball : Game.ballX newGame ball == 89 /\ Game.ballY newGame ball == 44.5).
  { vm_compute in Hb. injection Hb as <-. split; vm_compute; reflexivity. }
  destruct Hball as [Hx Hy].
  intros p Hp. apply distLt_false.
  rewrite (distLt_Qeq_left _ _ 89 44.5 _ _ _ Hx Hy).
  vm_compute in Hp.
  repeat (destruct Hp as [<- | Hp]; [vm_compute; reflexivity|]).
  destruct Hp.
Defined.
End QuietPass.

(* ------------------------------------------------------------------ *)
(** ** Escaped balls, the settle timer, the scale *)

Section Housekeeping.

(** The test of [checkEscapedBalls] on a position. *)
Definition escaped (g : Game.t) (pos : Vector) : bool :=
  Qltb (vx pos) (Game.offsetX g - Game.escapeMargin)
  || Qltb (Game.offsetX g + Game.tableWidth * Game.scale g + Game.escapeMargin)
          (vx pos)
  || Qltb (vy pos) (Game.offsetY g - Game.escapeMargin)
  || Qltb (Game.offsetY g + Game.tableHeight * Game.scale g + Game.escapeMargin)
          (vy pos).

Lemma escaped_false (g : Game.t) (pos : Vector) :
  escaped g pos = false <->
  Game.offsetX g - 50 <= vx pos
  /\ vx pos <= Game.offsetX g + 178 * Game.scale g + 50
  /\ Game.offsetY g - 50 <= vy pos
  /\ vy pos <= Game.offsetY g + 89 * Game.scale g + 50.
Proof.
  unfold escaped. rewrite !orb_false_iff, !Qltb_ge. tauto.
Qed.

Lemma centre_not_escaped (g : Game.t) :
  0 <= Game.scale g ->
  escaped g (mkVector (Game.offsetX g + Game.tableWidth * Game.scale g / 2)
                      (Game.offsetY g + Game.tableHeight * Game.scale g / 2))
  = false.
Proof.
  intro Hsc. apply escaped_false. cbn [vx vy].
  unfold Game.tableWidth, Game.tableHeight.
  assert (Hw : 178 * Game.scale g / 2 == 89 * Game.scale g) by field.
  assert (Hh : 89 * Game.scale g / 2 == 44.5 * Game.scale g) by field.
  rewrite Hw, Hh. repeat split; Lqa.lra.
Qed.

Lemma resetIfEscaped_cases (g : Game.t) (b : Ball.t) :
  Game.resetIfEscaped g b
  = if Ball.isPotted b then b
    else if escaped g (Body.position (Ball.body b)) then
      Ball.setBody b
        (Body.setVelocity
           (Body.setPosition (Ball.body b)
              (mkVector (Game.offsetX g + Game.tableWidth * Game.scale g / 2)
                        (Game.offsetY g + Game.tableHeight * Game.scale g / 2)))
           (mkVector 0 0))
    else b.
Proof. reflexivity. Qed.

Lemma resetIfEscaped_idem (g : Game.t) (b : Ball.t) :
  0 <= Game.scale g ->
  Game.resetIfEscaped g (Game.resetIfEscaped g b) = Game.resetIfEscaped g b.
Proof.
  intro Hsc. rewrite (resetIfEscaped_cases g b).
  destruct (Ball.isPotted b) eqn:Ep.
  - rewrite resetIfEscaped_cases, Ep. reflexivity.
  - destruct (escaped g (Body.position (Ball.body b))) eqn:Ee.
    + rewrite resetIfEscaped_cases.
      cbn [Ball.isPotted Ball.setBody Ball.body Body.position Body.setVelocity
           Body.setPosition].
      rewrite Ep, (centre_not_escaped g Hsc). reflexivity.
    + rewrite resetIfEscaped_cases, Ep, Ee. reflexivity.
Qed.

(** X25. After [checkEscapedBalls], with a scale that is not negative, every
    ball that is not potted lies within the table bounds widened by the
    margin of 50 pixels, a ball that was outside now resting at the table
    centre; running the check again changes nothing. *)
Theorem checkEscapedBalls_bounds (g : Game.t) :
  0 <= Game.scale g ->
  (forall b, In b (Game.balls (Game.checkEscapedBalls g)) ->
     Ball.isPotted b = false ->
     Game.offsetX g - 50 <= vx (Body.position (Ball.body b))
     /\ vx (Body.position (Ball.body b)) <= Game.offsetX g + 178 * Game.scale g + 50
     /\ Game.offsetY g - 50 <= vy (Body.position (Ball.body b))
     /\ vy (Body.position (Ball.body b)) <= Game.offsetY g + 89 * Game.scale g + 50)
  /\ Game.checkEscapedBalls (Game.checkEscapedBalls g) = Game.checkEscapedBalls g.
Proof.
  intro Hsc. split.
  - intros b Hin Hp.
    change (In b (map (Game.resetIfEscaped g) (Game.balls g))) in Hin.
    apply in_map_iff in Hin. destruct Hin as (b0 & <- & _).
    rewrite resetIfEscaped_cases in *.
    destruct (Ball.isPotted b0) eqn:Ep; [congruence|].
    destruct (escaped g (Body.position (Ball.body b0))) eqn:Ee.
    + apply escaped_false. exact (centre_not_escaped g Hsc).
    + apply escaped_false. exact Ee.
  - unfold Game.checkEscapedBalls at 1.
    change (Game.balls (Game.checkEscapedBalls g))
      with (map (Game.resetIfEscaped g) (Game.balls g)).
    assert (Hmap : map (Game.resetIfEscaped (Game.checkEscapedBalls g))
                     (map (Game.resetIfEscaped g) (Game.balls g))
                   = map (Game.resetIfEscaped g) (Game.balls g)).
    { rewrite map_map. apply map_ext. intro b.
      change (Game.resetIfEscaped (Game.checkEscapedBalls g))
        with (Game.resetIfEscaped g).
      apply resetIfEscaped_idem. exact Hsc. }
    rewrite Hmap. reflexivity.
Qed.

Lemma checkEscapedBalls_bounds_witness :
  0 <= Game.scale redAtCornerGame
  /\ Game.checkEscapedBalls (Game.checkEscapedBalls redAtCornerGame)
     = Game.checkEscapedBalls redAtCornerGame.
Proof.
  assert (Hsc : 0 <= Game.scale redAtCornerGame)
    by (apply Qle_bool_iff; vm_compute; reflexivity).
  split; [exact Hsc|].
  exact (proj2 (checkEscapedBalls_bounds redAtCornerGame Hsc)).
Defined.

(** X26. When the settle timer has fired, no ball counts as moving: every
    velocity is zero, every body has its collisions enabled, and the
    set-up phase of the ball manager is over. *)
Theorem settle_stops_balls (g : Game.t) :
  Game.checkBallsMoving (Game.settle g) = false
  /\ BallManager.isSettingUp (Game.ballManager (Game.settle g)) = false
  /\ forall b, In b (Game.balls (Game.settle g)) ->
       Body.isSensor (Ball.body b) = false
       /\ Body.velocity (Ball.body b) = mkVector 0 0.
Proof.
  split; [|split; [reflexivity|]].
  - unfold Game.checkBallsMoving.
    change (Game.balls (Game.settle g))
      with (map (fun b => Ball.setBody b
                            (Body.setSensor
                               (Body.setVelocity (Ball.body b) (mkVector 0 0))
                               false))
                (Game.balls g)).
    induction (Game.balls g) as [|b bs IH]; [reflexivity|].
    cbn [map existsb]. rewrite IH.
    cbn [Ball.body Ball.setBody Body.velocity Body.setSensor Body.setVelocity
         vx vy].
    assert (Hstill : distGt 0 0 0 0 0.1 = false) by (vm_compute; reflexivity).
    rewrite Hstill, andb_false_r. reflexivity.
  - intros b Hin.
    change (In b (map (fun b => Ball.setBody b
                                  (Body.setSensor
                                     (Body.setVelocity (Ball.body b) (mkVector 0 0))
                                     false))
                      (Game.balls g))) in Hin.
    apply in_map_iff in Hin. destruct Hin as (b0 & <- & _). split; reflexivity.
Qed.

(** X27. [calculateScale]: the scale is at most 5, the table takes at most 60%
    of the window in each direction and exactly 60% of one of them unless
    the cap of 5 applies, and the offsets centre it; for a window of
    positive size the scale is positive. *)
Theorem calculateScale_fits (windowWidth windowHeight : Q) :
  let sc := fst (fst (Game.calculateScale windowWidth windowHeight)) in
  let ox := snd (fst (Game.calculateScale windowWidth windowHeight)) in
  let oy := snd (Game.calculateScale windowWidth windowHeight) in
  sc <= 5
  /\ Game.tableWidth * sc <= windowWidth * 0.6
  /\ Game.tableHeight * sc <= windowHeight * 0.6
  /\ (sc == 5 \/ Game.tableWidth * sc == windowWidth * 0.6
      \/ Game.tableHeight * sc == windowHeight * 0.6)
  /\ ox + Game.tableWidth * sc + ox == windowWidth
  /\ oy + Game.tableHeight * sc + oy == windowHeight
  /\ (0 < windowWidth -> 0 < windowHeight -> 0 < sc).
Proof.
  cbv zeta. unfold Game.calculateScale. cbn [fst snd].
  unfold Game.tableWidth, Game.tableHeight.
  set (sx := windowWidth * 0.6 / 178). set (sy := windowHeight * 0.6 / 89).
  set (sc := Qmin (Qmin sx sy) 5).
  assert (Hsx : 178 * sx == windowWidth * 0.6) by (unfold sx; field).
  assert (Hsy : 89 * sy == windowHeight * 0.6) by (unfold sy; field).
  assert (H5 : sc <= 5) by apply Q.le_min_r.
  assert (Hx : sc <= sx)
    by (apply Qle_trans with (Qmin sx sy); [apply Q.le_min_l|apply Q.le_min_l]).
  assert (Hy : sc <= sy)
    by (apply Qle_trans with (Qmin sx sy); [apply Q.le_min_l|apply Q.le_min_r]).
  split; [exact H5|].
  split; [Lqa.lra|]. split; [Lqa.lra|]. split.
  - destruct (Q.min_dec (Qmin sx sy) 5) as [E | E]; [|left; exact E].
    destruct (Q.min_dec sx sy) as [E' | E'].
    + right. left. fold sc in E. rewrite E, E'. exact Hsx.
    + right. right. fold sc in E. rewrite E, E'. exact Hsy.
  - split; [field|]. split; [field|].
    intros Hw Hh. unfold sc.
    apply Q.min_glb_lt; [apply Q.min_glb_lt|reflexivity]; Lqa.lra.
Qed.

Lemma calculateScale_fits_witness :
  0 < 1920 /\ 0 < 1080
  /\ 0 < fst (fst (Game.calculateScale 1920 1080))
  /\ fst (fst (Game.calculateScale 1920 1080)) <= 5.
Proof.
  assert (Hw : 0 < 1920) by reflexivity.
  assert (Hh : 0 < 1080) by reflexivity.
  destruct (calculateScale_fits 1920 1080) as (H5 & _ & _ & _ & _ & _ & Hpos).
  split; [exact Hw|]. split; [exact Hh|].
  split; [exact (Hpos Hw Hh) | exact H5].
Defined.
End Housekeeping.

(* ------------------------------------------------------------------ *)
(** ** Changing the layout *)

Section LayoutChange.

(** X28. [handleKeyPress]: a key other than 1, 2, 3 changes nothing.  A layout
    key sets the display mode, starts the placement of the cue ball and
    clears the memory of the last potted ball; it keeps the scores, the
    statistics, the current player and the geometry of the running
    game. *)
Theorem layout_change_keeps_scores (key : string) (fuel : nat)
        (rnd : nat -> Q * Q) (g g' : Game.t) :
  Game.handleKeyPress key fuel rnd g = Some g' ->
  Game.scoreManager g' = Game.scoreManager g
  /\ Game.scale g' = Game.scale g
  /\ Game.offsetX g' = Game.offsetX g
  /\ Game.offsetY g' = Game.offsetY g
  /\ (key <> "1"%string -> key <> "2"%string -> key <> "3"%string -> g' = g)
  /\ (key = "1"%string \/ key = "2"%string \/ key = "3"%string ->
      Game.isPlacingCueBall g' = true
      /\ Game.consecutiveColoredPotted g' = 0%Z
      /\ Game.lastPottedBall g' = None
      /\ BallManager.getCueBall (Game.ballManager g') = None).
Proof.
  intro Hk. unfold Game.handleKeyPress in Hk.
  destruct (String.eqb_spec key "1") as [-> | N1].
  { injection Hk as <-. repeat split; try reflexivity; congruence. }
  destruct (String.eqb_spec key "2") as [-> | N2].
  { destruct (BallManager.setupRandomReds false fuel rnd (Game.ballManager g))
      as [bm|] eqn:E; [|discriminate].
    injection Hk as <-. repeat split; try reflexivity; try congruence.
    cbn [Game.ballManager Game.resetForLayout Game.setLastPottedBall
         Game.setConsecutiveColoredPotted Game.setIsPlacingCueBall
         Game.setBallManager].
    unfold BallManager.getCueBall.
    pose proof (setupRandomReds_no_cue _ _ _ _ E) as Hc.
    destruct (find _ (BallManager.balls bm)) as [b|] eqn:F; [|reflexivity].
    exfalso. destruct (find_some _ _ F) as [Hin Hb].
    unfold cueCount in Hc.
    assert (Hf : In b (filter isCue (BallManager.balls bm)))
      by (apply filter_In; split; assumption).
    destruct (filter isCue (BallManager.balls bm)); [destruct Hf | discriminate]. }
  destruct (String.eqb_spec key "3") as [-> | N3].
  { injection Hk as <-. repeat split; try reflexivity; try congruence.
    cbn [Game.ballManager Game.resetForLayout Game.setLastPottedBall
         Game.setConsecutiveColoredPotted Game.setIsPlacingCueBall
         Game.setBallManager].
    unfold BallManager.getCueBall.
    pose proof (setupRandomAll_no_cue rnd (Game.ballManager g)) as Hc.
    destruct (find _ (BallManager.balls _)) as [b|] eqn:F; [|reflexivity].
    exfalso. destruct (find_some _ _ F) as [Hin Hb].
    unfold cueCount in Hc.
    assert (Hf : In b (filter isCue
                         (BallManager.balls
                            (BallManager.setupRandomAll false rnd
                               (Game.ballManager g)))))
      by (apply filter_In; split; assumption).
    destruct (filter isCue _); [destruct Hf | discriminate]. }
  injection Hk as <-. do 4 (split; [reflexivity|]).
  split; [intros; reflexivity | intros [-> | [-> | ->]]; congruence].
Qed.

Lemma layout_change_keeps_scores_witness :
  Game.handleKeyPress "1" 0 (fun _ => (0, 0)) redPottedGame
  = Some (Game.resetForLayout redPottedGame 1
            (BallManager.setupStartingPositions false
               (Game.ballManager redPottedGame)))
  /\ Game.scoreManager
       (Game.resetForLayout redPottedGame 1
          (BallManager.setupStartingPositions false
             (Game.ballManager redPottedGame)))
     = Game.scoreManager redPottedGame.
Proof.
  split; [reflexivity|].
  exact (proj1 (layout_change_keeps_scores "1" 0 (fun _ => (0, 0))
                  redPottedGame _ eq_refl)).
Defined.
End LayoutChange.

(* ------------------------------------------------------------------ *)
(** ** Witnesses on concrete games *)

Section MoreWitnesses.

Lemma reachable_in_world_iff_not_potted_witness :
  reachable redPottedGame
  /\ exists b,
       nth_error (Game.balls redPottedGame) 0 = Some b
       /\ Ball.isPotted b = true
       /\ Body.inWorld (Ball.body b) = false.
Proof.
  split; [exact redPottedGame_reachable|].
  assert (Hb : exists b, nth_error (Game.balls redPottedGame) 0 = Some b
                         /\ Ball.isPotted b = true)
    by (eexists; split; [vm_compute; reflexivity | reflexivity]).
  destruct Hb as (b & Hb & Hp). exists b. split; [exact Hb|]. split; [exact Hp|].
  rewrite (reachable_in_world_iff_not_potted redPottedGame
             redPottedGame_reachable b (nth_error_In _ _ Hb)), Hp.
  reflexivity.
Defined.

Lemma reachable_ids_unique_witness :
  reachable redPottedGame /\ NoDup (map Ball.id (Game.balls redPottedGame)).
Proof.
  split; [exact redPottedGame_reachable|].
  exact (reachable_ids_unique redPottedGame redPottedGame_reachable).
Defined.

(** A table with one record: the blue ball, potted in the upper middle
    pocket. *)
Definition bluePocketedGame : Game.t :=
  Game.mk 1 0 0 (Table.constructor Game.tableWidth Game.tableHeight)
    (BallManager.mk 1 0 0
       [Ball.mk "blue" blue 1 0 0 2.472 true
          (Body.mk (mkVector 89 1) (mkVector 0 0) (mkVector 0 0) "blue" false
             false)]
       false)
    ScoreManager.constructor 1 [] false false 1 (Some blue).

End MoreWitnesses.

(* ------------------------------------------------------------------ *)
(** ** One placement of the bounded rejection sampling *)

Section BoundedSampling.

Lemma drawCapped_first (n : nat) (rnd : nat -> Q * Q) (bm : BallManager.t) :
  forall k x y k',
    BallManager.drawCapped n rnd k bm = (Some (x, y), k') ->
    forall d, (k + d < pred k')%nat ->
      BallManager.isValidPosition bm (fst (rnd (k + d)%nat))
                                     (snd (rnd (k + d)%nat)) = false.
Proof.
  induction n as [|n IH]; intros k x y k'; cbn [BallManager.drawCapped].
  - discriminate.
  - destruct (rnd k) as [u v] eqn:Er.
    destruct (BallManager.isValidPosition bm u v) eqn:Ev.
    + intros [= <- <- <-] d Hd. cbn in Hd. lia.
    + intros H [|d] Hd.
      * rewrite Nat.add_0_r, Er. exact Ev.
      * replace (k + S d)%nat with (S k + d)%nat by lia.
        apply (IH _ _ _ _ H). lia.
Qed.

(** X16. One step of [setupRandomAll] for a ball [(c, i)], the oracle standing
    at candidate [k]: either the ball is added at the first valid
    candidate among the next 100, all candidates before it being invalid,
    or all 100 are invalid and the ball is left out, the ball list
    unchanged. *)
Theorem placeRandom_spec (rnd : nat -> Q * Q) (bm : BallManager.t) (k : nat)
        (c : Colour) (i : string) :
  (exists x y k',
      BallManager.placeRandom rnd (bm, k) (c, i)
      = (BallManager.addBall x y c i bm, k')
      /\ (k < k' <= k + 100)%nat
      /\ rnd (pred k') = (x, y)
      /\ BallManager.isValidPosition bm x y = true
      /\ forall d, (k + d < pred k')%nat ->
           BallManager.isValidPosition bm (fst (rnd (k + d)%nat))
                                          (snd (rnd (k + d)%nat)) = false)
  \/ (BallManager.placeRandom rnd (bm, k) (c, i) = (bm, (k + 100)%nat)
      /\ forall d, (d < 100)%nat ->
           BallManager.isValidPosition bm (fst (rnd (k + d)%nat))
                                          (snd (rnd (k + d)%nat)) = false).
Proof.
  unfold BallManager.placeRandom.
  destruct (BallManager.drawCapped 100 rnd k bm) as [[[x y]|] k'] eqn:E.
  - left. exists x, y, k'.
    destruct (drawCapped_valid _ _ _ _ _ _ _ E) as (Hv & Hk & Hr).
    split; [reflexivity|]. split; [exact Hk|]. split; [exact Hr|].
    split; [exact Hv|]. exact (drawCapped_first _ _ _ _ _ _ _ E).
  - right. destruct (drawCapped_none _ _ _ _ _ E) as (-> & Hall).
    split; [reflexivity | exact Hall].
Qed.
End BoundedSampling.

(* ------------------------------------------------------------------ *)
(** ** Statements of record for lemmas used above *)

Section Restated.

(** X5. In every reachable state the current player is 1 or 2, and while the
    last potted ball is a colour the counter of consecutive colours is at
    least 1. *)
Theorem reachable_rules_invariant (g : Game.t) :
  reachable g ->
  (ScoreManager.currentPlayer (Game.scoreManager g) = 1%Z
   \/ ScoreManager.currentPlayer (Game.scoreManager g) = 2%Z)
  /\ forall l, Game.lastPottedBall g = Some l -> isColoured l = true ->
               (1 <= Game.consecutiveColoredPotted g)%Z.
Proof. exact (reachable_rulesInv g). Qed.

Lemma reachable_rules_invariant_witness :
  reachable redPottedGame
  /\ ScoreManager.currentPlayer (Game.scoreManager redPottedGame) = 1%Z.
Proof.
  split; [exact redPottedGame_reachable|].
  destruct (reachable_rules_invariant redPottedGame redPottedGame_reachable)
    as [[H | H] _]; [exact H|].
  vm_compute in H. discriminate.
Defined.

(** X7. [recordBallHit] adds a colour at most once: afterwards the colour is
    in the list of balls hit, a list without repetition stays so, and
    recording the same colour again changes nothing. *)
Theorem recordBallHit_idempotent (c : Colour) (s : ScoreManager.t) :
  In c (ScoreManager.ballsHit
          (ScoreManager.currentShot (ScoreManager.recordBallHit c s)))
  /\ (NoDup (ScoreManager.ballsHit (ScoreManager.currentShot s)) ->
      NoDup (ScoreManager.ballsHit
               (ScoreManager.currentShot (ScoreManager.recordBallHit c s))))
  /\ ScoreManager.recordBallHit c (ScoreManager.recordBallHit c s)
     = ScoreManager.recordBallHit c s.
Proof. exact (recordBallHit_once c s). Qed.

(** X23. The iteration of the pass for the ball at index [j] leaves every other
    ball record, the scale, the offsets and the pockets as they were. *)
Theorem checkBall_frame (i j : nat) (g : Game.t) :
  j <> i ->
  nth_error (Game.balls (Game.checkBall g j)) i = nth_error (Game.balls g) i
  /\ Game.scale (Game.checkBall g j) = Game.scale g
  /\ Game.offsetX (Game.checkBall g j) = Game.offsetX g
  /\ Game.offsetY (Game.checkBall g j) = Game.offsetY g
  /\ Game.table (Game.checkBall g j) = Game.table g.
Proof. exact (sameAt_checkBall i j g). Qed.

Lemma checkBall_frame_witness :
  0%nat <> 1%nat
  /\ nth_error (Game.balls (Game.checkBall redAtCornerGame 0)) 1
     = nth_error (Game.balls redAtCornerGame) 1.
Proof.
  assert (Hne : 0%nat <> 1%nat) by discriminate.
  split; [exact Hne|].
  exact (proj1 (checkBall_frame 1 0 redAtCornerGame Hne)).
Defined.

(** X29. For yellow, green, brown, blue and black a re-spot on a free spot puts
    the body back where [addColoredBalls] lays the colour out, the ball
    being active and in the world again. *)
Theorem respot_at_layout_spot (i : nat) (g : Game.t) (ball : Ball.t)
        (sx sy : Q) :
  nth_error (Game.balls g) i = Some ball ->
  isColoured (Ball.colorName ball) = true ->
  Ball.colorName ball <> pink ->
  Game.spots (Ball.colorName ball) = Some (sx, sy) ->
  BallManager.isValidPosition (Game.ballManager g) sx sy = true ->
  exists b' b0,
    nth_error (Game.balls (Game.respotColoredBall i g)) i = Some b'
    /\ layoutBall (Game.scale g) (Game.offsetX g) (Game.offsetY g)
         (Ball.colorName ball) = Some b0
    /\ Ball.isPotted b' = false
    /\ Body.inWorld (Ball.body b') = true
    /\ Body.position (Ball.body b') = Body.position (Ball.body b0).
Proof. exact (respot_restores_layout_position i g ball sx sy). Qed.

Lemma respot_at_layout_spot_witness :
  exists b',
    nth_error (Game.balls (Game.respotColoredBall 0 bluePocketedGame)) 0 = Some b'
    /\ Ball.isPotted b' = false
    /\ Body.position (Ball.body b') = mkVector (0 + 89 * 1) (0 + 44.5 * 1).
Proof.
  assert (Hne : blue <> pink) by discriminate.
  destruct (respot_at_layout_spot 0 bluePocketedGame _ 89 44.5
              eq_refl eq_refl Hne eq_refl eq_refl)
    as (b' & b0 & Hb' & Hb0 & Hp & _ & Hpos).
  exists b'. split; [exact Hb'|]. split; [exact Hp|].
  rewrite Hpos. cbv in Hb0. injection Hb0 as <-. reflexivity.
Defined.
End Restated.

(* ------------------------------------------------------------------ *)
(** ** The pockets of the table attract one at a time *)

Section OnePocket.

Lemma Qsquare_nonneg (a : Q) : 0 <= a * a.
Proof. Lqa.nra. Qed.

Lemma Qsquare_parts (a b m : Q) : a * a + b * b < m -> a * a < m /\ b * b < m.
Proof.
  intro H. pose proof (Qsquare_nonneg a). pose proof (Qsquare_nonneg b).
  split; Lqa.lra.
Qed.

Lemma two_centres (u c1 c2 m : Q) :
  (c1 - u) * (c1 - u) < m -> (c2 - u) * (c2 - u) < m ->
  (c2 - c1) * (c2 - c1) < 4 * m.
Proof.
  intros H1 H2. pose proof (Qsquare_nonneg ((c2 - u) + (c1 - u))). Lqa.lra.
Qed.

(** Two circles of radius [m] around centres that are at least [2 m]
    apart along one axis share no point. *)
Lemma zones_disjoint (bx by_ px py qx qy m : Q) :
  Qle_bool (4 * (m * m)) ((qx - px) * (qx - px))
  || Qle_bool (4 * (m * m)) ((qy - py) * (qy - py)) = true ->
  distLt bx by_ px py m = true -> distLt bx by_ qx qy m = true -> False.
Proof.
  intros Hfar Hp Hq. unfold distLt, distSq in Hp, Hq.
  apply andb_true_iff in Hp. destruct Hp as [_ Hp]. apply Qltb_lt in Hp.
  apply andb_true_iff in Hq. destruct Hq as [_ Hq]. apply Qltb_lt in Hq.
  destruct (Qsquare_parts _ _ _ Hp) as [Hpx Hpy].
  destruct (Qsquare_parts _ _ _ Hq) as [Hqx Hqy].
  apply orb_true_iff in Hfar. destruct Hfar as [Hf | Hf];
    apply Qle_bool_iff in Hf.
  - pose proof (two_centres bx px qx (m * m) Hpx Hqx). Lqa.lra.
  - pose proof (two_centres by_ py qy (m * m) Hpy Hqy). Lqa.lra.
Qed.

(** X24. On the table of the game (178 by 89, six pockets of radius 3.708) no
    point lies in the attraction zone of two pockets: a ball receives the
    attraction impulse and the damping of at most one pocket per pass. *)
Theorem attraction_zones_disjoint (bx by_ : Q) (p q : Table.Pocket) :
  In p (Table.pockets (Table.constructor Game.tableWidth Game.tableHeight)) ->
  In q (Table.pockets (Table.constructor Game.tableWidth Game.tableHeight)) ->
  Game.inAttractionZone bx by_ p = true ->
  Game.inAttractionZone bx by_ q = true ->
  p = q.
Proof.
  intros Hp Hq Ap Aq. unfold Game.inAttractionZone in Ap, Aq.
  apply andb_true_iff in Ap. destruct Ap as [Ap _].
  apply andb_true_iff in Aq. destruct Aq as [Aq _].
  cbn [Table.pockets Table.constructor Table.createPockets In] in Hp, Hq.
  repeat (destruct Hp as [<- | Hp]); try destruct Hp;
    repeat (destruct Hq as [<- | Hq]); try destruct Hq;
    try reflexivity; exfalso;
    cbn [Table.x Table.y Table.radius] in Ap, Aq;
    (refine (zones_disjoint _ _ _ _ _ _ _ _ Ap Aq); vm_compute; reflexivity).
Qed.

Lemma attraction_zones_disjoint_witness :
  Game.inAttractionZone 5 5 (Table.mkPocket 0 0 Table.pocketRadius) = true
  /\ forall q,
       In q (Table.pockets (Table.constructor Game.tableWidth Game.tableHeight)) ->
       Game.inAttractionZone 5 5 q = true ->
       Table.mkPocket 0 0 Table.pocketRadius = q.
Proof.
  assert (H0 : Game.inAttractionZone 5 5 (Table.mkPocket 0 0 Table.pocketRadius)
               = true) by (vm_compute; reflexivity).
  split; [exact H0|]. intros q Hq Aq.
  exact (attraction_zones_disjoint 5 5 _ q (or_introl eq_refl) Hq H0 Aq).
Defined.
End OnePocket.
